(** * Garbage collector of the Cosmos+ OpenSSD flash translation layer

    A shallow embedding of the three victim-selection policies
    ([garbage_collection_greedy.c], [garbage_collection_cost_benefit.c],
    [garbage_collection_CAT_reverse.c]) and of the migration engine they
    share, followed by the properties of the candidate index, the scoring
    functions, the selection strategies and the migration trace.

    C [unsigned int] values are integers in [Z] with the 32-bit wrap-around
    written out where the code can wrap; the 64-bit products of the scoring
    functions wrap at [2^64]; the 16-bit bit-fields [headBlock] and
    [tailBlock] truncate what is stored into them. *)

From Stdlib Require Import ZArith List Bool Lia.
Import ListNotations.
Local Open Scope Z_scope.

(** ** Build-time constants

    [ftl_config.h] and [memory_map.h] are not part of the sources at hand;
    the constants they define are parameters of the development. *)

Class FtlConfig : Type := {
  USER_DIES : Z;
  USER_BLOCKS_PER_DIE : Z;
  SLICES_PER_BLOCK : Z;
  USER_PAGES_PER_BLOCK : Z;
  BLOCK_NONE : Z;
  BLOCK_FAIL : Z;
  LSA_NONE : Z
}.

(** What the code needs from the constants: block numbers of a die are
    [0 .. USER_BLOCKS_PER_DIE-1], none of them is one of the two sentinels,
    [BLOCK_NONE] fits the 16-bit list fields, the counts are unsigned
    32-bit values with room for the [+1] of the scoring functions, and a
    block has as many slices as pages. *)
Definition config_ok `{FtlConfig} : Prop :=
  0 <= USER_BLOCKS_PER_DIE /\
  USER_BLOCKS_PER_DIE <= BLOCK_NONE /\
  BLOCK_NONE < 2 ^ 16 /\
  USER_BLOCKS_PER_DIE <= BLOCK_FAIL /\
  0 <= SLICES_PER_BLOCK /\
  SLICES_PER_BLOCK <= USER_PAGES_PER_BLOCK /\
  USER_PAGES_PER_BLOCK < 2 ^ 32 - 1.

(** ** Machine integers *)

Definition wrap16 (x : Z) : Z := x mod 2 ^ 16.
Definition wrap32 (x : Z) : Z := x mod 2 ^ 32.
Definition wrap64 (x : Z) : Z := x mod 2 ^ 64.

(** ** Data model *)

(** Modelled from the spec: the block entry [VIRTUAL_BLOCK_ENTRY] of the
    virtual block map, whose declaration is missing.  The spec lists an
    invalid-slice count, an erase count and the two intrusive links; the
    fields hold what is stored into them. *)
Record VIRTUAL_BLOCK_ENTRY : Type := mkBlockEntry {
  invalidSliceCnt : Z;
  eraseCnt : Z;
  prevBlock : Z;
  nextBlock : Z
}.

(** [GC_VICTIM_LIST_ENTRY] of [garbage_collection.h]: two 16-bit fields. *)
Record GC_VICTIM_LIST_ENTRY : Type := mkListEntry {
  headBlock : Z;
  tailBlock : Z
}.

(** The globals the index operations work on.  Arrays are total maps from
    their indices; an index outside an array's bounds is outside the C
    semantics and outside every statement below.  [gcLastTick] stands for
    [gcLastEraseTick] (Cost-Benefit) or [gcLastInvalidTick] (CAT): a build
    holds one policy and one of the two tables. *)
Record ftl : Type := mkFtl {
  block : Z -> Z -> VIRTUAL_BLOCK_ENTRY;
  gcVictimList : Z -> Z -> GC_VICTIM_LIST_ENTRY;
  gcActivityTick : Z;
  gcLastTick : Z -> Z -> Z
}.

Definition upd2 {A : Type} (f : Z -> Z -> A) (i j : Z) (v : A) : Z -> Z -> A :=
  fun i' j' => if (i' =? i) && (j' =? j) then v else f i' j'.

Definition upd_block (dieNo blockNo : Z)
    (f : VIRTUAL_BLOCK_ENTRY -> VIRTUAL_BLOCK_ENTRY) (st : ftl) : ftl :=
  mkFtl (upd2 (block st) dieNo blockNo (f (block st dieNo blockNo)))
        (gcVictimList st) (gcActivityTick st) (gcLastTick st).

Definition upd_list (dieNo cnt : Z)
    (f : GC_VICTIM_LIST_ENTRY -> GC_VICTIM_LIST_ENTRY) (st : ftl) : ftl :=
  mkFtl (block st)
        (upd2 (gcVictimList st) dieNo cnt (f (gcVictimList st dieNo cnt)))
        (gcActivityTick st) (gcLastTick st).

(** [block[dieNo][blockNo].prevBlock = v] and the like. *)
Definition set_prevBlock (dieNo blockNo v : Z) : ftl -> ftl :=
  upd_block dieNo blockNo
    (fun e => mkBlockEntry (invalidSliceCnt e) (eraseCnt e) v (nextBlock e)).

Definition set_nextBlock (dieNo blockNo v : Z) : ftl -> ftl :=
  upd_block dieNo blockNo
    (fun e => mkBlockEntry (invalidSliceCnt e) (eraseCnt e) (prevBlock e) v).

Definition set_headBlock (dieNo cnt v : Z) : ftl -> ftl :=
  upd_list dieNo cnt (fun e => mkListEntry (wrap16 v) (tailBlock e)).

Definition set_tailBlock (dieNo cnt v : Z) : ftl -> ftl :=
  upd_list dieNo cnt (fun e => mkListEntry (headBlock e) (wrap16 v)).

Definition set_gcActivityTick (v : Z) (st : ftl) : ftl :=
  mkFtl (block st) (gcVictimList st) v (gcLastTick st).

Definition set_gcLastTick (dieNo blockNo v : Z) (st : ftl) : ftl :=
  mkFtl (block st) (gcVictimList st) (gcActivityTick st)
        (upd2 (gcLastTick st) dieNo blockNo v).

(** How a call ends: with a value, in the fatal [assert] (assertions are
    compiled in: the device halts there), or (a model artefact of the
    [while] loop over the links) with the fuel used up. *)
Inductive outcome (A : Type) : Type :=
| Returned (a : A)
| AssertFailed
| OutOfFuel.
Arguments Returned {A} a.
Arguments AssertFailed {A}.
Arguments OutOfFuel {A}.

(** ** Operations shared by the three policies *)

(** [SelectiveGetFromGcVictimList]: the same text in the three files. *)
Definition SelectiveGetFromGcVictimList `{FtlConfig}
    (dieNo blockNo : Z) (st : ftl) : ftl :=
  let nextBlock := nextBlock (block st dieNo blockNo) in
  let prevBlock := prevBlock (block st dieNo blockNo) in
  let invalidSliceCnt := invalidSliceCnt (block st dieNo blockNo) in
  if negb (nextBlock =? BLOCK_NONE) && negb (prevBlock =? BLOCK_NONE) then
    let st := set_nextBlock dieNo prevBlock nextBlock st in
    set_prevBlock dieNo nextBlock prevBlock st
  else if (nextBlock =? BLOCK_NONE) && negb (prevBlock =? BLOCK_NONE) then
    let st := set_nextBlock dieNo prevBlock BLOCK_NONE st in
    set_tailBlock dieNo invalidSliceCnt prevBlock st
  else if negb (nextBlock =? BLOCK_NONE) && (prevBlock =? BLOCK_NONE) then
    let st := set_prevBlock dieNo nextBlock BLOCK_NONE st in
    set_headBlock dieNo invalidSliceCnt nextBlock st
  else
    let st := set_headBlock dieNo invalidSliceCnt BLOCK_NONE st in
    set_tailBlock dieNo invalidSliceCnt BLOCK_NONE st.

(** [DetachBlockFromGcList], the static helper of the Cost-Benefit and CAT
    files. *)
Definition DetachBlockFromGcList `{FtlConfig}
    (dieNo blockNo : Z) (st : ftl) : ftl :=
  let st := SelectiveGetFromGcVictimList dieNo blockNo st in
  let st := set_nextBlock dieNo blockNo BLOCK_NONE st in
  set_prevBlock dieNo blockNo BLOCK_NONE st.

(** The initialisation loops of [InitGcVictimMap] over the lists of every
    die. *)
Definition init_lists `{FtlConfig} (st : ftl) : ftl :=
  mkFtl (block st)
        (fun dieNo cnt =>
           if (0 <=? dieNo) && (dieNo <? USER_DIES)
              && (0 <=? cnt) && (cnt <? SLICES_PER_BLOCK + 1)
           then mkListEntry (wrap16 BLOCK_NONE) (wrap16 BLOCK_NONE)
           else gcVictimList st dieNo cnt)
        (gcActivityTick st) (gcLastTick st).

Definition init_ticks `{FtlConfig} (st : ftl) : ftl :=
  mkFtl (block st) (gcVictimList st) 0
        (fun dieNo blockNo =>
           if (0 <=? dieNo) && (dieNo <? USER_DIES)
              && (0 <=? blockNo) && (blockNo <? USER_BLOCKS_PER_DIE)
           then 0 else gcLastTick st dieNo blockNo).

(** ** Greedy policy ([garbage_collection_greedy.c]) *)

Module Greedy.

Definition InitGcVictimMap `{FtlConfig} (st : ftl) : ftl := init_lists st.

Definition PutToGcVictimList `{FtlConfig}
    (dieNo blockNo invalidSliceCnt : Z) (st : ftl) : ftl :=
  if negb (tailBlock (gcVictimList st dieNo invalidSliceCnt) =? BLOCK_NONE) then
    let st := set_prevBlock dieNo blockNo
                (tailBlock (gcVictimList st dieNo invalidSliceCnt)) st in
    let st := set_nextBlock dieNo blockNo BLOCK_NONE st in
    let st := set_nextBlock dieNo
                (tailBlock (gcVictimList st dieNo invalidSliceCnt)) blockNo st in
    set_tailBlock dieNo invalidSliceCnt blockNo st
  else
    let st := set_prevBlock dieNo blockNo BLOCK_NONE st in
    let st := set_nextBlock dieNo blockNo BLOCK_NONE st in
    let st := set_headBlock dieNo invalidSliceCnt blockNo st in
    set_tailBlock dieNo invalidSliceCnt blockNo st.

(** The [for] loop of [GetFromGcVictimList], [n] buckets still to look
    at: bucket [n] first, down to bucket 1. *)
Fixpoint GetFromGcVictimList_from `{FtlConfig}
    (n : nat) (dieNo : Z) (st : ftl) : outcome (Z * ftl) :=
  match n with
  | O => AssertFailed
  | S n' =>
    let invalidSliceCnt := Z.of_nat n in
    if negb (headBlock (gcVictimList st dieNo invalidSliceCnt) =? BLOCK_NONE) then
      let evictedBlockNo := headBlock (gcVictimList st dieNo invalidSliceCnt) in
      if negb (nextBlock (block st dieNo evictedBlockNo) =? BLOCK_NONE) then
        let st := set_prevBlock dieNo
                    (nextBlock (block st dieNo evictedBlockNo)) BLOCK_NONE st in
        let st := set_headBlock dieNo invalidSliceCnt
                    (nextBlock (block st dieNo evictedBlockNo)) st in
        Returned (evictedBlockNo, st)
      else
        let st := set_headBlock dieNo invalidSliceCnt BLOCK_NONE st in
        let st := set_tailBlock dieNo invalidSliceCnt BLOCK_NONE st in
        Returned (evictedBlockNo, st)
    else GetFromGcVictimList_from n' dieNo st
  end.

Definition GetFromGcVictimList `{FtlConfig}
    (dieNo : Z) (st : ftl) : outcome (Z * ftl) :=
  GetFromGcVictimList_from (Z.to_nat SLICES_PER_BLOCK) dieNo st.

End Greedy.

(** ** Scan of the candidates (Cost-Benefit and CAT) *)

(** The [while] loop over one bucket: [best] is [(bestBlock, bestScore)]. *)
Fixpoint scan_bucket `{FtlConfig} (fuel : nat) (score_of : Z -> Z)
    (st : ftl) (dieNo blockNo : Z) (best : Z * Z) : option (Z * Z) :=
  if blockNo =? BLOCK_NONE then Some best
  else
    match fuel with
    | O => None
    | S fuel' =>
      let nextBlock := nextBlock (block st dieNo blockNo) in
      let score := score_of blockNo in
      scan_bucket fuel' score_of st dieNo nextBlock
        (if snd best <? score then (blockNo, score) else best)
    end.

(** The [for] loop over the buckets [n], [n-1], ..., 1. *)
Fixpoint scan_buckets `{FtlConfig} (fuel : nat) (score_of : Z -> Z)
    (st : ftl) (dieNo : Z) (n : nat) (best : Z * Z) : option (Z * Z) :=
  match n with
  | O => Some best
  | S n' =>
    let invalidSliceCnt := Z.of_nat n in
    match scan_bucket fuel score_of st dieNo
            (headBlock (gcVictimList st dieNo invalidSliceCnt)) best with
    | None => None
    | Some best' => scan_buckets fuel score_of st dieNo n' best'
    end
  end.

(** One step of the scan: the block replaces the best one when its score
    is strictly greater. *)
Definition better (score_of : Z -> Z) (best : Z * Z) (blockNo : Z) : Z * Z :=
  if snd best <? score_of blockNo then (blockNo, score_of blockNo) else best.

(** The body the two scanning [GetFromGcVictimList] share; they differ in
    the scoring function only. *)
Definition select_by_score `{FtlConfig} (fuel : nat)
    (score : ftl -> Z -> Z -> Z) (dieNo : Z) (st : ftl) : outcome (Z * ftl) :=
  match scan_buckets fuel (score st dieNo) st dieNo
          (Z.to_nat SLICES_PER_BLOCK) (BLOCK_FAIL, 0) with
  | None => OutOfFuel
  | Some (bestBlock, _) =>
    if negb (bestBlock =? BLOCK_FAIL)
    then Returned (bestBlock, DetachBlockFromGcList dieNo bestBlock st)
    else AssertFailed
  end.

(** ** Cost-Benefit policy ([garbage_collection_cost_benefit.c]) *)

Module CostBenefit.

Definition InitGcVictimMap `{FtlConfig} (st : ftl) : ftl :=
  init_lists (init_ticks st).

Definition CalculateCostBenefitScore `{FtlConfig}
    (st : ftl) (dieNo blockNo : Z) : Z :=
  let invalidSlices := invalidSliceCnt (block st dieNo blockNo) in
  let validSlices := wrap32 (USER_PAGES_PER_BLOCK - invalidSlices) in
  let ageTicks := wrap32 (gcActivityTick st - gcLastTick st dieNo blockNo) in
  let benefit :=
    wrap64 (wrap64 (invalidSlices * wrap32 (ageTicks + 1)) * USER_PAGES_PER_BLOCK) in
  let cost := wrap32 (validSlices + 1) in
  if (cost =? 0) || (benefit =? 0) then wrap32 benefit
  else wrap32 (benefit / cost).

(** The tick moves first; the list insertion that follows is the text of
    the Greedy file. *)
Definition PutToGcVictimList `{FtlConfig}
    (dieNo blockNo invalidSliceCnt : Z) (st : ftl) : ftl :=
  let st := if negb (invalidSliceCnt =? 0)
            then set_gcActivityTick (wrap32 (gcActivityTick st + 1)) st
            else st in
  Greedy.PutToGcVictimList dieNo blockNo invalidSliceCnt st.

Definition GetFromGcVictimList `{FtlConfig}
    (fuel : nat) (dieNo : Z) (st : ftl) : outcome (Z * ftl) :=
  select_by_score fuel CalculateCostBenefitScore dieNo st.

End CostBenefit.

(** ** CAT policy ([garbage_collection_CAT_reverse.c]) *)

Module CAT.

Definition InitGcVictimMap `{FtlConfig} (st : ftl) : ftl :=
  init_lists (init_ticks st).

Definition CalculateCatScore `{FtlConfig}
    (st : ftl) (dieNo blockNo : Z) : Z :=
  let invalidSlices := invalidSliceCnt (block st dieNo blockNo) in
  let validSlices := wrap32 (USER_PAGES_PER_BLOCK - invalidSlices) in
  let ageTicks := wrap32 (gcActivityTick st - gcLastTick st dieNo blockNo) in
  let wearCount := eraseCnt (block st dieNo blockNo) in
  let numerator := wrap64 (wrap32 (invalidSlices + 1) * wrap32 (ageTicks + 1)) in
  let denominator := wrap64 (wrap32 (validSlices + 1) * wrap32 (wearCount + 1)) in
  if denominator =? 0 then wrap32 numerator
  else wrap32 (numerator / denominator).

Definition PutToGcVictimList `{FtlConfig}
    (dieNo blockNo invalidSliceCnt : Z) (st : ftl) : ftl :=
  let st := if negb (invalidSliceCnt =? 0)
            then
              let st := set_gcActivityTick (wrap32 (gcActivityTick st + 1)) st in
              set_gcLastTick dieNo blockNo (gcActivityTick st) st
            else st in
  Greedy.PutToGcVictimList dieNo blockNo invalidSliceCnt st.

Definition GetFromGcVictimList `{FtlConfig}
    (fuel : nat) (dieNo : Z) (st : ftl) : outcome (Z * ftl) :=
  select_by_score fuel CalculateCatScore dieNo st.

End CAT.

(** ** Well-formedness of the candidate index *)

Definition valid_block `{FtlConfig} (x : Z) : Prop :=
  0 <= x < USER_BLOCKS_PER_DIE.

(** A run of blocks linked in both directions: the first one's [prevBlock]
    is [p], the last one's [nextBlock] is [n], each other link points to
    the neighbour. *)
Fixpoint dllseg `{FtlConfig} (st : ftl) (d p : Z) (l : list Z) (n : Z) : Prop :=
  match l with
  | [] => True
  | x :: r =>
    valid_block x /\
    prevBlock (block st d x) = p /\
    nextBlock (block st d x) = hd n r /\
    dllseg st d x r n
  end.

(** Bucket [k] of die [d] holds the blocks [l], head first. *)
Definition bucket_repr `{FtlConfig} (st : ftl) (d k : Z) (l : list Z) : Prop :=
  headBlock (gcVictimList st d k) = hd BLOCK_NONE l /\
  tailBlock (gcVictimList st d k) = last l BLOCK_NONE /\
  dllseg st d BLOCK_NONE l BLOCK_NONE /\
  Forall (fun x => invalidSliceCnt (block st d x) = k) l.

Definition wf_index `{FtlConfig} (st : ftl) (d : Z) : Prop :=
  forall k, 0 <= k <= SLICES_PER_BLOCK -> exists l, bucket_repr st d k l.

Definition in_bucket `{FtlConfig} (st : ftl) (d k x : Z) : Prop :=
  exists l, bucket_repr st d k l /\ In x l.

Definition in_no_list `{FtlConfig} (st : ftl) (d x : Z) : Prop :=
  forall k, 0 <= k <= SLICES_PER_BLOCK -> ~ in_bucket st d k x.

(** The blocks the descending scan meets, in the order it meets them:
    bucket [n] head to tail, then bucket [n-1], down to bucket 1. *)
Fixpoint scan_order `{FtlConfig} (st : ftl) (d : Z) (n : nat) (l : list Z) : Prop :=
  match n with
  | O => l = []
  | S n' =>
    exists lk rest,
      bucket_repr st d (Z.of_nat n) lk /\ scan_order st d n' rest /\ l = lk ++ rest
  end.

Definition candidates `{FtlConfig} (st : ftl) (d : Z) (l : list Z) : Prop :=
  scan_order st d (Z.to_nat SLICES_PER_BLOCK) l.

(** *** The same, computed *)

Fixpoint walk `{FtlConfig} (fuel : nat) (st : ftl) (d x : Z) : list Z :=
  if x =? BLOCK_NONE then []
  else
    match fuel with
    | O => []
    | S fuel' => x :: walk fuel' st d (nextBlock (block st d x))
    end.

Definition bucket_list `{FtlConfig} (fuel : nat) (st : ftl) (d k : Z) : list Z :=
  walk fuel st d (headBlock (gcVictimList st d k)).

Fixpoint dllsegb `{FtlConfig} (st : ftl) (d p : Z) (l : list Z) (n : Z) : bool :=
  match l with
  | [] => true
  | x :: r =>
    (0 <=? x) && (x <? USER_BLOCKS_PER_DIE)
    && (prevBlock (block st d x) =? p)
    && (nextBlock (block st d x) =? hd n r)
    && dllsegb st d x r n
  end.

Definition bucket_reprb `{FtlConfig} (st : ftl) (d k : Z) (l : list Z) : bool :=
  (headBlock (gcVictimList st d k) =? hd BLOCK_NONE l)
  && (tailBlock (gcVictimList st d k) =? last l BLOCK_NONE)
  && dllsegb st d BLOCK_NONE l BLOCK_NONE
  && forallb (fun x => invalidSliceCnt (block st d x) =? k) l.

Definition wf_indexb `{FtlConfig} (fuel : nat) (st : ftl) (d : Z) : bool :=
  forallb (fun i => bucket_reprb st d (Z.of_nat i)
                      (bucket_list fuel st d (Z.of_nat i)))
          (seq 0 (S (Z.to_nat SLICES_PER_BLOCK))).

Definition in_no_listb `{FtlConfig} (fuel : nat) (st : ftl) (d x : Z) : bool :=
  forallb (fun i => negb (existsb (Z.eqb x) (bucket_list fuel st d (Z.of_nat i))))
          (seq 0 (S (Z.to_nat SLICES_PER_BLOCK))).

Fixpoint candidate_list `{FtlConfig} (fuel : nat) (st : ftl) (d : Z) (n : nat) : list Z :=
  match n with
  | O => []
  | S n' => bucket_list fuel st d (Z.of_nat n) ++ candidate_list fuel st d n'
  end.

(** ** Migration engine

    [GarbageCollection] calls into the request pool, the low-level
    scheduler, the buffer allocator, the free-slice allocator and the erase
    routine, none of which is among the sources at hand.  A call is recorded
    in a trace and what it returns is a function of the trace so far; the
    collaborators are taken not to write the two mapping tables nor the
    slot being filled.  The stores of the engine into the two mapping tables
    are recorded in the same trace. *)

(** The request constants of the missing [request_format.h]. *)
Class ReqFormat : Type := {
  REQ_TYPE_NAND : Z;
  REQ_CODE_READ : Z;
  REQ_CODE_WRITE : Z;
  REQ_OPT_DATA_BUF_TEMP_ENTRY : Z;
  REQ_OPT_NAND_ADDR_VSA : Z;
  REQ_OPT_NAND_ECC_ON : Z;
  REQ_OPT_NAND_ECC_WARNING_OFF : Z;
  REQ_OPT_ROW_ADDR_DEPENDENCY_CHECK : Z;
  REQ_OPT_BLOCK_SPACE_MAIN : Z
}.

(** Modelled from the spec: the request descriptor, with the fields the
    spec lists as set by the collector. *)
Record SSD_REQ_FORMAT : Type := mkReq {
  reqType : Z;
  reqCode : Z;
  logicalSliceAddr : Z;
  reqOpt_dataBufFormat : Z;
  reqOpt_nandAddr : Z;
  reqOpt_nandEcc : Z;
  reqOpt_nandEccWarning : Z;
  reqOpt_rowAddrDependencyCheck : Z;
  reqOpt_blockSpace : Z;
  dataBufInfo_entry : Z;
  nandInfo_virtualSliceAddr : Z
}.

Inductive event : Type :=
| EvGetFromFreeReqQ (reqSlotTag : Z)
| EvAllocateTempDataBuf (dieNo entry : Z)
| EvUpdateTempDataBufEntryInfoBlockingReq (entry reqSlotTag : Z)
| EvSelectLowLevelReqQ (reqSlotTag : Z) (req : SSD_REQ_FORMAT)
| EvFindFreeVirtualSliceForGc (dieNo victimBlockNo virtualSliceAddr : Z)
| EvEraseBlock (dieNo blockNo : Z)
| EvStoreLogicalSlice (logicalSliceAddr virtualSliceAddr : Z)
| EvStoreVirtualSlice (virtualSliceAddr logicalSliceAddr : Z).

(** What the collaborators answer. *)
Class FtlExternals : Type := {
  Vorg2VsaTranslation : Z -> Z -> Z -> Z;
  GetFromFreeReqQ_result : list event -> Z;
  AllocateTempDataBuf_result : Z -> list event -> Z;
  FindFreeVirtualSliceForGc_result : Z -> Z -> list event -> Z
}.

(** [virtualSlice v] is [virtualSliceMapPtr->virtualSlice[v].logicalSliceAddr],
    [logicalSlice l] is [logicalSliceMapPtr->logicalSlice[l].virtualSliceAddr]. *)
Record gc_machine : Type := mkMachine {
  gc_ftl : ftl;
  virtualSlice : Z -> Z;
  logicalSlice : Z -> Z;
  reqPool : Z -> SSD_REQ_FORMAT;
  trace : list event
}.

Definition upd1 {A : Type} (f : Z -> A) (i : Z) (v : A) : Z -> A :=
  fun i' => if i' =? i then v else f i'.

(** *** A state monad over the machine *)

Definition M (A : Type) : Type := gc_machine -> A * gc_machine.

Definition ret {A : Type} (a : A) : M A := fun m => (a, m).

Definition bind {A B : Type} (c : M A) (k : A -> M B) : M B :=
  fun m => let (a, m') := c m in k a m'.

Notation "x <- c ;; k" := (bind c (fun x => k))
  (at level 61, c at next level, right associativity).
Notation "c ;;; k" := (bind c (fun _ => k))
  (at level 61, right associativity).

Definition emit (e : event) : M unit :=
  fun m => (tt, mkMachine (gc_ftl m) (virtualSlice m) (logicalSlice m)
                          (reqPool m) (trace m ++ [e])).

Definition load {A : Type} (f : gc_machine -> A) : M A := fun m => (f m, m).

Definition store_req (reqSlotTag : Z) (f : SSD_REQ_FORMAT -> SSD_REQ_FORMAT) : M unit :=
  fun m => (tt, mkMachine (gc_ftl m) (virtualSlice m) (logicalSlice m)
                          (upd1 (reqPool m) reqSlotTag (f (reqPool m reqSlotTag)))
                          (trace m)).

Definition store_logicalSlice (lsa vsa : Z) : M unit :=
  fun m => (tt, mkMachine (gc_ftl m) (virtualSlice m) (upd1 (logicalSlice m) lsa vsa)
                          (reqPool m) (trace m ++ [EvStoreLogicalSlice lsa vsa])).

Definition store_virtualSlice (vsa lsa : Z) : M unit :=
  fun m => (tt, mkMachine (gc_ftl m) (upd1 (virtualSlice m) vsa lsa) (logicalSlice m)
                          (reqPool m) (trace m ++ [EvStoreVirtualSlice vsa lsa])).

Definition with_ftl (f : ftl) (m : gc_machine) : gc_machine :=
  mkMachine f (virtualSlice m) (logicalSlice m) (reqPool m) (trace m).

(** Field stores into a request slot. *)
Definition set_reqType v r :=
  mkReq v (reqCode r) (logicalSliceAddr r) (reqOpt_dataBufFormat r)
    (reqOpt_nandAddr r) (reqOpt_nandEcc r) (reqOpt_nandEccWarning r)
    (reqOpt_rowAddrDependencyCheck r) (reqOpt_blockSpace r)
    (dataBufInfo_entry r) (nandInfo_virtualSliceAddr r).
Definition set_reqCode v r :=
  mkReq (reqType r) v (logicalSliceAddr r) (reqOpt_dataBufFormat r)
    (reqOpt_nandAddr r) (reqOpt_nandEcc r) (reqOpt_nandEccWarning r)
    (reqOpt_rowAddrDependencyCheck r) (reqOpt_blockSpace r)
    (dataBufInfo_entry r) (nandInfo_virtualSliceAddr r).
Definition set_logicalSliceAddr v r :=
  mkReq (reqType r) (reqCode r) v (reqOpt_dataBufFormat r)
    (reqOpt_nandAddr r) (reqOpt_nandEcc r) (reqOpt_nandEccWarning r)
    (reqOpt_rowAddrDependencyCheck r) (reqOpt_blockSpace r)
    (dataBufInfo_entry r) (nandInfo_virtualSliceAddr r).
Definition set_dataBufFormat v r :=
  mkReq (reqType r) (reqCode r) (logicalSliceAddr r) v
    (reqOpt_nandAddr r) (reqOpt_nandEcc r) (reqOpt_nandEccWarning r)
    (reqOpt_rowAddrDependencyCheck r) (reqOpt_blockSpace r)
    (dataBufInfo_entry r) (nandInfo_virtualSliceAddr r).
Definition set_nandAddr v r :=
  mkReq (reqType r) (reqCode r) (logicalSliceAddr r) (reqOpt_dataBufFormat r)
    v (reqOpt_nandEcc r) (reqOpt_nandEccWarning r)
    (reqOpt_rowAddrDependencyCheck r) (reqOpt_blockSpace r)
    (dataBufInfo_entry r) (nandInfo_virtualSliceAddr r).
Definition set_nandEcc v r :=
  mkReq (reqType r) (reqCode r) (logicalSliceAddr r) (reqOpt_dataBufFormat r)
    (reqOpt_nandAddr r) v (reqOpt_nandEccWarning r)
    (reqOpt_rowAddrDependencyCheck r) (reqOpt_blockSpace r)
    (dataBufInfo_entry r) (nandInfo_virtualSliceAddr r).
Definition set_nandEccWarning v r :=
  mkReq (reqType r) (reqCode r) (logicalSliceAddr r) (reqOpt_dataBufFormat r)
    (reqOpt_nandAddr r) (reqOpt_nandEcc r) v
    (reqOpt_rowAddrDependencyCheck r) (reqOpt_blockSpace r)
    (dataBufInfo_entry r) (nandInfo_virtualSliceAddr r).
Definition set_rowAddrDependencyCheck v r :=
  mkReq (reqType r) (reqCode r) (logicalSliceAddr r) (reqOpt_dataBufFormat r)
    (reqOpt_nandAddr r) (reqOpt_nandEcc r) (reqOpt_nandEccWarning r)
    v (reqOpt_blockSpace r)
    (dataBufInfo_entry r) (nandInfo_virtualSliceAddr r).
Definition set_blockSpace v r :=
  mkReq (reqType r) (reqCode r) (logicalSliceAddr r) (reqOpt_dataBufFormat r)
    (reqOpt_nandAddr r) (reqOpt_nandEcc r) (reqOpt_nandEccWarning r)
    (reqOpt_rowAddrDependencyCheck r) v
    (dataBufInfo_entry r) (nandInfo_virtualSliceAddr r).
Definition set_dataBufInfo_entry v r :=
  mkReq (reqType r) (reqCode r) (logicalSliceAddr r) (reqOpt_dataBufFormat r)
    (reqOpt_nandAddr r) (reqOpt_nandEcc r) (reqOpt_nandEccWarning r)
    (reqOpt_rowAddrDependencyCheck r) (reqOpt_blockSpace r)
    v (nandInfo_virtualSliceAddr r).
Definition set_nandInfo_virtualSliceAddr v r :=
  mkReq (reqType r) (reqCode r) (logicalSliceAddr r) (reqOpt_dataBufFormat r)
    (reqOpt_nandAddr r) (reqOpt_nandEcc r) (reqOpt_nandEccWarning r)
    (reqOpt_rowAddrDependencyCheck r) (reqOpt_blockSpace r)
    (dataBufInfo_entry r) v.

(** *** Calls to the collaborators *)

Definition GetFromFreeReqQ `{FtlExternals} : M Z :=
  tr <- load trace ;;
  let reqSlotTag := GetFromFreeReqQ_result tr in
  emit (EvGetFromFreeReqQ reqSlotTag) ;;;
  ret reqSlotTag.

Definition AllocateTempDataBuf `{FtlExternals} (dieNo : Z) : M Z :=
  tr <- load trace ;;
  let entry := AllocateTempDataBuf_result dieNo tr in
  emit (EvAllocateTempDataBuf dieNo entry) ;;;
  ret entry.

Definition UpdateTempDataBufEntryInfoBlockingReq (entry reqSlotTag : Z) : M unit :=
  emit (EvUpdateTempDataBufEntryInfoBlockingReq entry reqSlotTag).

Definition SelectLowLevelReqQ (reqSlotTag : Z) : M unit :=
  req <- load (fun m => reqPool m reqSlotTag) ;;
  emit (EvSelectLowLevelReqQ reqSlotTag req).

Definition FindFreeVirtualSliceForGc `{FtlExternals} (dieNo victimBlockNo : Z) : M Z :=
  tr <- load trace ;;
  let vsa := FindFreeVirtualSliceForGc_result dieNo victimBlockNo tr in
  emit (EvFindFreeVirtualSliceForGc dieNo victimBlockNo vsa) ;;;
  ret vsa.

Definition EraseBlock (dieNo blockNo : Z) : M unit :=
  emit (EvEraseBlock dieNo blockNo).

(** *** The body of the page loop of [GarbageCollection] *)

Definition copy_page `{FtlConfig} `{ReqFormat} `{FtlExternals}
    (dieNo victimBlockNo pageNo : Z) : M unit :=
  let dieNoForGcCopy := dieNo in
  let virtualSliceAddr := Vorg2VsaTranslation dieNo victimBlockNo pageNo in
  logicalSliceAddr <- load (fun m => virtualSlice m virtualSliceAddr) ;;
  if negb (logicalSliceAddr =? LSA_NONE) then
    mapped <- load (fun m => logicalSlice m logicalSliceAddr) ;;
    if mapped =? virtualSliceAddr then
      (* READ *)
      reqSlotTag <- GetFromFreeReqQ ;;
      store_req reqSlotTag (set_reqType REQ_TYPE_NAND) ;;;
      store_req reqSlotTag (set_reqCode REQ_CODE_READ) ;;;
      store_req reqSlotTag (set_logicalSliceAddr logicalSliceAddr) ;;;
      store_req reqSlotTag (set_dataBufFormat REQ_OPT_DATA_BUF_TEMP_ENTRY) ;;;
      store_req reqSlotTag (set_nandAddr REQ_OPT_NAND_ADDR_VSA) ;;;
      store_req reqSlotTag (set_nandEcc REQ_OPT_NAND_ECC_ON) ;;;
      store_req reqSlotTag (set_nandEccWarning REQ_OPT_NAND_ECC_WARNING_OFF) ;;;
      store_req reqSlotTag (set_rowAddrDependencyCheck REQ_OPT_ROW_ADDR_DEPENDENCY_CHECK) ;;;
      store_req reqSlotTag (set_blockSpace REQ_OPT_BLOCK_SPACE_MAIN) ;;;
      entry <- AllocateTempDataBuf dieNo ;;
      store_req reqSlotTag (set_dataBufInfo_entry entry) ;;;
      entry <- load (fun m => dataBufInfo_entry (reqPool m reqSlotTag)) ;;
      UpdateTempDataBufEntryInfoBlockingReq entry reqSlotTag ;;;
      store_req reqSlotTag (set_nandInfo_virtualSliceAddr virtualSliceAddr) ;;;
      SelectLowLevelReqQ reqSlotTag ;;;
      (* WRITE *)
      reqSlotTag <- GetFromFreeReqQ ;;
      store_req reqSlotTag (set_reqType REQ_TYPE_NAND) ;;;
      store_req reqSlotTag (set_reqCode REQ_CODE_WRITE) ;;;
      store_req reqSlotTag (set_logicalSliceAddr logicalSliceAddr) ;;;
      store_req reqSlotTag (set_dataBufFormat REQ_OPT_DATA_BUF_TEMP_ENTRY) ;;;
      store_req reqSlotTag (set_nandAddr REQ_OPT_NAND_ADDR_VSA) ;;;
      store_req reqSlotTag (set_nandEcc REQ_OPT_NAND_ECC_ON) ;;;
      store_req reqSlotTag (set_nandEccWarning REQ_OPT_NAND_ECC_WARNING_OFF) ;;;
      store_req reqSlotTag (set_rowAddrDependencyCheck REQ_OPT_ROW_ADDR_DEPENDENCY_CHECK) ;;;
      store_req reqSlotTag (set_blockSpace REQ_OPT_BLOCK_SPACE_MAIN) ;;;
      entry <- AllocateTempDataBuf dieNo ;;
      store_req reqSlotTag (set_dataBufInfo_entry entry) ;;;
      entry <- load (fun m => dataBufInfo_entry (reqPool m reqSlotTag)) ;;
      UpdateTempDataBufEntryInfoBlockingReq entry reqSlotTag ;;;
      vsa <- FindFreeVirtualSliceForGc dieNoForGcCopy victimBlockNo ;;
      store_req reqSlotTag (set_nandInfo_virtualSliceAddr vsa) ;;;
      (* mapping update *)
      vsa <- load (fun m => nandInfo_virtualSliceAddr (reqPool m reqSlotTag)) ;;
      store_logicalSlice logicalSliceAddr vsa ;;;
      vsa <- load (fun m => nandInfo_virtualSliceAddr (reqPool m reqSlotTag)) ;;
      store_virtualSlice vsa logicalSliceAddr ;;;
      SelectLowLevelReqQ reqSlotTag
    else ret tt
  else ret tt.

(** [for (pageNo = i; ...; pageNo++)] with [n] iterations left. *)
Fixpoint for_pages (n : nat) (pageNo : Z) (body : Z -> M unit) : M unit :=
  match n with
  | O => ret tt
  | S n' => body pageNo ;;; for_pages n' (pageNo + 1) body
  end.

(** [GarbageCollection]: the three files differ in the selection and in
    the store that follows the erase. *)
Definition GarbageCollection_with `{FtlConfig} `{ReqFormat} `{FtlExternals}
    (GetFromGcVictimList : Z -> ftl -> outcome (Z * ftl))
    (after_erase : Z -> Z -> ftl -> ftl)
    (dieNo : Z) (m : gc_machine) : outcome gc_machine :=
  match GetFromGcVictimList dieNo (gc_ftl m) with
  | Returned (victimBlockNo, f) =>
    let m := with_ftl f m in
    let m :=
      if negb (invalidSliceCnt (block (gc_ftl m) dieNo victimBlockNo)
               =? SLICES_PER_BLOCK)
      then snd (for_pages (Z.to_nat USER_PAGES_PER_BLOCK) 0
                  (copy_page dieNo victimBlockNo) m)
      else m in
    let m := snd (EraseBlock dieNo victimBlockNo m) in
    Returned (with_ftl (after_erase dieNo victimBlockNo (gc_ftl m)) m)
  | AssertFailed => AssertFailed
  | OutOfFuel => OutOfFuel
  end.

Definition Greedy_GarbageCollection `{FtlConfig} `{ReqFormat} `{FtlExternals}
    (dieNo : Z) (m : gc_machine) : outcome gc_machine :=
  GarbageCollection_with Greedy.GetFromGcVictimList (fun _ _ f => f) dieNo m.

(** [gcLastEraseTick[dieNo][victimBlockNo] = gcActivityTick] after the
    erase. *)
Definition CostBenefit_GarbageCollection `{FtlConfig} `{ReqFormat} `{FtlExternals}
    (fuel : nat) (dieNo : Z) (m : gc_machine) : outcome gc_machine :=
  GarbageCollection_with (CostBenefit.GetFromGcVictimList fuel)
    (fun d b f => set_gcLastTick d b (gcActivityTick f) f) dieNo m.

(** [gcLastInvalidTick[dieNo][victimBlockNo] = gcActivityTick] after the
    erase. *)
Definition CAT_GarbageCollection `{FtlConfig} `{ReqFormat} `{FtlExternals}
    (fuel : nat) (dieNo : Z) (m : gc_machine) : outcome gc_machine :=
  GarbageCollection_with (CAT.GetFromGcVictimList fuel)
    (fun d b f => set_gcLastTick d b (gcActivityTick f) f) dieNo m.

(** ** The statements of the specification, as predicates *)

(** Index well-formedness in the words of the specification: every
    bucket is a linked list of blocks whose invalid count is the bucket's
    number; its head is [BLOCK_NONE] exactly when its tail is; no block is
    in two buckets. *)
Definition index_well_formed `{FtlConfig} (st : ftl) (d : Z) : Prop :=
  wf_index st d /\
  (forall k, 0 <= k <= SLICES_PER_BLOCK ->
     (headBlock (gcVictimList st d k) = BLOCK_NONE <->
      tailBlock (gcVictimList st d k) = BLOCK_NONE)) /\
  (forall k1 k2 x, in_bucket st d k1 x -> in_bucket st d k2 x -> k1 = k2).

(** The scores as the specification writes them: natural-number factors,
    a 64-bit product, a quotient narrowed to 32 bits. *)
Definition spec_cost_benefit_score (I A P : Z) : Z :=
  let V := P - I in
  let product := wrap64 (I * (A + 1) * P) in
  if product =? 0 then 0 else wrap32 (product / (V + 1)).

Definition spec_cat_score (I A P W : Z) : Z :=
  let V := P - I in
  wrap32 (wrap64 ((I + 1) * (A + 1)) / wrap64 ((V + 1) * (W + 1))).

(** The index operations of one die (Greedy build), with their
    preconditions. *)
Inductive index_op : Type :=
| OpPut (blockNo invalidSliceCnt : Z)
| OpGet
| OpSelectiveGet (blockNo : Z).

Definition op_pre `{FtlConfig} (st : ftl) (d : Z) (op : index_op) : Prop :=
  match op with
  | OpPut b c =>
    valid_block b /\ 0 <= c <= SLICES_PER_BLOCK /\
    invalidSliceCnt (block st d b) = c /\ in_no_list st d b
  | OpGet => True
  | OpSelectiveGet b => exists k, 0 <= k <= SLICES_PER_BLOCK /\ in_bucket st d k b
  end.

Definition run_op `{FtlConfig} (d : Z) (op : index_op) (st : ftl) : ftl :=
  match op with
  | OpPut b c => Greedy.PutToGcVictimList d b c st
  | OpGet =>
    match Greedy.GetFromGcVictimList d st with
    | Returned (_, st') => st'
    | _ => st
    end
  | OpSelectiveGet b => SelectiveGetFromGcVictimList d b st
  end.

(** The events of one migrated page, in the order of the code. *)
Definition page_events (dieNo victimBlockNo lsa : Z)
    (rtag rbuf : Z) (rreq : SSD_REQ_FORMAT)
    (wtag wbuf dest : Z) (wreq : SSD_REQ_FORMAT) : list event :=
  [ EvGetFromFreeReqQ rtag;
    EvAllocateTempDataBuf dieNo rbuf;
    EvUpdateTempDataBufEntryInfoBlockingReq rbuf rtag;
    EvSelectLowLevelReqQ rtag rreq;
    EvGetFromFreeReqQ wtag;
    EvAllocateTempDataBuf dieNo wbuf;
    EvUpdateTempDataBufEntryInfoBlockingReq wbuf wtag;
    EvFindFreeVirtualSliceForGc dieNo victimBlockNo dest;
    EvStoreLogicalSlice lsa dest;
    EvStoreVirtualSlice dest lsa;
    EvSelectLowLevelReqQ wtag wreq ].

Definition is_submit `{ReqFormat} (code : Z) (e : event) : bool :=
  match e with
  | EvSelectLowLevelReqQ _ req => reqCode req =? code
  | _ => false
  end.

Definition count_submits `{ReqFormat} (code : Z) (tr : list event) : nat :=
  length (filter (is_submit code) tr).

(** What a finished request slot of the collector holds. *)
Definition gc_request `{ReqFormat} (code lsa entry vsa : Z) : SSD_REQ_FORMAT :=
  mkReq REQ_TYPE_NAND code lsa REQ_OPT_DATA_BUF_TEMP_ENTRY REQ_OPT_NAND_ADDR_VSA
        REQ_OPT_NAND_ECC_ON REQ_OPT_NAND_ECC_WARNING_OFF
        REQ_OPT_ROW_ADDR_DEPENDENCY_CHECK REQ_OPT_BLOCK_SPACE_MAIN entry vsa.

(** The events of a page that was migrated. *)
Definition page_segment `{ReqFormat} (d b : Z) (seg : list event) : Prop :=
  exists lsa vsa rtag rbuf wtag wbuf dest,
    seg = page_events d b lsa rtag rbuf (gc_request REQ_CODE_READ lsa rbuf vsa)
            wtag wbuf dest (gc_request REQ_CODE_WRITE lsa wbuf dest).

(** The two stores into the mapping tables are the last two events before
    the enqueue of the WRITE, and the READ of the same logical slice was
    enqueued earlier. *)
Definition write_follows_updates `{ReqFormat} (seg : list event) : Prop :=
  exists pre lsa dest rtag rreq wtag wreq,
    seg = pre ++ [EvStoreLogicalSlice lsa dest; EvStoreVirtualSlice dest lsa;
                  EvSelectLowLevelReqQ wtag wreq] /\
    In (EvSelectLowLevelReqQ rtag rreq) pre /\
    reqCode rreq = REQ_CODE_READ /\ logicalSliceAddr rreq = lsa /\
    reqCode wreq = REQ_CODE_WRITE /\ logicalSliceAddr wreq = lsa /\
    nandInfo_virtualSliceAddr wreq = dest.

Definition gc_trace (o : outcome gc_machine) : list event :=
  match o with
  | Returned m => trace m
  | _ => []
  end.

(** The double check of the page loop. *)
Definition live_page `{FtlConfig} `{FtlExternals}
    (m : gc_machine) (dieNo victimBlockNo pageNo : Z) : bool :=
  let v := Vorg2VsaTranslation dieNo victimBlockNo pageNo in
  negb (virtualSlice m v =? LSA_NONE) && (logicalSlice m (virtualSlice m v) =? v).

(** The machine when the page loop reaches page [n]. *)
Definition before_page `{FtlConfig} `{ReqFormat} `{FtlExternals}
    (dieNo victimBlockNo : Z) (n : nat) (m : gc_machine) : gc_machine :=
  snd (for_pages n 0 (copy_page dieNo victimBlockNo) m).

(** The ordering the specification states for the mapping updates: the
    two stores are the two events that follow the enqueue of the WRITE. *)
Definition updates_follow_write `{ReqFormat} (tr : list event) : Prop :=
  forall i tag req,
    nth_error tr i = Some (EvSelectLowLevelReqQ tag req) ->
    reqCode req = REQ_CODE_WRITE ->
    nth_error tr (i + 1)
    = Some (EvStoreLogicalSlice (logicalSliceAddr req) (nandInfo_virtualSliceAddr req)) /\
    nth_error tr (i + 2)
    = Some (EvStoreVirtualSlice (nandInfo_virtualSliceAddr req) (logicalSliceAddr req)).

(** ** Concrete configurations and states *)

(** Four pages and four slices per block, eight blocks, one die. *)
Definition cfg4 : FtlConfig :=
  {| USER_DIES := 1; USER_BLOCKS_PER_DIE := 8;
     SLICES_PER_BLOCK := 4; USER_PAGES_PER_BLOCK := 4;
     BLOCK_NONE := 65535; BLOCK_FAIL := 65535; LSA_NONE := 4294967295 |}.

Definition req4 : ReqFormat :=
  {| REQ_TYPE_NAND := 1; REQ_CODE_READ := 8; REQ_CODE_WRITE := 0;
     REQ_OPT_DATA_BUF_TEMP_ENTRY := 1; REQ_OPT_NAND_ADDR_VSA := 0;
     REQ_OPT_NAND_ECC_ON := 1; REQ_OPT_NAND_ECC_WARNING_OFF := 0;
     REQ_OPT_ROW_ADDR_DEPENDENCY_CHECK := 1; REQ_OPT_BLOCK_SPACE_MAIN := 0 |}.

(** Slots and buffers are handed out in turn, destinations from slice 100
    on. *)
Definition ext4 : FtlExternals :=
  {| Vorg2VsaTranslation := fun dieNo blockNo pageNo => blockNo * 4 + pageNo;
     GetFromFreeReqQ_result := fun tr => Z.of_nat (length tr);
     AllocateTempDataBuf_result := fun dieNo tr => Z.of_nat (length tr);
     FindFreeVirtualSliceForGc_result :=
       fun dieNo victimBlockNo tr => 100 + Z.of_nat (length tr) |}.

(** The stores of the host write path into a block entry. *)
Definition set_invalidSliceCnt (dieNo blockNo v : Z) : ftl -> ftl :=
  upd_block dieNo blockNo
    (fun e => mkBlockEntry v (eraseCnt e) (prevBlock e) (nextBlock e)).

Definition set_eraseCnt (dieNo blockNo v : Z) : ftl -> ftl :=
  upd_block dieNo blockNo
    (fun e => mkBlockEntry (invalidSliceCnt e) v (prevBlock e) (nextBlock e)).

Definition st_zero : ftl :=
  mkFtl (fun _ _ => mkBlockEntry 0 0 0 0) (fun _ _ => mkListEntry 0 0) 0 (fun _ _ => 0).

Definition st_boot : ftl := @CostBenefit.InitGcVictimMap cfg4 st_zero.

(** Blocks 0 and 1 with one invalid slice each, put in this order. *)
Definition st_pair : ftl :=
  @Greedy.PutToGcVictimList cfg4 0 1 1
    (@Greedy.PutToGcVictimList cfg4 0 0 1
       (set_invalidSliceCnt 0 1 1 (set_invalidSliceCnt 0 0 1 st_boot))).

(** CAT build: block 0 gets its first invalid slice and is put. *)
Definition st_cat_fresh : ftl :=
  @CAT.PutToGcVictimList cfg4 0 0 1 (set_invalidSliceCnt 0 0 1 st_boot).

(** Cost-Benefit build: block 0, every slice invalid, never erased, is
    put when the tick reaches [2^28 - 1]. *)
Definition st_cb_old : ftl :=
  @CostBenefit.PutToGcVictimList cfg4 0 0 4
    (set_gcActivityTick (2 ^ 28 - 2) (set_invalidSliceCnt 0 0 4 st_boot)).

(** Cost-Benefit build: block 0 in bucket 4 with age 0, block 1 in bucket
    3 with age 100. *)
Definition st_cb_two : ftl :=
  set_gcLastTick 0 1 2 (set_gcLastTick 0 0 102
    (set_gcActivityTick 102
       (@CostBenefit.PutToGcVictimList cfg4 0 1 3
          (@CostBenefit.PutToGcVictimList cfg4 0 0 4
             (set_invalidSliceCnt 0 1 3 (set_invalidSliceCnt 0 0 4 st_boot)))))).

(** CAT build: blocks 0 and 1 in bucket 3, both of age 10, with erase
    counts [w0] and [w1]. *)
Definition st_cat_two (w0 w1 : Z) : ftl :=
  set_gcLastTick 0 1 2 (set_gcLastTick 0 0 2
    (set_gcActivityTick 12
       (@CAT.PutToGcVictimList cfg4 0 1 3
          (@CAT.PutToGcVictimList cfg4 0 0 3
             (set_eraseCnt 0 1 w1 (set_eraseCnt 0 0 w0
                (set_invalidSliceCnt 0 1 3 (set_invalidSliceCnt 0 0 3 st_boot)))))))).

(** The tick at its largest value. *)
Definition st_tick_max : ftl := set_gcActivityTick (2 ^ 32 - 1) st_boot.

(** Block 0 with two invalid slices, never erased, when the tick is at its
    largest value. *)
Definition st_age_max : ftl :=
  set_gcActivityTick (2 ^ 32 - 1)
    (@Greedy.PutToGcVictimList cfg4 0 0 2 (set_invalidSliceCnt 0 0 2 st_boot)).

(** Block 0 with three invalid slices; its page 2 holds logical slice 7. *)
Definition m_mixed : gc_machine :=
  mkMachine
    (@Greedy.PutToGcVictimList cfg4 0 0 3 (set_invalidSliceCnt 0 0 3 st_boot))
    (fun v => if v =? 2 then 7 else 4294967295)
    (fun l => if l =? 7 then 2 else 0)
    (fun _ => mkReq 0 0 0 0 0 0 0 0 0 0 0)
    [].

(** ** Further notions used by the properties *)

(** [ageTicks] of the two scoring functions. *)
Definition age (st : ftl) (dieNo blockNo : Z) : Z :=
  wrap32 (gcActivityTick st - gcLastTick st dieNo blockNo).

(** A victim with every slice invalid: block 0 in bucket 4; its page 1
    still has a live mapping, which the collector does not look at. *)
Definition m_all_invalid : gc_machine :=
  mkMachine
    (@Greedy.PutToGcVictimList cfg4 0 0 4 (set_invalidSliceCnt 0 0 4 st_boot))
    (fun v => if v =? 1 then 9 else 4294967295)
    (fun l => if l =? 9 then 1 else 0)
    (fun _ => mkReq 0 0 0 0 0 0 0 0 0 0 0)
    [].

(** The bucket [0; 1] of [st_pair], and block 2 with its first invalid
    slice, not yet put. *)
Definition st_pair_plus : ftl := set_invalidSliceCnt 0 2 1 st_pair.

(** Cost-Benefit build: the two candidates of [st_cb_two]; page 2 of
    block 1 (slice 6) holds logical slice 7. *)
Definition m_cb_two : gc_machine :=
  mkMachine st_cb_two
    (fun v => if v =? 6 then 7 else 4294967295)
    (fun l => if l =? 7 then 6 else 0)
    (fun _ => mkReq 0 0 0 0 0 0 0 0 0 0 0)
    [].

(** The machine [GarbageCollection] issues the erase on: after the page
    loop, or as the selection left it when the loop is skipped. *)
Definition machine_at_erase `{FtlConfig} `{ReqFormat} `{FtlExternals}
    (dieNo victimBlockNo : Z) (f : ftl) (m : gc_machine) : gc_machine :=
  if negb (invalidSliceCnt (block f dieNo victimBlockNo) =? SLICES_PER_BLOCK)
  then snd (for_pages (Z.to_nat USER_PAGES_PER_BLOCK) 0
              (copy_page dieNo victimBlockNo) (with_ftl f m))
  else with_ftl f m.

(** ** NVMe task loop ([nvme/nvme_main.c])

    [nvme_main] initialises the FTL and then polls the task status for
    ever.  The routines it calls are defined in files that are not part of
    the sources at hand; a call is recorded as an event.  [g_nvmeTask] is
    [volatile] and is written by the interrupt handlers: every comparison
    of the [if]/[else if] chain reads [status] anew, and what it reads, like
    what the called routines answer, is an input of the iteration.  The two
    locals [exeLlr] and [rstCnt] are the state of the function itself. *)

Module Nvme.

(** The constants of the missing [nvme.h], [request_allocation.h] and
    [memory_map.h]. *)
Class NvmeConfig : Type := {
  NVME_TASK_IDLE : Z;
  NVME_TASK_WAIT_CC_EN : Z;
  NVME_TASK_RUNNING : Z;
  NVME_TASK_SHUTDOWN : Z;
  NVME_TASK_WAIT_RESET : Z;
  NVME_TASK_RESET : Z;
  REQ_SLOT_TAG_NONE : Z;
  NVME_STATUS_REG_ADDR : Z;
  RESERVED_DATA_BUFFER_BASE_ADDR : Z
}.

(** The lines [xil_printf] writes, in the order of the file. *)
Inductive message : Type :=
| MsgWaitFtlReset
| MsgFtlResetComplete
| MsgTurnOnHost
| MsgNvmeReady
| MsgNvmeShutdown
| MsgNvmeDisable
| MsgPcieLinkDisable
| MsgWaitOrReconnect
| MsgNvmeReset.

Inductive nvme_event : Type :=
| EvXilPrintf (m : message)
| EvInitFTL
| EvCheckNvmeCcEn (ccEn : Z)
| EvSetNvmeAdminQueue (sqValid cqValid cqIrqEn : Z)
| EvSetNvmeCstsRdy (rdy : Z)
| EvSetNvmeCstsShst (shst : Z)
| EvGetNvmeCmd (cmdValid qID : Z)
| EvHandleNvmeAdminCmd
| EvHandleNvmeIoCmd
| EvReqTransSliceToLowLevel
| EvIoRead32 (addr ccShn : Z)
| EvSetIoCq (args : list Z)
| EvSetIoSq (args : list Z)
| EvPcieAsyncReset (rstCnt : Z)
| EvUpdateBadBlockTableForGrownBadBlock (addr : Z)
| EvCheckDoneNvmeDmaReq
| EvSchedulingNandReq
| EvStoreStatus (status : Z)
| EvStoreCacheEn (cacheEn : Z).

(** What one iteration of the loop reads: [status_read k] is what the
    comparison number [k] of the chain finds in [g_nvmeTask.status];
    [ccEn] is the answer of [check_nvme_cc_en], [cmdValid] and [qID] those
    of [get_nvme_cmd], [ccShn] the field of the status register, and the
    last three are the globals of the closing test as they are when it is
    reached. *)
Record loop_input : Type := mkInput {
  status_read : nat -> Z;
  ccEn : Z;
  cmdValid : Z;
  qID : Z;
  ccShn : Z;
  headReq : Z;
  notCompletedNandReqCnt : Z;
  blockedReqCnt : Z
}.

(** [for (qID = 0; qID < 8; qID++) { set_io_cq(...); set_io_sq(...); }]
    with [n] iterations left. *)
Fixpoint clear_io_queues (n : nat) (qID : Z) : list nvme_event :=
  match n with
  | O => []
  | S n' =>
    EvSetIoCq [qID; 0; 0; 0; 0; 0; 0] :: EvSetIoSq [qID; 0; 0; 0; 0; 0]
    :: clear_io_queues n' (qID + 1)
  end.

(** The closing test of the loop body, without [exeLlr]. *)
Definition pending `{NvmeConfig} (i : loop_input) : bool :=
  negb (headReq i =? REQ_SLOT_TAG_NONE)
  || negb (notCompletedNandReqCnt i =? 0)
  || negb (blockedReqCnt i =? 0).

(** The body of [while (1)]: from [rstCnt] to the new [rstCnt] and the
    events of the iteration. *)
Definition loop_body `{NvmeConfig} (i : loop_input) (rstCnt : Z)
    : Z * list nvme_event :=
  let exeLlr := 1 in
  let '(rstCnt, exeLlr, events) :=
    if status_read i 0 =? NVME_TASK_WAIT_CC_EN then
      (rstCnt, exeLlr,
       EvCheckNvmeCcEn (ccEn i)
       :: (if ccEn i =? 1 then
             [EvSetNvmeAdminQueue 1 1 1; EvSetNvmeCstsRdy 1;
              EvStoreStatus NVME_TASK_RUNNING; EvXilPrintf MsgNvmeReady]
           else []))
    else if status_read i 1 =? NVME_TASK_RUNNING then
      if cmdValid i =? 1 then
        if qID i =? 0 then
          (0, exeLlr, [EvGetNvmeCmd (cmdValid i) (qID i); EvHandleNvmeAdminCmd])
        else
          (0, 0, [EvGetNvmeCmd (cmdValid i) (qID i); EvHandleNvmeIoCmd;
                  EvReqTransSliceToLowLevel])
      else (rstCnt, exeLlr, [EvGetNvmeCmd (cmdValid i) (qID i)])
    else if status_read i 2 =? NVME_TASK_SHUTDOWN then
      (rstCnt, exeLlr,
       EvIoRead32 NVME_STATUS_REG_ADDR (ccShn i)
       :: (if negb (ccShn i =? 0) then
             EvSetNvmeCstsShst 1
             :: clear_io_queues 8 0
             ++ [EvSetNvmeAdminQueue 0 0 0; EvStoreCacheEn 0; EvSetNvmeCstsShst 2;
                 EvStoreStatus NVME_TASK_WAIT_RESET;
                 EvUpdateBadBlockTableForGrownBadBlock RESERVED_DATA_BUFFER_BASE_ADDR;
                 EvXilPrintf MsgNvmeShutdown]
           else []))
    else if status_read i 3 =? NVME_TASK_WAIT_RESET then
      (rstCnt, exeLlr,
       EvCheckNvmeCcEn (ccEn i)
       :: (if ccEn i =? 0 then
             [EvStoreCacheEn 0; EvSetNvmeCstsShst 0; EvSetNvmeCstsRdy 0;
              EvStoreStatus NVME_TASK_IDLE; EvXilPrintf MsgNvmeDisable]
           else []))
    else if status_read i 4 =? NVME_TASK_RESET then
      let '(rstCnt, reset_events) :=
        if 5 <=? rstCnt then
          (0, [EvPcieAsyncReset rstCnt; EvXilPrintf MsgPcieLinkDisable;
               EvXilPrintf MsgWaitOrReconnect])
        else (wrap32 (rstCnt + 1), []) in
      (rstCnt, exeLlr,
       clear_io_queues 8 0 ++ reset_events
       ++ [EvStoreCacheEn 0; EvSetNvmeAdminQueue 0 0 0; EvSetNvmeCstsShst 0;
           EvSetNvmeCstsRdy 0; EvStoreStatus NVME_TASK_IDLE;
           EvXilPrintf MsgNvmeReset])
    else (rstCnt, exeLlr, []) in
  (rstCnt,
   events
   ++ (if negb (exeLlr =? 0) && pending i
       then [EvCheckDoneNvmeDmaReq; EvSchedulingNandReq]
       else [])).

(** The iterations of the loop on the inputs they meet, one after the
    other. *)
Fixpoint loop `{NvmeConfig} (inputs : list loop_input) (rstCnt : Z)
    : Z * list nvme_event :=
  match inputs with
  | [] => (rstCnt, [])
  | i :: rest =>
    let '(rstCnt, events) := loop_body i rstCnt in
    let '(rstCnt, events') := loop rest rstCnt in
    (rstCnt, events ++ events')
  end.

(** [nvme_main] up to the end of the iteration that meets the last of
    [inputs]: the function itself does not return. *)
Definition nvme_main `{NvmeConfig} (inputs : list loop_input)
    : Z * list nvme_event :=
  let rstCnt := 0 in
  let '(rstCnt, events) := loop inputs rstCnt in
  (rstCnt,
   [EvXilPrintf MsgWaitFtlReset; EvInitFTL; EvXilPrintf MsgFtlResetComplete;
    EvXilPrintf MsgTurnOnHost] ++ events).

(** The iteration finds [NVME_TASK_RESET] and none of the states the
    chain asks for before it. *)
Definition in_reset `{NvmeConfig} (i : loop_input) : Prop :=
  status_read i 0 <> NVME_TASK_WAIT_CC_EN /\
  status_read i 1 <> NVME_TASK_RUNNING /\
  status_read i 2 <> NVME_TASK_SHUTDOWN /\
  status_read i 3 <> NVME_TASK_WAIT_RESET /\
  status_read i 4 = NVME_TASK_RESET.

Definition is_pcie_reset (e : nvme_event) : bool :=
  match e with
  | EvPcieAsyncReset _ => true
  | _ => false
  end.

Definition is_scheduling (e : nvme_event) : bool :=
  match e with
  | EvSchedulingNandReq => true
  | _ => false
  end.

Definition is_io_cmd (e : nvme_event) : bool :=
  match e with
  | EvHandleNvmeIoCmd => true
  | _ => false
  end.

(** Values for the constants, for the statements at concrete inputs. *)
Definition nvme_cfg : NvmeConfig :=
  {| NVME_TASK_IDLE := 0; NVME_TASK_WAIT_CC_EN := 1; NVME_TASK_RUNNING := 2;
     NVME_TASK_SHUTDOWN := 3; NVME_TASK_WAIT_RESET := 4; NVME_TASK_RESET := 5;
     REQ_SLOT_TAG_NONE := 65535; NVME_STATUS_REG_ADDR := 0;
     RESERVED_DATA_BUFFER_BASE_ADDR := 0 |}.

(** An iteration that finds the reset state, and one that finds the
    running state with a valid I/O command and requests pending. *)
Definition in_reset_input : loop_input :=
  mkInput (fun _ => 5) 0 0 0 0 65535 0 0.

Definition io_command_input : loop_input :=
  mkInput (fun _ => 2) 0 1 1 0 65535 3 0.

End Nvme.

(** Modelled from the spec: what happens to a block around the index
    during its life.  Besides the three index operations, the write path
    and the erase store into the two count fields of a block; the invalid
    count of a block changes only while the block is in no list (it is
    unlinked first and put again afterwards, and a victim re-enters after
    its erase and a new invalidation). *)
Inductive life_step : Type :=
| IndexOp (op : index_op)
| StoreInvalidSliceCnt (blockNo v : Z)
| StoreEraseCnt (blockNo v : Z).

Definition step_pre `{FtlConfig} (st : ftl) (d : Z) (s : life_step) : Prop :=
  match s with
  | IndexOp op => op_pre st d op
  | StoreInvalidSliceCnt b _ => in_no_list st d b
  | StoreEraseCnt _ _ => True
  end.

Definition run_step `{FtlConfig} (d : Z) (s : life_step) (st : ftl) : ftl :=
  match s with
  | IndexOp op => run_op d op st
  | StoreInvalidSliceCnt b v => set_invalidSliceCnt d b v st
  | StoreEraseCnt b v => set_eraseCnt d b v st
  end.

Fixpoint run_steps `{FtlConfig} (d : Z) (steps : list life_step) (st : ftl) : ftl :=
  match steps with
  | [] => st
  | s :: rest => run_steps d rest (run_step d s st)
  end.

Fixpoint steps_pre `{FtlConfig} (d : Z) (steps : list life_step) (st : ftl) : Prop :=
  match steps with
  | [] => True
  | s :: rest => step_pre st d s /\ steps_pre d rest (run_step d s st)
  end.

(** After block 0 has been popped from the bucket [0; 1]: block 1 takes a
    second invalid slice and moves to bucket 2; block 0 is erased and takes
    a first invalid slice again. *)
Definition life_after_pop : list life_step :=
  [ IndexOp (OpSelectiveGet 1); StoreInvalidSliceCnt 1 2; IndexOp (OpPut 1 2);
    StoreInvalidSliceCnt 0 0; StoreEraseCnt 0 1; StoreInvalidSliceCnt 0 1 ].

(** * Properties *)

(** ** Reading a field after a store *)

Ltac unfold_stores :=
  unfold set_prevBlock, set_nextBlock, set_headBlock, set_tailBlock,
    set_gcActivityTick, set_gcLastTick, upd_block, upd_list, upd2; simpl.

Section Stores.
Context `{FtlConfig}.

Lemma prev_set_prevBlock d b v st x :
  prevBlock (block (set_prevBlock d b v st) d x)
  = if x =? b then v else prevBlock (block st d x).
Proof. unfold_stores. rewrite Z.eqb_refl. simpl. destruct (x =? b); reflexivity. Qed.

Lemma next_set_prevBlock d b v st d' x :
  nextBlock (block (set_prevBlock d b v st) d' x) = nextBlock (block st d' x).
Proof.
  unfold_stores. destruct ((d' =? d) && (x =? b)) eqn:E; [|reflexivity].
  apply andb_true_iff in E as [E1 E2].
  apply Z.eqb_eq in E1, E2. subst. reflexivity.
Qed.

Lemma next_set_nextBlock d b v st x :
  nextBlock (block (set_nextBlock d b v st) d x)
  = if x =? b then v else nextBlock (block st d x).
Proof. unfold_stores. rewrite Z.eqb_refl. simpl. destruct (x =? b); reflexivity. Qed.

Lemma prev_set_nextBlock d b v st d' x :
  prevBlock (block (set_nextBlock d b v st) d' x) = prevBlock (block st d' x).
Proof.
  unfold_stores. destruct ((d' =? d) && (x =? b)) eqn:E; [|reflexivity].
  apply andb_true_iff in E as [E1 E2].
  apply Z.eqb_eq in E1, E2. subst. reflexivity.
Qed.

Lemma cnt_upd_links d b st d' x f :
  (forall e, invalidSliceCnt (f e) = invalidSliceCnt e) ->
  invalidSliceCnt (block (upd_block d b f st) d' x) = invalidSliceCnt (block st d' x).
Proof.
  intros Hf. unfold_stores. destruct ((d' =? d) && (x =? b)) eqn:E; [|reflexivity].
  apply andb_true_iff in E as [E1 E2].
  apply Z.eqb_eq in E1, E2. subst. apply Hf.
Qed.

Lemma cnt_set_prevBlock d b v st d' x :
  invalidSliceCnt (block (set_prevBlock d b v st) d' x) = invalidSliceCnt (block st d' x).
Proof. apply cnt_upd_links. reflexivity. Qed.

Lemma cnt_set_nextBlock d b v st d' x :
  invalidSliceCnt (block (set_nextBlock d b v st) d' x) = invalidSliceCnt (block st d' x).
Proof. apply cnt_upd_links. reflexivity. Qed.

Lemma head_set_headBlock d k v st k' :
  headBlock (gcVictimList (set_headBlock d k v st) d k')
  = if k' =? k then wrap16 v else headBlock (gcVictimList st d k').
Proof. unfold_stores. rewrite Z.eqb_refl. simpl. destruct (k' =? k); reflexivity. Qed.

Lemma tail_set_headBlock d k v st d' k' :
  tailBlock (gcVictimList (set_headBlock d k v st) d' k') = tailBlock (gcVictimList st d' k').
Proof.
  unfold_stores. destruct ((d' =? d) && (k' =? k)) eqn:E; [|reflexivity].
  apply andb_true_iff in E as [E1 E2].
  apply Z.eqb_eq in E1, E2. subst. reflexivity.
Qed.

Lemma tail_set_tailBlock d k v st k' :
  tailBlock (gcVictimList (set_tailBlock d k v st) d k')
  = if k' =? k then wrap16 v else tailBlock (gcVictimList st d k').
Proof. unfold_stores. rewrite Z.eqb_refl. simpl. destruct (k' =? k); reflexivity. Qed.

Lemma head_set_tailBlock d k v st d' k' :
  headBlock (gcVictimList (set_tailBlock d k v st) d' k') = headBlock (gcVictimList st d' k').
Proof.
  unfold_stores. destruct ((d' =? d) && (k' =? k)) eqn:E; [|reflexivity].
  apply andb_true_iff in E as [E1 E2].
  apply Z.eqb_eq in E1, E2. subst. reflexivity.
Qed.

Lemma wrap16_small x : 0 <= x < 2 ^ 16 -> wrap16 x = x.
Proof. intros. unfold wrap16. apply Z.mod_small. assumption. Qed.

Lemma wrap32_small x : 0 <= x < 2 ^ 32 -> wrap32 x = x.
Proof. intros. unfold wrap32. apply Z.mod_small. assumption. Qed.

Lemma wrap64_small x : 0 <= x < 2 ^ 64 -> wrap64 x = x.
Proof. intros. unfold wrap64. apply Z.mod_small. assumption. Qed.

End Stores.

(** ** What each index operation stores *)

Lemma block_set_headBlock d k v st : block (set_headBlock d k v st) = block st.
Proof. reflexivity. Qed.

Lemma block_set_tailBlock d k v st : block (set_tailBlock d k v st) = block st.
Proof. reflexivity. Qed.

Lemma list_set_prevBlock d b v st : gcVictimList (set_prevBlock d b v st) = gcVictimList st.
Proof. reflexivity. Qed.

Lemma list_set_nextBlock d b v st : gcVictimList (set_nextBlock d b v st) = gcVictimList st.
Proof. reflexivity. Qed.

Lemma tick_set_prevBlock d b v st :
  gcActivityTick (set_prevBlock d b v st) = gcActivityTick st.
Proof. reflexivity. Qed.

Lemma tick_set_nextBlock d b v st :
  gcActivityTick (set_nextBlock d b v st) = gcActivityTick st.
Proof. reflexivity. Qed.

Lemma tick_set_headBlock d k v st :
  gcActivityTick (set_headBlock d k v st) = gcActivityTick st.
Proof. reflexivity. Qed.

Lemma tick_set_tailBlock d k v st :
  gcActivityTick (set_tailBlock d k v st) = gcActivityTick st.
Proof. reflexivity. Qed.

#[global] Opaque set_prevBlock set_nextBlock set_headBlock set_tailBlock.

Section Effects.
Context `{FtlConfig}.

Ltac stores :=
  repeat first
    [ rewrite next_set_prevBlock | rewrite prev_set_nextBlock
    | rewrite next_set_nextBlock | rewrite prev_set_prevBlock
    | rewrite cnt_set_prevBlock | rewrite cnt_set_nextBlock
    | rewrite head_set_headBlock | rewrite tail_set_tailBlock
    | rewrite head_set_tailBlock | rewrite tail_set_headBlock ].

Ltac frames :=
  repeat first
    [ rewrite block_set_headBlock | rewrite block_set_tailBlock
    | rewrite list_set_prevBlock | rewrite list_set_nextBlock ].

(** [SelectiveGetFromGcVictimList]: the predecessor's [nextBlock] (or the
    head of the bucket) takes the block's [nextBlock], the successor's
    [prevBlock] (or the tail) takes the block's [prevBlock]. *)
Lemma Selective_next d b st x :
  nextBlock (block (SelectiveGetFromGcVictimList d b st) d x)
  = if (x =? prevBlock (block st d b)) && negb (prevBlock (block st d b) =? BLOCK_NONE)
    then nextBlock (block st d b) else nextBlock (block st d x).
Proof.
  unfold SelectiveGetFromGcVictimList.
  destruct (Z.eqb_spec (nextBlock (block st d b)) BLOCK_NONE) as [En|En];
  destruct (Z.eqb_spec (prevBlock (block st d b)) BLOCK_NONE) as [Ep|Ep];
    simpl; frames; stores; rewrite ?andb_false_r, ?andb_true_r; try reflexivity.
  rewrite En. reflexivity.
Qed.

Lemma Selective_prev d b st x :
  prevBlock (block (SelectiveGetFromGcVictimList d b st) d x)
  = if (x =? nextBlock (block st d b)) && negb (nextBlock (block st d b) =? BLOCK_NONE)
    then prevBlock (block st d b) else prevBlock (block st d x).
Proof.
  unfold SelectiveGetFromGcVictimList.
  destruct (Z.eqb_spec (nextBlock (block st d b)) BLOCK_NONE) as [En|En];
  destruct (Z.eqb_spec (prevBlock (block st d b)) BLOCK_NONE) as [Ep|Ep];
    simpl; frames; stores; rewrite ?andb_false_r, ?andb_true_r; try reflexivity.
  rewrite Ep. reflexivity.
Qed.

Lemma Selective_cnt d b st d' x :
  invalidSliceCnt (block (SelectiveGetFromGcVictimList d b st) d' x)
  = invalidSliceCnt (block st d' x).
Proof.
  unfold SelectiveGetFromGcVictimList.
  destruct (negb _ && negb _); [|destruct (_ && negb _); [|destruct (negb _ && _)]];
    frames; stores; reflexivity.
Qed.

Lemma Selective_head d b st k :
  headBlock (gcVictimList (SelectiveGetFromGcVictimList d b st) d k)
  = if (k =? invalidSliceCnt (block st d b)) && (prevBlock (block st d b) =? BLOCK_NONE)
    then wrap16 (nextBlock (block st d b)) else headBlock (gcVictimList st d k).
Proof.
  unfold SelectiveGetFromGcVictimList.
  destruct (Z.eqb_spec (nextBlock (block st d b)) BLOCK_NONE) as [En|En];
  destruct (Z.eqb_spec (prevBlock (block st d b)) BLOCK_NONE) as [Ep|Ep];
    simpl; frames; stores; rewrite ?andb_false_r, ?andb_true_r; try reflexivity.
  rewrite En. reflexivity.
Qed.

Lemma Selective_tail d b st k :
  tailBlock (gcVictimList (SelectiveGetFromGcVictimList d b st) d k)
  = if (k =? invalidSliceCnt (block st d b)) && (nextBlock (block st d b) =? BLOCK_NONE)
    then wrap16 (prevBlock (block st d b)) else tailBlock (gcVictimList st d k).
Proof.
  unfold SelectiveGetFromGcVictimList.
  destruct (Z.eqb_spec (nextBlock (block st d b)) BLOCK_NONE) as [En|En];
  destruct (Z.eqb_spec (prevBlock (block st d b)) BLOCK_NONE) as [Ep|Ep];
    simpl; frames; stores; rewrite ?andb_false_r, ?andb_true_r; try reflexivity.
  rewrite Ep. reflexivity.
Qed.

(** [PutToGcVictimList] (the list insertion of the three files). *)
Lemma Put_next d b c st x :
  b <> tailBlock (gcVictimList st d c) ->
  nextBlock (block (Greedy.PutToGcVictimList d b c st) d x)
  = if x =? b then BLOCK_NONE
    else if (x =? tailBlock (gcVictimList st d c))
            && negb (tailBlock (gcVictimList st d c) =? BLOCK_NONE)
         then b else nextBlock (block st d x).
Proof.
  intros Hbt. unfold Greedy.PutToGcVictimList.
  destruct (Z.eqb_spec (tailBlock (gcVictimList st d c)) BLOCK_NONE) as [Et|Et];
    simpl; frames; stores; rewrite ?andb_false_r, ?andb_true_r.
  - destruct (x =? b); reflexivity.
  - destruct (Z.eqb_spec x (tailBlock (gcVictimList st d c))) as [E|E].
    + subst x. destruct (Z.eqb_spec (tailBlock (gcVictimList st d c)) b); congruence.
    + reflexivity.
Qed.

Lemma Put_prev d b c st x :
  prevBlock (block (Greedy.PutToGcVictimList d b c st) d x)
  = if x =? b then tailBlock (gcVictimList st d c) else prevBlock (block st d x).
Proof.
  unfold Greedy.PutToGcVictimList.
  destruct (Z.eqb_spec (tailBlock (gcVictimList st d c)) BLOCK_NONE) as [Et|Et];
    simpl; frames; stores; try reflexivity.
  rewrite Et. reflexivity.
Qed.

Lemma Put_cnt d b c st d' x :
  invalidSliceCnt (block (Greedy.PutToGcVictimList d b c st) d' x)
  = invalidSliceCnt (block st d' x).
Proof.
  unfold Greedy.PutToGcVictimList.
  destruct (negb _); frames; stores; reflexivity.
Qed.

Lemma Put_head d b c st k :
  headBlock (gcVictimList (Greedy.PutToGcVictimList d b c st) d k)
  = if (k =? c) && (tailBlock (gcVictimList st d c) =? BLOCK_NONE)
    then wrap16 b else headBlock (gcVictimList st d k).
Proof.
  unfold Greedy.PutToGcVictimList.
  destruct (Z.eqb_spec (tailBlock (gcVictimList st d c)) BLOCK_NONE) as [Et|Et];
    simpl; frames; stores; rewrite ?andb_false_r, ?andb_true_r; reflexivity.
Qed.

Lemma Put_tail d b c st k :
  tailBlock (gcVictimList (Greedy.PutToGcVictimList d b c st) d k)
  = if k =? c then wrap16 b else tailBlock (gcVictimList st d k).
Proof.
  unfold Greedy.PutToGcVictimList.
  destruct (Z.eqb_spec (tailBlock (gcVictimList st d c)) BLOCK_NONE) as [Et|Et];
    simpl; frames; stores; reflexivity.
Qed.

End Effects.

(** ** Linked runs of blocks *)

Section Runs.
Context `{FtlConfig}.
Hypothesis Hcfg : config_ok.

Lemma valid_not_none x : valid_block x -> x <> BLOCK_NONE.
Proof. unfold valid_block, config_ok in *. lia. Qed.

Lemma valid_not_fail x : valid_block x -> x <> BLOCK_FAIL.
Proof. unfold valid_block, config_ok in *. lia. Qed.

Lemma valid_wrap16 x : valid_block x -> wrap16 x = x.
Proof. intros Hx. apply wrap16_small. unfold valid_block, config_ok in *. lia. Qed.

Lemma none_wrap16 : wrap16 BLOCK_NONE = BLOCK_NONE.
Proof. apply wrap16_small. unfold config_ok in *. lia. Qed.

Lemma last_cons (x : Z) l p : last (x :: l) p = last l x.
Proof.
  revert x p. induction l as [|y l IH]; intros x p; [reflexivity|].
  change (last (x :: y :: l) p) with (last (y :: l) p).
  rewrite (IH y p), (IH y x). reflexivity.
Qed.

Lemma last_in (l : list Z) p : l <> [] -> In (last l p) l.
Proof.
  induction l as [|x l IH]; [congruence|]. intros _.
  destruct l as [|y l]; [left; reflexivity|].
  right. apply IH. discriminate.
Qed.

Lemma last_nonempty_default (l : list Z) p q : l <> [] -> last l p = last l q.
Proof.
  induction l as [|x l IH]; [congruence|]. intros _.
  destruct l as [|y l]; [reflexivity|]. apply IH. discriminate.
Qed.

Lemma hd_app_default (l1 l2 : list Z) n : hd n (l1 ++ l2) = hd (hd n l2) l1.
Proof. destruct l1; reflexivity. Qed.

Lemma last_app_default (l1 l2 : list Z) p : last (l1 ++ l2) p = last l2 (last l1 p).
Proof.
  revert p. induction l1 as [|x l1 IH]; intros p; [reflexivity|].
  rewrite <- app_comm_cons, !last_cons. apply IH.
Qed.

Lemma dllseg_valid st d p l n : dllseg st d p l n -> Forall valid_block l.
Proof.
  revert p. induction l as [|x l IH]; intros p Hl; constructor.
  - apply Hl.
  - apply (IH x). apply Hl.
Qed.

Lemma dllseg_app st d p l1 l2 n :
  dllseg st d p (l1 ++ l2) n <->
  dllseg st d p l1 (hd n l2) /\ dllseg st d (last l1 p) l2 n.
Proof.
  revert p. induction l1 as [|x l1 IH]; intros p.
  - simpl. tauto.
  - rewrite <- app_comm_cons, last_cons. simpl.
    rewrite hd_app_default, IH. tauto.
Qed.

Lemma dllseg_ext st st' d p l n :
  (forall x, In x l ->
     prevBlock (block st' d x) = prevBlock (block st d x) /\
     nextBlock (block st' d x) = nextBlock (block st d x)) ->
  dllseg st d p l n -> dllseg st' d p l n.
Proof.
  revert p. induction l as [|x l IH]; intros p Hsame Hl; [exact I|].
  destruct Hl as (Hv & Hp & Hn & Hr).
  destruct (Hsame x (or_introl eq_refl)) as [Ep En].
  simpl. rewrite Ep, En.
  split; [assumption|]. split; [assumption|]. split; [assumption|].
  apply IH; [|assumption]. intros y Hy. apply Hsame. right. assumption.
Qed.

(** The last block's [nextBlock] is redirected. *)
Lemma dllseg_set_end st st' d p l n n' q :
  NoDup l ->
  (forall x, In x l -> prevBlock (block st' d x) = prevBlock (block st d x)) ->
  (forall x, In x l -> x <> last l q ->
     nextBlock (block st' d x) = nextBlock (block st d x)) ->
  (l <> [] -> nextBlock (block st' d (last l q)) = n') ->
  dllseg st d p l n -> dllseg st' d p l n'.
Proof.
  revert p. induction l as [|x l IH]; intros p Hnd Hprev Hnext Hlast Hl; [exact I|].
  destruct Hl as (Hv & Hp & Hn & Hr).
  apply NoDup_cons_iff in Hnd as [Hnotin Hnd'].
  simpl. split; [assumption|]. split; [rewrite Hprev; [assumption|left; reflexivity]|].
  destruct l as [|y l].
  - split; [|exact I]. apply Hlast. discriminate.
  - split.
    + rewrite Hnext; [assumption|left; reflexivity|].
      intros E. apply Hnotin. rewrite E. rewrite last_cons.
      rewrite (last_nonempty_default _ x q) by discriminate.
      apply last_in. discriminate.
    + apply IH; try assumption.
      * intros z Hz. apply Hprev. right. assumption.
      * intros z Hz Hne. apply Hnext; [right; assumption|].
        rewrite last_cons. rewrite (last_nonempty_default _ x q) by discriminate.
        assumption.
      * intros _. specialize (Hlast ltac:(discriminate)).
        rewrite last_cons in Hlast.
        rewrite (last_nonempty_default _ x q) in Hlast by discriminate.
        assumption.
Qed.

(** The first block's [prevBlock] is redirected. *)
Lemma dllseg_set_start st st' d p p' l n q :
  NoDup l ->
  (forall x, In x l -> nextBlock (block st' d x) = nextBlock (block st d x)) ->
  (forall x, In x l -> x <> hd q l ->
     prevBlock (block st' d x) = prevBlock (block st d x)) ->
  (l <> [] -> prevBlock (block st' d (hd q l)) = p') ->
  dllseg st d p l n -> dllseg st' d p' l n.
Proof.
  intros Hnd Hnext Hprev Hhd Hl.
  destruct l as [|x l]; [exact I|].
  destruct Hl as (Hv & Hp & Hn & Hr).
  apply NoDup_cons_iff in Hnd as [Hnotin Hnd'].
  simpl in *. split; [assumption|]. split; [apply Hhd; discriminate|].
  split; [rewrite Hnext; [assumption|left; reflexivity]|].
  apply (dllseg_ext st); [|assumption].
  intros y Hy. split.
  - apply Hprev; [right; assumption|]. intros E. subst. contradiction.
  - apply Hnext. right. assumption.
Qed.

(** Following [nextBlock] from a block fixes the rest of the run. *)
Lemma dllseg_rest_unique st d x r : forall p p' r',
  dllseg st d p (x :: r) BLOCK_NONE ->
  dllseg st d p' (x :: r') BLOCK_NONE ->
  r = r'.
Proof.
  revert x. induction r as [|y r IH]; intros x p p' r' H1 H2.
  - destruct r' as [|y' r']; [reflexivity|].
    destruct H1 as (_ & _ & Hn1 & _). destruct H2 as (_ & _ & Hn2 & Hr2).
    simpl in Hn1, Hn2. exfalso.
    apply (valid_not_none y'); [apply Hr2|congruence].
  - destruct H1 as (_ & _ & Hn1 & Hr1). destruct H2 as (_ & _ & Hn2 & Hr2).
    simpl in Hn1. destruct r' as [|y' r'].
    + simpl in Hn2. exfalso.
      apply (valid_not_none y); [apply Hr1|congruence].
    + simpl in Hn2. assert (Ey : y' = y) by congruence. rewrite Ey in *.
      f_equal. apply (IH y x x r'); assumption.
Qed.

Lemma dllseg_NoDup st d p l : dllseg st d p l BLOCK_NONE -> NoDup l.
Proof.
  revert p. induction l as [|x l IH]; intros p Hl; constructor.
  - intros Hin. apply in_split in Hin as (l1 & l2 & E).
    pose proof Hl as (_ & _ & _ & Hr).
    rewrite E in Hr. apply dllseg_app in Hr as [_ Hr].
    assert (El : l = l2).
    { apply (dllseg_rest_unique st d x l p (last l1 x)); [exact Hl|exact Hr]. }
    apply (f_equal (@length Z)) in E. rewrite El in E at 1.
    rewrite length_app in E. simpl in E. lia.
  - apply (IH x). apply Hl.
Qed.

Lemma bucket_repr_unique st d k l1 l2 :
  bucket_repr st d k l1 -> bucket_repr st d k l2 -> l1 = l2.
Proof.
  intros (Hh1 & _ & Hl1 & _) (Hh2 & _ & Hl2 & _).
  destruct l1 as [|x r], l2 as [|x' r']; [reflexivity| | |].
  - simpl in *. exfalso. apply (valid_not_none x'); [apply Hl2|congruence].
  - simpl in *. exfalso. apply (valid_not_none x); [apply Hl1|congruence].
  - simpl in Hh1, Hh2. assert (Ex : x' = x) by congruence. rewrite Ex in *.
    f_equal. apply (dllseg_rest_unique st d x r BLOCK_NONE BLOCK_NONE); assumption.
Qed.

Lemma bucket_repr_NoDup st d k l : bucket_repr st d k l -> NoDup l.
Proof. intros (_ & _ & Hl & _). apply (dllseg_NoDup st d BLOCK_NONE). assumption. Qed.

Lemma bucket_repr_valid st d k l x : bucket_repr st d k l -> In x l -> valid_block x.
Proof.
  intros (_ & _ & Hl & _) Hin. apply dllseg_valid in Hl.
  rewrite Forall_forall in Hl. apply Hl. assumption.
Qed.

Lemma bucket_repr_cnt st d k l x :
  bucket_repr st d k l -> In x l -> invalidSliceCnt (block st d x) = k.
Proof.
  intros (_ & _ & _ & Hc) Hin. rewrite Forall_forall in Hc. apply Hc. assumption.
Qed.

(** A bucket whose blocks, head and tail are left alone holds the same
    list. *)
Lemma bucket_repr_frame st st' d k l :
  (forall x, In x l ->
     prevBlock (block st' d x) = prevBlock (block st d x) /\
     nextBlock (block st' d x) = nextBlock (block st d x) /\
     invalidSliceCnt (block st' d x) = invalidSliceCnt (block st d x)) ->
  headBlock (gcVictimList st' d k) = headBlock (gcVictimList st d k) ->
  tailBlock (gcVictimList st' d k) = tailBlock (gcVictimList st d k) ->
  bucket_repr st d k l -> bucket_repr st' d k l.
Proof.
  intros Hsame Hh Ht (Hh0 & Ht0 & Hl & Hc).
  unfold bucket_repr. rewrite Hh, Ht.
  split; [assumption|]. split; [assumption|]. split.
  - apply (dllseg_ext st); [|assumption]. intros x Hx.
    destruct (Hsame x Hx) as (? & ? & ?). split; assumption.
  - rewrite Forall_forall in *. intros x Hx.
    destruct (Hsame x Hx) as (_ & _ & E). rewrite E. apply Hc. assumption.
Qed.

End Runs.

(** ** The index operations on the bucket lists *)

Section IndexOps.
Context `{FtlConfig}.
Hypothesis Hcfg : config_ok.

(** Exclusive membership: the invalid count of a member names its bucket. *)
Lemma in_bucket_exclusive st d k1 k2 x :
  in_bucket st d k1 x -> in_bucket st d k2 x -> k1 = k2.
Proof.
  intros (l1 & H1 & Hin1) (l2 & H2 & Hin2).
  rewrite <- (bucket_repr_cnt st d k1 l1 x H1 Hin1).
  apply (bucket_repr_cnt st d k2 l2 x H2 Hin2).
Qed.

Lemma bucket_repr_tail_cases st d k l :
  bucket_repr st d k l ->
  (l = [] /\ tailBlock (gcVictimList st d k) = BLOCK_NONE) \/
  (l <> [] /\ In (tailBlock (gcVictimList st d k)) l
   /\ tailBlock (gcVictimList st d k) <> BLOCK_NONE).
Proof.
  intros Hr. pose proof Hr as (_ & Ht & _ & _).
  destruct l as [|x l]; [left; split; [reflexivity|assumption]|right].
  assert (Hin : In (tailBlock (gcVictimList st d k)) (x :: l)).
  { rewrite Ht. apply last_in. discriminate. }
  split; [discriminate|]. split; [assumption|].
  apply (valid_not_none Hcfg). apply (bucket_repr_valid st d k (x :: l)); assumption.
Qed.

Lemma bucket_repr_head_cases st d k l :
  bucket_repr st d k l ->
  (l = [] /\ headBlock (gcVictimList st d k) = BLOCK_NONE) \/
  (exists x r, l = x :: r /\ headBlock (gcVictimList st d k) = x /\ x <> BLOCK_NONE).
Proof.
  intros Hr. pose proof Hr as (Hh & _ & _ & _).
  destruct l as [|x l]; [left; split; [reflexivity|assumption]|right].
  exists x, l. split; [reflexivity|]. split; [assumption|].
  apply (valid_not_none Hcfg). apply (bucket_repr_valid st d k (x :: l)); [assumption|].
  left; reflexivity.
Qed.

(** *** PutToGcVictimList *)

Lemma Put_bucket_same st d b c l :
  bucket_repr st d c l -> ~ In b l -> valid_block b ->
  invalidSliceCnt (block st d b) = c ->
  bucket_repr (Greedy.PutToGcVictimList d b c st) d c (l ++ [b]).
Proof.
  intros Hr Hnin Hvb Hcb.
  pose proof (bucket_repr_NoDup Hcfg _ _ _ _ Hr) as Hnd.
  pose proof (bucket_repr_tail_cases _ _ _ _ Hr) as Hcases.
  pose proof Hr as (Hh & Ht & Hl & Hc).
  assert (Hbt : b <> tailBlock (gcVictimList st d c)).
  { destruct Hcases as [[_ E]|(_ & Hin & _)].
    - rewrite E. apply (valid_not_none Hcfg). assumption.
    - intros E. apply Hnin. rewrite E. assumption. }
  unfold bucket_repr. split; [|split; [|split]].
  - rewrite Put_head, Z.eqb_refl, hd_app_default. simpl.
    destruct Hcases as [[E1 E2]|(Hne & _ & Hnn)].
    + rewrite E2, Z.eqb_refl, E1. simpl. apply (valid_wrap16 Hcfg). assumption.
    + destruct (Z.eqb_spec (tailBlock (gcVictimList st d c)) BLOCK_NONE); [contradiction|].
      rewrite Hh. destruct l; [congruence|reflexivity].
  - rewrite Put_tail, Z.eqb_refl, last_last. apply (valid_wrap16 Hcfg). assumption.
  - apply dllseg_app. split.
    + simpl hd. apply (dllseg_set_end st _ d BLOCK_NONE l BLOCK_NONE b BLOCK_NONE);
        try assumption.
      * intros x Hx. rewrite Put_prev.
        destruct (Z.eqb_spec x b); [subst; contradiction|reflexivity].
      * intros x Hx Hxl. rewrite Put_next by assumption.
        destruct (Z.eqb_spec x b); [subst; contradiction|].
        rewrite Ht. destruct (Z.eqb_spec x (last l BLOCK_NONE)); [contradiction|reflexivity].
      * intros Hne. rewrite Put_next by assumption. rewrite <- Ht.
        destruct (Z.eqb_spec (tailBlock (gcVictimList st d c)) b); [congruence|].
        rewrite Z.eqb_refl.
        destruct Hcases as [[E _]|(_ & _ & Hnn)]; [contradiction|].
        destruct (Z.eqb_spec (tailBlock (gcVictimList st d c)) BLOCK_NONE);
          [contradiction|reflexivity].
    + simpl. split; [assumption|]. rewrite Put_prev, Z.eqb_refl.
      split; [assumption|]. rewrite Put_next by assumption. rewrite Z.eqb_refl.
      split; [reflexivity|exact I].
  - apply Forall_app. split.
    + rewrite Forall_forall in *. intros x Hx. rewrite Put_cnt. apply Hc. assumption.
    + constructor; [|constructor]. rewrite Put_cnt. assumption.
Qed.

Lemma Put_bucket_other st d b c k l lc :
  bucket_repr st d c lc -> ~ In b lc ->
  valid_block b -> k <> c -> bucket_repr st d k l -> ~ In b l ->
  bucket_repr (Greedy.PutToGcVictimList d b c st) d k l.
Proof.
  intros Hrc Hninc Hvb Hkc Hr Hnin.
  pose proof (bucket_repr_tail_cases _ _ _ _ Hrc) as Hcases.
  assert (Hbt : b <> tailBlock (gcVictimList st d c)).
  { destruct Hcases as [[_ E]|(_ & Hin & _)].
    - rewrite E. apply (valid_not_none Hcfg). assumption.
    - intros E. apply Hninc. rewrite E. assumption. }
  apply (bucket_repr_frame st); [| | |assumption].
  - intros x Hx.
    assert (Hxb : x <> b) by (intros E; subst; contradiction).
    rewrite Put_prev, Put_next, Put_cnt by assumption.
    destruct (Z.eqb_spec x b); [contradiction|].
    split; [reflexivity|]. split; [|reflexivity].
    destruct (Z.eqb_spec x (tailBlock (gcVictimList st d c))) as [E|E]; [|reflexivity].
    destruct Hcases as [[_ E2]|(_ & Hin & _)].
    + rewrite E2, Z.eqb_refl. reflexivity.
    + exfalso. apply Hkc. apply (in_bucket_exclusive st d k c x).
      * exists l. split; assumption.
      * exists lc. split; [assumption|]. rewrite E. assumption.
  - rewrite Put_head. destruct (Z.eqb_spec k c); [contradiction|reflexivity].
  - rewrite Put_tail. destruct (Z.eqb_spec k c); [contradiction|reflexivity].
Qed.

Lemma Put_wf st d b c :
  wf_index st d -> valid_block b -> 0 <= c <= SLICES_PER_BLOCK ->
  invalidSliceCnt (block st d b) = c -> in_no_list st d b ->
  wf_index (Greedy.PutToGcVictimList d b c st) d.
Proof.
  intros Hwf Hvb Hc Hcb Hno k Hk.
  destruct (Hwf c Hc) as [lc Hrc].
  assert (Hninc : ~ In b lc).
  { intros Hin. apply (Hno c Hc). exists lc. split; assumption. }
  destruct (Z.eq_dec k c) as [E|E].
  - subst k. exists (lc ++ [b]). apply Put_bucket_same; assumption.
  - destruct (Hwf k Hk) as [l Hr]. exists l.
    apply (Put_bucket_other st d b c k l lc); try assumption.
    intros Hin. apply (Hno k Hk). exists l. split; assumption.
Qed.

(** *** SelectiveGetFromGcVictimList *)

Lemma member_links st d k l1 b l2 :
  bucket_repr st d k (l1 ++ b :: l2) ->
  prevBlock (block st d b) = last l1 BLOCK_NONE /\
  nextBlock (block st d b) = hd BLOCK_NONE l2 /\
  invalidSliceCnt (block st d b) = k /\
  valid_block b.
Proof.
  intros Hr. pose proof Hr as (_ & _ & Hl & Hc).
  apply dllseg_app in Hl as [_ (Hv & Hp & Hn & _)].
  split; [assumption|]. split; [assumption|]. split; [|assumption].
  apply (bucket_repr_cnt st d k _ b Hr). apply in_elt.
Qed.

Lemma NoDup_middle (l1 l2 : list Z) b :
  NoDup (l1 ++ b :: l2) ->
  NoDup l1 /\ NoDup l2 /\ ~ In b l1 /\ ~ In b l2 /\
  (forall x, In x l1 -> ~ In x l2).
Proof.
  intros Hnd. pose proof (NoDup_remove_1 _ _ _ Hnd) as Hnd12.
  pose proof (NoDup_remove_2 _ _ _ Hnd) as Hb.
  split; [apply (NoDup_app_remove_r _ _ Hnd12)|].
  split; [apply (NoDup_app_remove_l _ _ Hnd12)|].
  split; [intros Hin; apply Hb; apply in_or_app; left; assumption|].
  split; [intros Hin; apply Hb; apply in_or_app; right; assumption|].
  intros x Hx1 Hx2. revert Hnd12 Hx1 Hx2. clear.
  induction l1 as [|y l1 IH]; intros Hnd Hx1 Hx2; [contradiction|].
  simpl in Hnd. apply NoDup_cons_iff in Hnd as [Hy Hnd].
  destruct Hx1 as [E|Hx1].
  - subst y. apply Hy. apply in_or_app. right. assumption.
  - apply IH; assumption.
Qed.

Lemma Selective_bucket_same st d k l1 b l2 :
  bucket_repr st d k (l1 ++ b :: l2) ->
  bucket_repr (SelectiveGetFromGcVictimList d b st) d k (l1 ++ l2).
Proof.
  intros Hr.
  pose proof (bucket_repr_NoDup Hcfg _ _ _ _ Hr) as Hnd.
  apply NoDup_middle in Hnd as (Hnd1 & Hnd2 & Hb1 & Hb2 & Hdisj).
  pose proof (member_links _ _ _ _ _ _ Hr) as (Hpv & Hnx & Hcnt & Hvb).
  pose proof Hr as (Hh & Ht & Hl & Hc).
  pose proof (dllseg_valid _ _ _ _ _ Hl) as Hval. rewrite Forall_forall in Hval.
  assert (Hv1 : forall x, In x l1 -> x <> BLOCK_NONE).
  { intros x Hx. apply (valid_not_none Hcfg). apply Hval. apply in_or_app. left. assumption. }
  assert (Hv2 : forall x, In x l2 -> x <> BLOCK_NONE).
  { intros x Hx. apply (valid_not_none Hcfg). apply Hval. apply in_or_app.
    right. right. assumption. }
  apply dllseg_app in Hl as [Hl1 (_ & _ & _ & Hl2)]. simpl hd in Hl1.
  unfold bucket_repr. split; [|split; [|split]].
  - rewrite Selective_head, Hcnt, Z.eqb_refl, Hpv, Hnx, hd_app_default. simpl.
    destruct l1 as [|y l1].
    + simpl. rewrite Z.eqb_refl. destruct l2 as [|z l2]; simpl.
      * apply (none_wrap16 Hcfg).
      * apply (valid_wrap16 Hcfg). apply Hval. right. left. reflexivity.
    + destruct (Z.eqb_spec (last (y :: l1) BLOCK_NONE) BLOCK_NONE) as [E|E].
      * exfalso. apply (Hv1 _ (last_in (y :: l1) BLOCK_NONE ltac:(discriminate))).
        assumption.
      * rewrite Hh. reflexivity.
  - rewrite Selective_tail, Hcnt, Z.eqb_refl, Hpv, Hnx, last_app_default. simpl.
    destruct l2 as [|z l2].
    + simpl. rewrite Z.eqb_refl. destruct l1 as [|y l1].
      * apply (none_wrap16 Hcfg).
      * apply (valid_wrap16 Hcfg). apply Hval. apply in_or_app. left.
        apply last_in. discriminate.
    + simpl hd. destruct (Z.eqb_spec z BLOCK_NONE) as [E|E].
      * exfalso. apply (Hv2 z); [left; reflexivity|assumption].
      * rewrite Ht, last_app_default, last_cons.
        apply last_nonempty_default. discriminate.
  - apply dllseg_app. split.
    + apply (dllseg_set_end st _ d BLOCK_NONE l1 b (hd BLOCK_NONE l2) BLOCK_NONE);
        try assumption.
      * intros x Hx. rewrite Selective_prev, Hnx.
        destruct (Z.eqb_spec x (hd BLOCK_NONE l2)) as [E|E]; [|reflexivity].
        destruct l2 as [|z l2]; simpl in *.
        -- exfalso. apply (Hv1 x); assumption.
        -- exfalso. apply (Hdisj x Hx). left. congruence.
      * intros x Hx Hxl. rewrite Selective_next, Hpv.
        destruct (Z.eqb_spec x (last l1 BLOCK_NONE)); [contradiction|reflexivity].
      * intros Hne. rewrite Selective_next, Hpv, Z.eqb_refl.
        destruct (Z.eqb_spec (last l1 BLOCK_NONE) BLOCK_NONE) as [E|E]; [|assumption].
        exfalso. apply (Hv1 _ (last_in l1 BLOCK_NONE Hne)). assumption.
    + apply (dllseg_set_start st _ d b (last l1 BLOCK_NONE) l2 BLOCK_NONE BLOCK_NONE);
        try assumption.
      * intros x Hx. rewrite Selective_next, Hpv.
        destruct (Z.eqb_spec x (last l1 BLOCK_NONE)) as [E|E]; [|reflexivity].
        destruct l1 as [|y l1].
        -- simpl in E. exfalso. apply (Hv2 x); assumption.
        -- exfalso. apply (Hdisj x); [|assumption].
           rewrite E. apply last_in. discriminate.
      * intros x Hx Hxh. rewrite Selective_prev, Hnx.
        destruct (Z.eqb_spec x (hd BLOCK_NONE l2)); [contradiction|reflexivity].
      * intros Hne. rewrite Selective_prev, Hnx, Z.eqb_refl.
        destruct l2 as [|z l2]; [congruence|]. simpl.
        destruct (Z.eqb_spec z BLOCK_NONE) as [E|E]; [|assumption].
        exfalso. apply (Hv2 z); [left; reflexivity|assumption].
  - rewrite Forall_forall in *. intros x Hx. rewrite Selective_cnt. apply Hc.
    apply in_app_or in Hx as [Hx|Hx]; apply in_or_app; [left|right; right]; assumption.
Qed.

Lemma Selective_bucket_other st d k l1 b l2 k' l' :
  bucket_repr st d k (l1 ++ b :: l2) -> k' <> k ->
  bucket_repr st d k' l' ->
  bucket_repr (SelectiveGetFromGcVictimList d b st) d k' l'.
Proof.
  intros Hr Hk Hr'.
  pose proof (member_links _ _ _ _ _ _ Hr) as (Hpv & Hnx & Hcnt & Hvb).
  assert (Hother : forall x y, In x l' -> In y (l1 ++ b :: l2) -> x <> y).
  { intros x y Hx Hy E. subst y. apply Hk. apply (in_bucket_exclusive st d k' k x).
    - exists l'. split; assumption.
    - exists (l1 ++ b :: l2). split; assumption. }
  apply (bucket_repr_frame st); [| | |assumption].
  - intros x Hx. rewrite Selective_prev, Selective_next, Selective_cnt, Hpv, Hnx.
    split; [|split; [|reflexivity]].
    + destruct (Z.eqb_spec x (hd BLOCK_NONE l2)) as [E|E]; [|reflexivity].
      destruct l2 as [|z l2]; simpl in *.
      * rewrite Z.eqb_refl. reflexivity.
      * exfalso. apply (Hother x z Hx); [|assumption].
        apply in_or_app. right. right. left. reflexivity.
    + destruct (Z.eqb_spec x (last l1 BLOCK_NONE)) as [E|E]; [|reflexivity].
      destruct l1 as [|y l1].
      * simpl. rewrite Z.eqb_refl. reflexivity.
      * exfalso. apply (Hother x (last (y :: l1) BLOCK_NONE) Hx); [|assumption].
        apply in_or_app. left. apply last_in. discriminate.
  - rewrite Selective_head, Hcnt.
    destruct (Z.eqb_spec k' k); [contradiction|reflexivity].
  - rewrite Selective_tail, Hcnt.
    destruct (Z.eqb_spec k' k); [contradiction|reflexivity].
Qed.

Lemma Selective_wf st d k b :
  wf_index st d -> 0 <= k <= SLICES_PER_BLOCK -> in_bucket st d k b ->
  wf_index (SelectiveGetFromGcVictimList d b st) d.
Proof.
  intros Hwf Hk (l & Hr & Hin) k' Hk'.
  apply in_split in Hin as (l1 & l2 & E). subst l.
  destruct (Z.eq_dec k' k) as [E|E].
  - subst k'. exists (l1 ++ l2). apply Selective_bucket_same. assumption.
  - destruct (Hwf k' Hk') as [l' Hr']. exists l'.
    apply (Selective_bucket_other st d k l1 b l2); assumption.
Qed.

Lemma Selective_in_no_list st d k b :
  wf_index st d -> 0 <= k <= SLICES_PER_BLOCK -> in_bucket st d k b ->
  in_no_list (SelectiveGetFromGcVictimList d b st) d b.
Proof.
  intros Hwf Hk (l & Hr & Hin) k' Hk' (l' & Hr' & Hin').
  apply in_split in Hin as (l1 & l2 & E). subst l.
  pose proof (bucket_repr_NoDup Hcfg _ _ _ _ Hr) as Hnd.
  apply NoDup_middle in Hnd as (_ & _ & Hb1 & Hb2 & _).
  destruct (Z.eq_dec k' k) as [E|E].
  - subst k'.
    pose proof (Selective_bucket_same _ _ _ _ _ _ Hr) as Hnew.
    rewrite (bucket_repr_unique Hcfg _ _ _ _ _ Hr' Hnew) in Hin'.
    apply in_app_or in Hin' as [?|?]; contradiction.
  - destruct (Hwf k' Hk') as [l0 Hr0].
    pose proof (Selective_bucket_other _ _ _ _ _ _ _ _ Hr E Hr0) as Hnew.
    rewrite (bucket_repr_unique Hcfg _ _ _ _ _ Hr' Hnew) in Hin'.
    apply E. apply (in_bucket_exclusive st d k' k b).
    + exists l0. split; assumption.
    + exists (l1 ++ b :: l2). split; [assumption|apply in_elt].
Qed.

End IndexOps.

(** ** Selection *)

Section Selection.
Context `{FtlConfig}.
Hypothesis Hcfg : config_ok.

(** *** Greedy: the pop of the head is the unlink of the head *)

Lemma Greedy_from_empty st d n :
  bucket_repr st d (Z.of_nat (S n)) [] ->
  Greedy.GetFromGcVictimList_from (S n) d st = Greedy.GetFromGcVictimList_from n d st.
Proof.
  intros (Hh & _). simpl hd in Hh.
  cbn [Greedy.GetFromGcVictimList_from]. rewrite Hh, Z.eqb_refl. reflexivity.
Qed.

Lemma Greedy_from_head st d n x r :
  bucket_repr st d (Z.of_nat (S n)) (x :: r) ->
  Greedy.GetFromGcVictimList_from (S n) d st
  = Returned (x, SelectiveGetFromGcVictimList d x st).
Proof.
  intros Hr.
  pose proof (member_links st d _ [] x r Hr) as (Hpv & Hnx & Hcnt & Hvx).
  pose proof Hr as (Hh & _). simpl hd in Hh. simpl last in Hpv.
  cbn [Greedy.GetFromGcVictimList_from]. rewrite Hh.
  unfold SelectiveGetFromGcVictimList. rewrite Hpv, Hcnt, Z.eqb_refl.
  destruct (Z.eqb_spec x BLOCK_NONE) as [E|_];
    [exfalso; apply (valid_not_none Hcfg x); assumption|].
  cbn [negb]. rewrite next_set_prevBlock.
  destruct (nextBlock (block st d x) =? BLOCK_NONE); reflexivity.
Qed.

Lemma Greedy_from_spec st d n :
  (forall k, 1 <= k <= Z.of_nat n -> exists l, bucket_repr st d k l) ->
  (Greedy.GetFromGcVictimList_from n d st = AssertFailed /\
   forall k, 1 <= k <= Z.of_nat n -> bucket_repr st d k [])
  \/
  (exists k x r,
      1 <= k <= Z.of_nat n /\ bucket_repr st d k (x :: r) /\
      (forall k', k < k' <= Z.of_nat n -> bucket_repr st d k' []) /\
      Greedy.GetFromGcVictimList_from n d st
      = Returned (x, SelectiveGetFromGcVictimList d x st)).
Proof.
  induction n as [|n IH]; intros Hwf.
  - left. split; [reflexivity|]. intros k Hk. simpl in Hk. lia.
  - destruct (Hwf (Z.of_nat (S n)) ltac:(lia)) as [l Hl].
    destruct l as [|x r].
    + rewrite (Greedy_from_empty _ _ _ Hl).
      destruct IH as [[Ha He]|(k & x0 & r & Hk & Hr & He & Hret)].
      * intros k Hk. apply Hwf. lia.
      * left. split; [assumption|]. intros k Hk.
        destruct (Z.eq_dec k (Z.of_nat (S n))) as [->|Hne]; [assumption|].
        apply He. lia.
      * right. exists k, x0, r. split; [lia|]. split; [assumption|].
        split; [|assumption]. intros k' Hk'.
        destruct (Z.eq_dec k' (Z.of_nat (S n))) as [->|Hne]; [assumption|].
        apply He. lia.
    + right. exists (Z.of_nat (S n)), x, r. split; [lia|]. split; [assumption|].
      split; [intros k' Hk'; lia|]. apply (Greedy_from_head st d n x r). assumption.
Qed.

(** The Greedy selection stores into [prevBlock] fields and list heads
    and tails only. *)
Lemma Greedy_from_next_unchanged n d st b st' :
  Greedy.GetFromGcVictimList_from n d st = Returned (b, st') ->
  forall d' x, nextBlock (block st' d' x) = nextBlock (block st d' x).
Proof.
  induction n as [|n IH]; [discriminate|].
  cbn [Greedy.GetFromGcVictimList_from].
  destruct (negb _); [|exact IH].
  destruct (negb _); intros E; injection E as _ <-; intros d' x.
  - rewrite block_set_headBlock. apply next_set_prevBlock.
  - rewrite block_set_tailBlock, block_set_headBlock. reflexivity.
Qed.

(** *** Lists of distinct blocks of a die are short *)

Lemma valid_list_length (l : list Z) :
  NoDup l -> Forall valid_block l ->
  (length l <= Z.to_nat USER_BLOCKS_PER_DIE)%nat.
Proof.
  intros Hnd Hv.
  rewrite <- (length_map Z.to_nat l).
  rewrite <- (length_seq (Z.to_nat USER_BLOCKS_PER_DIE) 0).
  apply NoDup_incl_length.
  - clear Hcfg. induction l as [|x l IH]; [constructor|].
    apply NoDup_cons_iff in Hnd as [Hx Hnd].
    apply Forall_cons_iff in Hv as [Hvx Hv].
    simpl. constructor; [|apply IH; assumption].
    intros Hin. apply in_map_iff in Hin as (y & Ey & Hy).
    rewrite Forall_forall in Hv. specialize (Hv y Hy).
    unfold valid_block in *. assert (y = x) by lia. subst. contradiction.
  - intros n Hn. apply in_map_iff in Hn as (y & <- & Hy).
    rewrite Forall_forall in Hv. specialize (Hv y Hy).
    apply in_seq. unfold valid_block in Hv. lia.
Qed.

(** *** The scan as a fold over the blocks it meets *)

Lemma scan_bucket_fold fuel score_of st d p l : forall best,
  dllseg st d p l BLOCK_NONE -> (length l <= fuel)%nat ->
  scan_bucket fuel score_of st d (hd BLOCK_NONE l) best
  = Some (fold_left (better score_of) l best).
Proof.
  revert fuel p. induction l as [|x l IH]; intros fuel p best Hl Hf.
  - simpl. destruct fuel; simpl; rewrite Z.eqb_refl; reflexivity.
  - destruct Hl as (Hv & _ & Hn & Hr).
    destruct fuel as [|fuel]; [simpl in Hf; lia|].
    cbn [hd scan_bucket fold_left].
    destruct (Z.eqb_spec x BLOCK_NONE) as [E|_];
      [exfalso; apply (valid_not_none Hcfg x); assumption|].
    rewrite Hn. apply (IH fuel x); [assumption|simpl in Hf; lia].
Qed.

Lemma scan_buckets_fold fuel score_of st d n : forall l best,
  scan_order st d n l -> (Z.to_nat USER_BLOCKS_PER_DIE <= fuel)%nat ->
  scan_buckets fuel score_of st d n best
  = Some (fold_left (better score_of) l best).
Proof.
  induction n as [|n IH]; intros l best Hl Hf.
  - simpl in Hl. subst l. reflexivity.
  - destruct Hl as (lk & rest & Hr & Hrest & ->).
    cbn [scan_buckets]. pose proof Hr as (Hh & _ & Hdl & _).
    rewrite Hh, (scan_bucket_fold fuel score_of st d BLOCK_NONE lk best Hdl).
    + rewrite fold_left_app. apply IH; assumption.
    + pose proof (valid_list_length lk (bucket_repr_NoDup Hcfg _ _ _ _ Hr)
                                       (dllseg_valid _ _ _ _ _ Hdl)).
      lia.
Qed.

(** The fold keeps the first block of maximal score above the initial
    one. *)
Lemma fold_better_spec score_of l : forall bb bs rb rs,
  fold_left (better score_of) l (bb, bs) = (rb, rs) ->
  (rb = bb /\ rs = bs /\ forall c, In c l -> score_of c <= bs)
  \/
  (exists l1 l2,
      l = l1 ++ rb :: l2 /\ rs = score_of rb /\ bs < rs /\
      (forall c, In c l1 -> score_of c < rs) /\
      (forall c, In c l2 -> score_of c <= rs)).
Proof.
  induction l as [|x l IH]; intros bb bs rb rs Hf.
  - simpl in Hf. injection Hf as <- <-. left. split; [reflexivity|].
    split; [reflexivity|]. intros c [].
  - cbn [fold_left] in Hf. unfold better at 2 in Hf. cbn [snd] in Hf.
    destruct (Z.ltb_spec bs (score_of x)) as [Hlt|Hge].
    + apply IH in Hf as [(-> & -> & Hall)|(l1 & l2 & -> & -> & Hlt' & H1 & H2)].
      * right. exists [], l. split; [reflexivity|]. split; [reflexivity|].
        split; [assumption|]. split; [intros c []|assumption].
      * right. exists (x :: l1), l2. split; [reflexivity|]. split; [reflexivity|].
        split; [lia|]. split; [|assumption].
        intros c [<-|Hc]; [assumption|apply H1; assumption].
    + apply IH in Hf as [(-> & -> & Hall)|(l1 & l2 & -> & -> & Hlt' & H1 & H2)].
      * left. split; [reflexivity|]. split; [reflexivity|].
        intros c [<-|Hc]; [assumption|apply Hall; assumption].
      * right. exists (x :: l1), l2. split; [reflexivity|]. split; [reflexivity|].
        split; [assumption|]. split; [|assumption].
        intros c [<-|Hc]; [lia|apply H1; assumption].
Qed.

Lemma scan_order_valid st d n l x :
  scan_order st d n l -> In x l -> valid_block x.
Proof.
  revert l. induction n as [|n IH]; intros l Hl Hx.
  - simpl in Hl. subst l. contradiction.
  - destruct Hl as (lk & rest & Hr & Hrest & ->).
    apply in_app_or in Hx as [Hx|Hx].
    + apply (bucket_repr_valid st d (Z.of_nat (S n)) lk); assumption.
    + apply (IH rest); assumption.
Qed.

Lemma scan_order_in st d n l x :
  scan_order st d n l ->
  (In x l <-> exists k, 1 <= k <= Z.of_nat n /\ in_bucket st d k x).
Proof.
  revert l. induction n as [|n IH]; intros l Hl.
  - simpl in Hl. subst l. split; [intros []|]. intros (k & Hk & _). simpl in Hk. lia.
  - destruct Hl as (lk & rest & Hr & Hrest & ->). split.
    + intros Hx. apply in_app_or in Hx as [Hx|Hx].
      * exists (Z.of_nat (S n)). split; [lia|]. exists lk. split; assumption.
      * apply (IH rest Hrest) in Hx as (k & Hk & Hin). exists k. split; [lia|assumption].
    + intros (k & Hk & (l' & Hr' & Hin)). apply in_or_app.
      destruct (Z.eq_dec k (Z.of_nat (S n))) as [E|E].
      * left. subst k. rewrite (bucket_repr_unique Hcfg _ _ _ _ _ Hr Hr'). assumption.
      * right. apply (IH rest Hrest). exists k. split; [lia|].
        exists l'. split; assumption.
Qed.

Lemma wf_scan_order st d n :
  (forall k, 1 <= k <= Z.of_nat n -> exists l, bucket_repr st d k l) ->
  exists l, scan_order st d n l.
Proof.
  induction n as [|n IH]; intros Hwf.
  - exists []. reflexivity.
  - destruct (Hwf (Z.of_nat (S n)) ltac:(lia)) as [lk Hr].
    destruct IH as [rest Hrest]; [intros k Hk; apply Hwf; lia|].
    exists (lk ++ rest). exists lk, rest.
    split; [assumption|]. split; [assumption|reflexivity].
Qed.

Lemma wf_candidates st d : wf_index st d -> exists l, candidates st d l.
Proof.
  intros Hwf. apply wf_scan_order. intros k Hk. apply Hwf.
  unfold config_ok in Hcfg. lia.
Qed.

(** What the scanning selection answers. *)
Lemma select_by_score_spec fuel score d st l :
  candidates st d l ->
  (Z.to_nat USER_BLOCKS_PER_DIE <= fuel)%nat ->
  (forall x, 0 <= score st d x) ->
  (select_by_score fuel score d st = AssertFailed /\
   forall c, In c l -> score st d c = 0)
  \/
  (exists l1 b l2,
      l = l1 ++ b :: l2 /\ 0 < score st d b /\
      (forall c, In c l1 -> score st d c < score st d b) /\
      (forall c, In c l2 -> score st d c <= score st d b) /\
      select_by_score fuel score d st
      = Returned (b, DetachBlockFromGcList d b st)).
Proof.
  intros Hl Hf Hpos. unfold select_by_score.
  rewrite (scan_buckets_fold fuel (score st d) st d _ l (BLOCK_FAIL, 0) Hl Hf).
  destruct (fold_left _ l (BLOCK_FAIL, 0)) as [rb rs] eqn:Efold.
  apply fold_better_spec in Efold
    as [(-> & -> & Hall)|(l1 & l2 & -> & -> & Hlt & H1 & H2)].
  - left. rewrite Z.eqb_refl. split; [reflexivity|].
    intros c Hc. specialize (Hall c Hc). specialize (Hpos c). lia.
  - right. exists l1, rb, l2. split; [reflexivity|]. split; [assumption|].
    split; [assumption|]. split; [assumption|].
    destruct (Z.eqb_spec rb BLOCK_FAIL) as [E|_]; [|reflexivity].
    exfalso. apply (valid_not_fail Hcfg rb); [|assumption].
    apply (scan_order_valid st d _ _ rb Hl). apply in_elt.
Qed.

End Selection.

(** ** The computed checks are sound *)

Section Checks.
Context `{FtlConfig}.

Lemma dllsegb_sound st d l n : forall p,
  dllsegb st d p l n = true -> dllseg st d p l n.
Proof.
  induction l as [|x l IH]; intros p Hb; [exact I|].
  cbn [dllsegb] in Hb.
  repeat (apply andb_true_iff in Hb as [Hb ?]).
  cbn [dllseg]. unfold valid_block.
  split; [lia|]. split; [apply Z.eqb_eq; assumption|].
  split; [apply Z.eqb_eq; assumption|]. apply IH. assumption.
Qed.

Lemma bucket_reprb_sound st d k l :
  bucket_reprb st d k l = true -> bucket_repr st d k l.
Proof.
  unfold bucket_reprb. intros Hb.
  repeat (apply andb_true_iff in Hb as [Hb ?]).
  split; [apply Z.eqb_eq; assumption|].
  split; [apply Z.eqb_eq; assumption|].
  split; [apply dllsegb_sound; assumption|].
  rewrite Forall_forall. intros x Hx.
  rewrite forallb_forall in *. apply Z.eqb_eq. auto.
Qed.

Lemma wf_indexb_bucket fuel st d n :
  wf_indexb fuel st d = true -> (n <= Z.to_nat SLICES_PER_BLOCK)%nat ->
  bucket_repr st d (Z.of_nat n) (bucket_list fuel st d (Z.of_nat n)).
Proof.
  unfold wf_indexb. intros Hb Hn. rewrite forallb_forall in Hb.
  apply bucket_reprb_sound. apply Hb. apply in_seq. lia.
Qed.

Lemma wf_indexb_sound fuel st d :
  wf_indexb fuel st d = true -> wf_index st d.
Proof.
  intros Hb k Hk. exists (bucket_list fuel st d k).
  rewrite <- (Z2Nat.id k) by lia. apply wf_indexb_bucket; [assumption|lia].
Qed.

Lemma scan_order_computed fuel st d n :
  wf_indexb fuel st d = true -> (n <= Z.to_nat SLICES_PER_BLOCK)%nat ->
  scan_order st d n (candidate_list fuel st d n).
Proof.
  intros Hb. induction n as [|n IH]; intros Hn; [reflexivity|].
  exists (bucket_list fuel st d (Z.of_nat (S n))), (candidate_list fuel st d n).
  split; [apply wf_indexb_bucket; assumption|].
  split; [apply IH; lia|reflexivity].
Qed.

Lemma candidates_computed fuel st d :
  wf_indexb fuel st d = true ->
  candidates st d (candidate_list fuel st d (Z.to_nat SLICES_PER_BLOCK)).
Proof. intros Hb. apply scan_order_computed; [assumption|lia]. Qed.

End Checks.

(** ** Well-formedness is an invariant of the index operations *)

Section Invariant.
Context `{FtlConfig}.
Hypothesis Hcfg : config_ok.

Lemma bucket_repr_same_index st st' d k l :
  block st' = block st -> gcVictimList st' = gcVictimList st ->
  bucket_repr st d k l -> bucket_repr st' d k l.
Proof.
  intros Eb El. apply bucket_repr_frame.
  - intros x _. rewrite Eb. repeat split.
  - rewrite El. reflexivity.
  - rewrite El. reflexivity.
Qed.

Lemma wf_index_same_index st st' d :
  block st' = block st -> gcVictimList st' = gcVictimList st ->
  wf_index st d -> wf_index st' d.
Proof.
  intros Eb El Hwf k Hk. destruct (Hwf k Hk) as [l Hl]. exists l.
  apply (bucket_repr_same_index st); assumption.
Qed.

Lemma in_no_list_same_index st st' d b :
  block st' = block st -> gcVictimList st' = gcVictimList st ->
  in_no_list st d b -> in_no_list st' d b.
Proof.
  intros Eb El Hno k Hk (l & Hl & Hin). apply (Hno k Hk). exists l.
  split; [|assumption]. apply (bucket_repr_same_index st'); congruence.
Qed.

Lemma wf_index_well_formed st d : wf_index st d -> index_well_formed st d.
Proof.
  intros Hwf. split; [assumption|]. split.
  - intros k Hk. destruct (Hwf k Hk) as [l Hl].
    destruct (bucket_repr_head_cases Hcfg _ _ _ _ Hl) as [[E Hh]|(x & r & E & Hh & Hx)];
    destruct (bucket_repr_tail_cases Hcfg _ _ _ _ Hl) as [[E' Ht]|(E' & _ & Ht)];
      subst; try congruence.
    + tauto.
    + split; intros; congruence.
  - apply in_bucket_exclusive.
Qed.

(** The links of a block that is in no list can be rewritten freely. *)
Lemma outsider_links st d b vp vn :
  wf_index st d -> in_no_list st d b ->
  wf_index (set_prevBlock d b vp (set_nextBlock d b vn st)) d /\
  in_no_list (set_prevBlock d b vp (set_nextBlock d b vn st)) d b.
Proof.
  intros Hwf Hno.
  assert (Hkeep : forall k l, 0 <= k <= SLICES_PER_BLOCK -> bucket_repr st d k l ->
            bucket_repr (set_prevBlock d b vp (set_nextBlock d b vn st)) d k l).
  { intros k l Hk Hl. apply (bucket_repr_frame st); [| | |assumption].
    - intros x Hx.
      assert (Hxb : x <> b).
      { intros E. subst x. apply (Hno k Hk). exists l. split; assumption. }
      rewrite prev_set_prevBlock, next_set_prevBlock, prev_set_nextBlock,
        next_set_nextBlock, cnt_set_prevBlock, cnt_set_nextBlock.
      destruct (Z.eqb_spec x b); [contradiction|]. repeat split.
    - reflexivity.
    - reflexivity. }
  split.
  - intros k Hk. destruct (Hwf k Hk) as [l Hl]. exists l. apply Hkeep; assumption.
  - intros k Hk (l & Hl & Hin). destruct (Hwf k Hk) as [l0 Hl0].
    pose proof (Hkeep k l0 Hk Hl0) as Hl0'.
    rewrite (bucket_repr_unique Hcfg _ _ _ _ _ Hl Hl0') in Hin.
    apply (Hno k Hk). exists l0. split; assumption.
Qed.

Lemma Detach_wf st d k b :
  wf_index st d -> 0 <= k <= SLICES_PER_BLOCK -> in_bucket st d k b ->
  wf_index (DetachBlockFromGcList d b st) d /\
  in_no_list (DetachBlockFromGcList d b st) d b.
Proof.
  intros Hwf Hk Hin. unfold DetachBlockFromGcList.
  apply outsider_links.
  - apply (Selective_wf Hcfg st d k); assumption.
  - apply (Selective_in_no_list Hcfg st d k); assumption.
Qed.

Lemma Greedy_Get_returns st d b st' :
  wf_index st d -> Greedy.GetFromGcVictimList d st = Returned (b, st') ->
  st' = SelectiveGetFromGcVictimList d b st /\
  exists k r, 1 <= k <= SLICES_PER_BLOCK /\ bucket_repr st d k (b :: r) /\
              forall k', k < k' <= SLICES_PER_BLOCK -> bucket_repr st d k' [].
Proof.
  intros Hwf Hret. unfold Greedy.GetFromGcVictimList in Hret.
  assert (HS : 0 <= SLICES_PER_BLOCK) by (unfold config_ok in Hcfg; lia).
  destruct (Greedy_from_spec Hcfg st d (Z.to_nat SLICES_PER_BLOCK))
    as [[Ha _]|(k & x & r & Hk & Hr & He & Hret')].
  - intros k Hk. apply Hwf. lia.
  - congruence.
  - rewrite Hret' in Hret. injection Hret as <- <-.
    split; [reflexivity|]. exists k, r. rewrite Z2Nat.id in * by assumption.
    split; [assumption|]. split; assumption.
Qed.

Lemma Greedy_Get_wf st d b st' :
  wf_index st d -> Greedy.GetFromGcVictimList d st = Returned (b, st') ->
  wf_index st' d /\ in_no_list st' d b.
Proof.
  intros Hwf Hret.
  destruct (Greedy_Get_returns st d b st' Hwf Hret) as (-> & k & r & Hk & Hr & _).
  assert (Hin : in_bucket st d k b) by (exists (b :: r); split; [assumption|left; reflexivity]).
  split.
  - apply (Selective_wf Hcfg st d k); [assumption|lia|assumption].
  - apply (Selective_in_no_list Hcfg st d k); [assumption|lia|assumption].
Qed.

(** The Greedy selection ends in the assertion exactly when the buckets
    1 to [SLICES_PER_BLOCK] are empty. *)
Lemma Greedy_Get_asserts_iff st d :
  wf_index st d ->
  (Greedy.GetFromGcVictimList d st = AssertFailed <->
   forall k, 1 <= k <= SLICES_PER_BLOCK -> bucket_repr st d k []).
Proof.
  intros Hwf. unfold Greedy.GetFromGcVictimList.
  assert (HS : 0 <= SLICES_PER_BLOCK) by (unfold config_ok in Hcfg; lia).
  destruct (Greedy_from_spec Hcfg st d (Z.to_nat SLICES_PER_BLOCK))
    as [[Ha He]|(k & x & r & Hk & Hr & He & Hret)].
  - intros k Hk. apply Hwf. lia.
  - rewrite Z2Nat.id in He by assumption. split; intros; [apply He|]; assumption.
  - rewrite Z2Nat.id in Hk by assumption. split.
    + intros E. rewrite E in Hret. discriminate.
    + intros Hempty. specialize (Hempty k Hk).
      pose proof (bucket_repr_unique Hcfg _ _ _ _ _ Hr Hempty). discriminate.
Qed.

Lemma select_by_score_returns fuel score d st l b st' :
  candidates st d l ->
  (Z.to_nat USER_BLOCKS_PER_DIE <= fuel)%nat ->
  select_by_score fuel score d st = Returned (b, st') ->
  In b l /\ st' = DetachBlockFromGcList d b st.
Proof.
  intros Hl Hf Hret. unfold select_by_score in Hret.
  rewrite (scan_buckets_fold Hcfg fuel (score st d) st d _ l (BLOCK_FAIL, 0) Hl Hf) in Hret.
  destruct (fold_left _ l (BLOCK_FAIL, 0)) as [rb rs] eqn:Efold.
  apply fold_better_spec in Efold
    as [(-> & -> & Hall)|(l1 & l2 & -> & -> & Hlt & H1 & H2)].
  - rewrite Z.eqb_refl in Hret. discriminate.
  - destruct (rb =? BLOCK_FAIL); [discriminate|]. injection Hret as <- <-.
    split; [apply in_elt|reflexivity].
Qed.

Lemma select_by_score_wf fuel score d st b st' :
  wf_index st d ->
  (Z.to_nat USER_BLOCKS_PER_DIE <= fuel)%nat ->
  select_by_score fuel score d st = Returned (b, st') ->
  wf_index st' d /\ in_no_list st' d b.
Proof.
  intros Hwf Hf Hret.
  destruct (wf_candidates Hcfg st d Hwf) as [l Hl].
  destruct (select_by_score_returns fuel score d st l b st' Hl Hf Hret) as [Hin ->].
  apply (scan_order_in Hcfg st d _ l b Hl) in Hin as (k & Hk & Hin).
  assert (HS : 0 <= SLICES_PER_BLOCK) by (unfold config_ok in Hcfg; lia).
  rewrite Z2Nat.id in Hk by assumption.
  apply (Detach_wf st d k); [assumption|lia|assumption].
Qed.

End Invariant.

(** C2. Index well-formedness (every member of bucket [k] has invalid
    count [k]; every bucket is a list linked in both directions from its
    head to its tail, with [BLOCK_NONE] before the head and after the tail;
    head and tail are [BLOCK_NONE] together; no block is in two buckets) is
    kept by [PutToGcVictimList] of a block that is in no list with its
    current invalid count, by [SelectiveGetFromGcVictimList] (and
    [DetachBlockFromGcList]) of a member, and by [GetFromGcVictimList],
    in the three builds. *)
Theorem index_well_formedness_preserved `{FtlConfig} :
  config_ok ->
  forall st d, index_well_formed st d ->
    (forall b c,
        valid_block b -> 0 <= c <= SLICES_PER_BLOCK ->
        invalidSliceCnt (block st d b) = c -> in_no_list st d b ->
        index_well_formed (Greedy.PutToGcVictimList d b c st) d /\
        index_well_formed (CostBenefit.PutToGcVictimList d b c st) d /\
        index_well_formed (CAT.PutToGcVictimList d b c st) d) /\
    (forall b k,
        0 <= k <= SLICES_PER_BLOCK -> in_bucket st d k b ->
        index_well_formed (SelectiveGetFromGcVictimList d b st) d /\
        index_well_formed (DetachBlockFromGcList d b st) d) /\
    (forall b st',
        Greedy.GetFromGcVictimList d st = Returned (b, st') ->
        index_well_formed st' d) /\
    (forall fuel b st',
        (Z.to_nat USER_BLOCKS_PER_DIE <= fuel)%nat ->
        CostBenefit.GetFromGcVictimList fuel d st = Returned (b, st') \/
        CAT.GetFromGcVictimList fuel d st = Returned (b, st') ->
        index_well_formed st' d).
Proof.
  intros Hcfg st d (Hwf & _ & _).
  split; [|split; [|split]].
  - intros b c Hvb Hc Hcb Hno.
    split; [|split]; apply (wf_index_well_formed Hcfg).
    + apply (Put_wf Hcfg); assumption.
    + unfold CostBenefit.PutToGcVictimList.
      destruct (negb (c =? 0)); apply (Put_wf Hcfg); try assumption.
      * apply (wf_index_same_index st); [reflexivity|reflexivity|assumption].
      * apply (in_no_list_same_index st); [reflexivity|reflexivity|assumption].
    + unfold CAT.PutToGcVictimList.
      destruct (negb (c =? 0)); apply (Put_wf Hcfg); try assumption.
      * apply (wf_index_same_index st); [reflexivity|reflexivity|assumption].
      * apply (in_no_list_same_index st); [reflexivity|reflexivity|assumption].
  - intros b k Hk Hin. split; apply (wf_index_well_formed Hcfg).
    + apply (Selective_wf Hcfg st d k); assumption.
    + apply (Detach_wf Hcfg st d k); assumption.
  - intros b st' Hret. apply (wf_index_well_formed Hcfg).
    apply (Greedy_Get_wf Hcfg st d b st' Hwf Hret).
  - intros fuel b st' Hf [Hret|Hret]; apply (wf_index_well_formed Hcfg).
    + apply (select_by_score_wf Hcfg fuel _ d st b st' Hwf Hf Hret).
    + apply (select_by_score_wf Hcfg fuel _ d st b st' Hwf Hf Hret).
Qed.

(** ** The block's own links after an unlink *)

Section OwnLinks.
Context `{FtlConfig}.
Hypothesis Hcfg : config_ok.



(** A block in no list is none of the blocks an operation on another block
    stores into. *)
Lemma outsider_not_tail st d b c :
  wf_index st d -> 0 <= c <= SLICES_PER_BLOCK -> in_no_list st d b -> valid_block b ->
  b <> tailBlock (gcVictimList st d c).
Proof.
  intros Hwf Hc Hno Hvb. destruct (Hwf c Hc) as [l Hl].
  destruct (bucket_repr_tail_cases Hcfg _ _ _ _ Hl) as [[_ E]|(_ & Hin & _)].
  - rewrite E. apply (valid_not_none Hcfg). assumption.
  - intros E. apply (Hno c Hc). exists l. split; [assumption|]. rewrite E. assumption.
Qed.

Lemma Put_outsider st d b b' c :
  wf_index st d -> op_pre st d (OpPut b' c) -> b <> b' -> in_no_list st d b ->
  in_no_list (Greedy.PutToGcVictimList d b' c st) d b /\
  prevBlock (block (Greedy.PutToGcVictimList d b' c st) d b) = prevBlock (block st d b) /\
  nextBlock (block (Greedy.PutToGcVictimList d b' c st) d b) = nextBlock (block st d b).
Proof.
  intros Hwf (Hvb' & Hc & Hcb' & Hno') Hne Hno.
  destruct (Hwf c Hc) as [lc Hlc].
  assert (Hninc' : ~ In b' lc).
  { intros Hin. apply (Hno' c Hc). exists lc. split; assumption. }
  split; [|split].
  - intros k Hk (l & Hl & Hin).
    destruct (Z.eq_dec k c) as [E|E].
    + subst k.
      pose proof (Put_bucket_same Hcfg st d b' c lc Hlc Hninc' Hvb' Hcb') as Hnew.
      rewrite (bucket_repr_unique Hcfg _ _ _ _ _ Hl Hnew) in Hin.
      apply in_app_or in Hin as [Hin|[Hin|[]]]; [|congruence].
      apply (Hno c Hc). exists lc. split; assumption.
    + destruct (Hwf k Hk) as [l0 Hl0].
      assert (Hnin0 : ~ In b' l0).
      { intros Hin0. apply (Hno' k Hk). exists l0. split; assumption. }
      pose proof (Put_bucket_other Hcfg st d b' c k l0 lc Hlc Hninc' Hvb' E Hl0 Hnin0) as Hnew.
      rewrite (bucket_repr_unique Hcfg _ _ _ _ _ Hl Hnew) in Hin.
      apply (Hno k Hk). exists l0. split; assumption.
  - rewrite Put_prev. destruct (Z.eqb_spec b b'); [contradiction|reflexivity].
  - rewrite Put_next by (apply outsider_not_tail; assumption).
    destruct (Z.eqb_spec b b'); [contradiction|].
    destruct (Z.eqb_spec b (tailBlock (gcVictimList st d c))) as [E|E]; [|reflexivity].
    destruct (bucket_repr_tail_cases Hcfg _ _ _ _ Hlc) as [[_ E2]|(_ & Hin & _)].
    + rewrite E2, Z.eqb_refl. reflexivity.
    + exfalso. apply (Hno c Hc). exists lc. split; [assumption|]. rewrite E. assumption.
Qed.

Lemma Selective_outsider st d b x :
  wf_index st d -> op_pre st d (OpSelectiveGet x) -> in_no_list st d b ->
  in_no_list (SelectiveGetFromGcVictimList d x st) d b /\
  prevBlock (block (SelectiveGetFromGcVictimList d x st) d b) = prevBlock (block st d b) /\
  nextBlock (block (SelectiveGetFromGcVictimList d x st) d b) = nextBlock (block st d b).
Proof.
  intros Hwf (k & Hk & (l & Hl & Hin)) Hno.
  apply in_split in Hin as (l1 & l2 & ->).
  pose proof (member_links _ _ _ _ _ _ Hl) as (Hpv & Hnx & _ & _).
  assert (Hout : forall y, In y (l1 ++ x :: l2) -> b <> y).
  { intros y Hy E. subst y. apply (Hno k Hk). exists (l1 ++ x :: l2). split; assumption. }
  split; [|split].
  - intros k' Hk' (l' & Hl' & Hin').
    destruct (Z.eq_dec k' k) as [E|E].
    + subst k'. pose proof (Selective_bucket_same Hcfg _ _ _ _ _ _ Hl) as Hnew.
      rewrite (bucket_repr_unique Hcfg _ _ _ _ _ Hl' Hnew) in Hin'.
      apply (Hout b); [|reflexivity].
      apply in_app_or in Hin' as [?|?]; apply in_or_app; [left|right; right]; assumption.
    + destruct (Hwf k' Hk') as [l0 Hl0].
      pose proof (Selective_bucket_other _ _ _ _ _ _ _ _ Hl E Hl0) as Hnew.
      rewrite (bucket_repr_unique Hcfg _ _ _ _ _ Hl' Hnew) in Hin'.
      apply (Hno k' Hk'). exists l0. split; assumption.
  - rewrite Selective_prev, Hnx.
    destruct (Z.eqb_spec b (hd BLOCK_NONE l2)) as [E|E]; [|reflexivity].
    destruct l2 as [|z l2]; simpl in *.
    + rewrite Z.eqb_refl. reflexivity.
    + exfalso. apply (Hout z); [|assumption]. apply in_or_app. right. right. left. reflexivity.
  - rewrite Selective_next, Hpv.
    destruct (Z.eqb_spec b (last l1 BLOCK_NONE)) as [E|E]; [|reflexivity].
    destruct l1 as [|y l1].
    + simpl. rewrite Z.eqb_refl. reflexivity.
    + exfalso. apply (Hout (last (y :: l1) BLOCK_NONE)); [|assumption].
      apply in_or_app. left. apply last_in. discriminate.
Qed.

Lemma run_op_wf st d op :
  wf_index st d -> op_pre st d op -> wf_index (run_op d op st) d.
Proof.
  intros Hwf Hpre. destruct op as [b c| |x]; cbn [run_op].
  - destruct Hpre as (? & ? & ? & ?). apply (Put_wf Hcfg); assumption.
  - destruct (Greedy.GetFromGcVictimList d st) as [[b st']| |] eqn:E; try assumption.
    apply (Greedy_Get_wf Hcfg st d b st' Hwf E).
  - destruct Hpre as (k & Hk & Hin). apply (Selective_wf Hcfg st d k); assumption.
Qed.

Lemma run_op_outsider st d b op :
  wf_index st d -> in_no_list st d b -> op_pre st d op ->
  (forall c, op <> OpPut b c) ->
  in_no_list (run_op d op st) d b /\
  prevBlock (block (run_op d op st) d b) = prevBlock (block st d b) /\
  nextBlock (block (run_op d op st) d b) = nextBlock (block st d b).
Proof.
  intros Hwf Hno Hpre Hnot. destruct op as [b' c| |x]; cbn [run_op].
  - apply Put_outsider; try assumption. intros E. subst b'. apply (Hnot c). reflexivity.
  - destruct (Greedy.GetFromGcVictimList d st) as [[x st']| |] eqn:E;
      [|repeat split; assumption|repeat split; assumption].
    destruct (Greedy_Get_returns Hcfg st d x st' Hwf E) as (-> & k & r & Hk & Hr & _).
    apply Selective_outsider; try assumption.
    exists k. split; [lia|]. exists (x :: r). split; [assumption|left; reflexivity].
  - apply Selective_outsider; assumption.
Qed.

(** The stores into the count fields leave the links and the lists as
    they are. *)
Lemma count_store_frame d b v st :
  (forall d' x,
      prevBlock (block (set_invalidSliceCnt d b v st) d' x) = prevBlock (block st d' x) /\
      nextBlock (block (set_invalidSliceCnt d b v st) d' x) = nextBlock (block st d' x) /\
      (x <> b ->
       invalidSliceCnt (block (set_invalidSliceCnt d b v st) d' x)
       = invalidSliceCnt (block st d' x))) /\
  gcVictimList (set_invalidSliceCnt d b v st) = gcVictimList st /\
  (forall d' x,
      prevBlock (block (set_eraseCnt d b v st) d' x) = prevBlock (block st d' x) /\
      nextBlock (block (set_eraseCnt d b v st) d' x) = nextBlock (block st d' x) /\
      invalidSliceCnt (block (set_eraseCnt d b v st) d' x)
      = invalidSliceCnt (block st d' x)) /\
  gcVictimList (set_eraseCnt d b v st) = gcVictimList st.
Proof.
  unfold set_invalidSliceCnt, set_eraseCnt, upd_block, upd2. cbn [block gcVictimList].
  split; [|split; [reflexivity|split; [|reflexivity]]]; intros d' x;
    destruct (Z.eqb_spec d' d) as [->|]; cbn [andb];
    try (repeat split; reflexivity);
    destruct (Z.eqb_spec x b) as [->|]; repeat split; try reflexivity;
    intros; congruence.
Qed.

(** Two states with the same links and lists, and the same counts on the
    listed blocks, have the same bucket lists. *)
Lemma same_lists st st' d :
  wf_index st d ->
  (forall x, prevBlock (block st' d x) = prevBlock (block st d x) /\
             nextBlock (block st' d x) = nextBlock (block st d x)) ->
  (forall k x, 0 <= k <= SLICES_PER_BLOCK -> in_bucket st d k x ->
     invalidSliceCnt (block st' d x) = invalidSliceCnt (block st d x)) ->
  gcVictimList st' = gcVictimList st ->
  wf_index st' d /\ forall x, in_no_list st d x -> in_no_list st' d x.
Proof.
  intros Hwf Hlinks Hcnt Hlist.
  assert (Hkeep : forall k l, 0 <= k <= SLICES_PER_BLOCK ->
                    bucket_repr st d k l -> bucket_repr st' d k l).
  { intros k l Hk Hl. apply (bucket_repr_frame st); [| | |assumption].
    - intros x Hx. destruct (Hlinks x) as [Hp Hn].
      split; [assumption|]. split; [assumption|].
      apply (Hcnt k x Hk). exists l. split; assumption.
    - rewrite Hlist. reflexivity.
    - rewrite Hlist. reflexivity. }
  split.
  - intros k Hk. destruct (Hwf k Hk) as [l Hl]. exists l. apply Hkeep; assumption.
  - intros x Hno k Hk (l & Hl & Hin).
    destruct (Hwf k Hk) as [l0 Hl0].
    rewrite (bucket_repr_unique Hcfg _ _ _ _ _ Hl (Hkeep k l0 Hk Hl0)) in Hin.
    apply (Hno k Hk). exists l0. split; assumption.
Qed.

Lemma run_step_outsider st d b s :
  wf_index st d -> in_no_list st d b -> step_pre st d s ->
  (forall c, s <> IndexOp (OpPut b c)) ->
  wf_index (run_step d s st) d /\
  in_no_list (run_step d s st) d b /\
  prevBlock (block (run_step d s st) d b) = prevBlock (block st d b) /\
  nextBlock (block (run_step d s st) d b) = nextBlock (block st d b).
Proof.
  intros Hwf Hno Hpre Hnot. destruct s as [op|x v|x v]; cbn [run_step step_pre] in *.
  - split; [apply run_op_wf; assumption|].
    apply run_op_outsider; try assumption.
    intros c E. apply (Hnot c). rewrite E. reflexivity.
  - destruct (count_store_frame d x v st) as (Hf & Hlist & _).
    destruct (same_lists st (set_invalidSliceCnt d x v st) d Hwf) as [Hwf' Hno'].
    + intros y. destruct (Hf d y) as (Hp & Hn & _). split; assumption.
    + intros k y Hk Hin. apply (Hf d y).
      intros E. subst y. apply (Hpre k Hk). assumption.
    + assumption.
    + split; [assumption|]. split; [apply Hno'; assumption|].
      destruct (Hf d b) as (Hp & Hn & _). split; assumption.
  - destruct (count_store_frame d x v st) as (_ & _ & Hf & Hlist).
    destruct (same_lists st (set_eraseCnt d x v st) d Hwf) as [Hwf' Hno'].
    + intros y. destruct (Hf d y) as (Hp & Hn & _). split; assumption.
    + intros k y Hk Hin. apply (Hf d y).
    + assumption.
    + split; [assumption|]. split; [apply Hno'; assumption|].
      destruct (Hf d b) as (Hp & Hn & _). split; assumption.
Qed.

Lemma run_steps_outsider d b steps : forall st,
  wf_index st d -> in_no_list st d b -> steps_pre d steps st ->
  (forall c, ~ In (IndexOp (OpPut b c)) steps) ->
  wf_index (run_steps d steps st) d /\
  in_no_list (run_steps d steps st) d b /\
  prevBlock (block (run_steps d steps st) d b) = prevBlock (block st d b) /\
  nextBlock (block (run_steps d steps st) d b) = nextBlock (block st d b).
Proof.
  induction steps as [|s steps IH]; intros st Hwf Hno Hpre Hnot.
  - repeat split; assumption.
  - destruct Hpre as [Hs Hrest]. cbn [run_steps].
    assert (Hnot1 : forall c, s <> IndexOp (OpPut b c)).
    { intros c E. apply (Hnot c). left. assumption. }
    destruct (run_step_outsider st d b s Hwf Hno Hs Hnot1) as (Hwf1 & Hno1 & Ep & En).
    destruct (IH (run_step d s st) Hwf1 Hno1 Hrest) as (Hwf2 & Hno2 & Ep2 & En2).
    { intros c Hin. apply (Hnot c). right. assumption. }
    split; [assumption|]. split; [assumption|]. split; congruence.
Qed.

End OwnLinks.


(** C10. The Greedy [GetFromGcVictimList] leaves the popped block's
    [nextBlock] as it was and its [prevBlock] at [BLOCK_NONE]; when the
    bucket held a second block, the popped block's [nextBlock] still names
    it and it is still in the bucket.  The field then stays as it is
    through the further life of the index and of the block: puts, pops and
    unlinks of other blocks, with their counts changing in between, and the
    stores of the erase and of new invalidations into the counts of the
    popped block itself; the [PutToGcVictimList] that brings the popped
    block back, with whatever count it then has, sets the field to
    [BLOCK_NONE]. *)
Theorem greedy_pop_keeps_stale_next `{FtlConfig} :
  config_ok ->
  forall st d b st1,
    wf_index st d ->
    Greedy.GetFromGcVictimList d st = Returned (b, st1) ->
    nextBlock (block st1 d b) = nextBlock (block st d b) /\
    prevBlock (block st1 d b) = BLOCK_NONE /\
    (forall k c r,
        bucket_repr st d k (b :: c :: r) ->
        nextBlock (block st1 d b) = c /\ in_bucket st1 d k c) /\
    (forall steps,
        steps_pre d steps st1 -> (forall c, ~ In (IndexOp (OpPut b c)) steps) ->
        nextBlock (block (run_steps d steps st1) d b) = nextBlock (block st d b) /\
        forall c,
          op_pre (run_steps d steps st1) d (OpPut b c) ->
          nextBlock (block (Greedy.PutToGcVictimList d b c (run_steps d steps st1)) d b)
          = BLOCK_NONE).
Proof.
  intros Hcfg st d b st1 Hwf Hret.
  pose proof (Greedy_from_next_unchanged _ _ _ _ _ Hret d b) as Enext.
  destruct (Greedy_Get_wf Hcfg st d b st1 Hwf Hret) as [Hwf1 Hno1].
  destruct (Greedy_Get_returns Hcfg st d b st1 Hwf Hret) as (Est & k0 & r0 & Hk0 & Hr0 & _).
  pose proof (member_links st d k0 [] b r0 Hr0) as (Hpv & Hnx & _ & _).
  simpl in Hpv.
  split; [assumption|]. split; [|split].
  - rewrite Est, Selective_prev, Hpv.
    destruct (_ && _); reflexivity.
  - intros k c r Hr.
    pose proof (member_links st d k [] b (c :: r) Hr) as (_ & Hnx' & _ & _).
    simpl in Hnx'. split; [congruence|].
    exists (c :: r). split; [|left; reflexivity].
    rewrite Est. apply (Selective_bucket_same Hcfg st d k [] b (c :: r)). assumption.
  - intros steps Hpre Hnot.
    destruct (run_steps_outsider Hcfg d b steps st1 Hwf1 Hno1 Hpre Hnot)
      as (Hwf2 & Hno2 & _ & En2).
    split; [congruence|].
    intros c (Hvb & Hc & _ & _).
    rewrite Put_next by (apply (outsider_not_tail Hcfg); assumption).
    rewrite Z.eqb_refl. reflexivity.
Qed.

(** C7, as the code has it.  The tick is a 32-bit counter:
    [PutToGcVictimList] with a non-zero count sets it to [tick + 1] modulo
    [2^32], which is [tick + 1] below [2^32 - 1]; a put with count 0, the
    unlink, the detach and the selection leave it as it is. *)
Theorem activity_tick_steps `{FtlConfig} :
  forall st d b c,
    (c <> 0 ->
     gcActivityTick (CostBenefit.PutToGcVictimList d b c st)
     = wrap32 (gcActivityTick st + 1) /\
     gcActivityTick (CAT.PutToGcVictimList d b c st)
     = wrap32 (gcActivityTick st + 1)) /\
    (c <> 0 -> 0 <= gcActivityTick st < 2 ^ 32 - 1 ->
     gcActivityTick (CostBenefit.PutToGcVictimList d b c st) = gcActivityTick st + 1 /\
     gcActivityTick (CAT.PutToGcVictimList d b c st) = gcActivityTick st + 1) /\
    (gcActivityTick (CostBenefit.PutToGcVictimList d b 0 st) = gcActivityTick st /\
     gcActivityTick (CAT.PutToGcVictimList d b 0 st) = gcActivityTick st) /\
    gcActivityTick (SelectiveGetFromGcVictimList d b st) = gcActivityTick st /\
    gcActivityTick (DetachBlockFromGcList d b st) = gcActivityTick st /\
    (forall fuel b' st',
        CostBenefit.GetFromGcVictimList fuel d st = Returned (b', st') \/
        CAT.GetFromGcVictimList fuel d st = Returned (b', st') ->
        gcActivityTick st' = gcActivityTick st).
Proof.
  intros st d b c.
  assert (HPut : forall d b c st,
             gcActivityTick (Greedy.PutToGcVictimList d b c st) = gcActivityTick st).
  { intros. unfold Greedy.PutToGcVictimList.
    destruct (negb _);
      rewrite ?tick_set_tailBlock, ?tick_set_headBlock, ?tick_set_nextBlock,
        ?tick_set_prevBlock; reflexivity. }
  assert (HSel : forall d b st,
             gcActivityTick (SelectiveGetFromGcVictimList d b st) = gcActivityTick st).
  { intros. unfold SelectiveGetFromGcVictimList.
    destruct (negb _ && negb _); [|destruct (_ && negb _); [|destruct (negb _ && _)]];
      rewrite ?tick_set_tailBlock, ?tick_set_headBlock, ?tick_set_nextBlock,
        ?tick_set_prevBlock; reflexivity. }
  assert (HDet : forall d b st,
             gcActivityTick (DetachBlockFromGcList d b st) = gcActivityTick st).
  { intros. unfold DetachBlockFromGcList.
    rewrite tick_set_prevBlock, tick_set_nextBlock. apply HSel. }
  assert (HStep : c <> 0 ->
     gcActivityTick (CostBenefit.PutToGcVictimList d b c st)
     = wrap32 (gcActivityTick st + 1) /\
     gcActivityTick (CAT.PutToGcVictimList d b c st)
     = wrap32 (gcActivityTick st + 1)).
  { intros Hc. unfold CostBenefit.PutToGcVictimList, CAT.PutToGcVictimList.
    destruct (Z.eqb_spec c 0); [contradiction|]. cbn [negb].
    rewrite !HPut. split; reflexivity. }
  split; [exact HStep|]. split; [|split; [|split; [|split]]].
  - intros Hc Hrange. destruct (HStep Hc) as [E1 E2]. rewrite E1, E2.
    rewrite wrap32_small by lia. split; reflexivity.
  - unfold CostBenefit.PutToGcVictimList, CAT.PutToGcVictimList.
    cbn [Z.eqb negb]. rewrite !HPut. split; reflexivity.
  - apply HSel.
  - apply HDet.
  - intros fuel b' st' [Hret|Hret];
      unfold CostBenefit.GetFromGcVictimList, CAT.GetFromGcVictimList,
        select_by_score in Hret;
      destruct (scan_buckets _ _ _ _ _ _) as [[bb bs]|]; try discriminate;
      destruct (negb _); try discriminate;
      injection Hret as _ <-; apply HDet.
Qed.

(** ** Scores *)

Section Scores.
Context `{FtlConfig}.

Lemma wrap32_range x : 0 <= wrap32 x < 2 ^ 32.
Proof. unfold wrap32. apply Z.mod_pos_bound. lia. Qed.

Lemma wrap64_range x : 0 <= wrap64 x < 2 ^ 64.
Proof. unfold wrap64. apply Z.mod_pos_bound. lia. Qed.

Lemma CostBenefit_score_nonneg st d b :
  0 <= CostBenefit.CalculateCostBenefitScore st d b.
Proof.
  unfold CostBenefit.CalculateCostBenefitScore.
  destruct (_ || _); apply wrap32_range.
Qed.

Lemma CAT_score_nonneg st d b : 0 <= CAT.CalculateCatScore st d b.
Proof.
  unfold CAT.CalculateCatScore.
  destruct (_ =? 0); apply wrap32_range.
Qed.

Lemma CostBenefit_score_formula st d b :
  config_ok ->
  0 <= invalidSliceCnt (block st d b) <= USER_PAGES_PER_BLOCK ->
  wrap32 (gcActivityTick st - gcLastTick st d b) < 2 ^ 32 - 1 ->
  CostBenefit.CalculateCostBenefitScore st d b
  = spec_cost_benefit_score (invalidSliceCnt (block st d b))
      (wrap32 (gcActivityTick st - gcLastTick st d b)) USER_PAGES_PER_BLOCK.
Proof.
  intros Hcfg HI HA.
  unfold CostBenefit.CalculateCostBenefitScore, spec_cost_benefit_score.
  pose proof (wrap32_range (gcActivityTick st - gcLastTick st d b)) as HA0.
  set (A := wrap32 (gcActivityTick st - gcLastTick st d b)) in *.
  set (I := invalidSliceCnt (block st d b)) in *.
  unfold config_ok in Hcfg.
  rewrite (wrap32_small (USER_PAGES_PER_BLOCK - I)) by lia.
  rewrite (wrap32_small (A + 1)) by lia.
  rewrite (wrap32_small (USER_PAGES_PER_BLOCK - I + 1)) by lia.
  assert (Eb : wrap64 (wrap64 (I * (A + 1)) * USER_PAGES_PER_BLOCK)
               = wrap64 (I * (A + 1) * USER_PAGES_PER_BLOCK)).
  { unfold wrap64. apply Z.mul_mod_idemp_l. lia. }
  rewrite Eb.
  destruct (Z.eqb_spec (USER_PAGES_PER_BLOCK - I + 1) 0) as [E|_]; [lia|].
  cbn [orb].
  destruct (Z.eqb_spec (wrap64 (I * (A + 1) * USER_PAGES_PER_BLOCK)) 0) as [E|_];
    [rewrite E; reflexivity|reflexivity].
Qed.

Lemma CAT_score_formula st d b :
  config_ok ->
  0 <= invalidSliceCnt (block st d b) <= USER_PAGES_PER_BLOCK ->
  wrap32 (gcActivityTick st - gcLastTick st d b) < 2 ^ 32 - 1 ->
  0 <= eraseCnt (block st d b) < 2 ^ 32 - 1 ->
  CAT.CalculateCatScore st d b
  = spec_cat_score (invalidSliceCnt (block st d b))
      (wrap32 (gcActivityTick st - gcLastTick st d b)) USER_PAGES_PER_BLOCK
      (eraseCnt (block st d b)).
Proof.
  intros Hcfg HI HA HW.
  unfold CAT.CalculateCatScore, spec_cat_score.
  pose proof (wrap32_range (gcActivityTick st - gcLastTick st d b)) as HA0.
  set (A := wrap32 (gcActivityTick st - gcLastTick st d b)) in *.
  set (I := invalidSliceCnt (block st d b)) in *.
  set (W := eraseCnt (block st d b)) in *.
  unfold config_ok in Hcfg.
  rewrite (wrap32_small (USER_PAGES_PER_BLOCK - I)) by lia.
  rewrite (wrap32_small (A + 1)) by lia.
  rewrite (wrap32_small (I + 1)) by lia.
  rewrite (wrap32_small (W + 1)) by lia.
  rewrite (wrap32_small (USER_PAGES_PER_BLOCK - I + 1)) by lia.
  assert (Hden : 0 < (USER_PAGES_PER_BLOCK - I + 1) * (W + 1) < 2 ^ 64).
  { split; [apply Z.mul_pos_pos; lia|].
    apply Z.lt_le_trans with (2 ^ 32 * 2 ^ 32); [|reflexivity].
    apply Z.mul_lt_mono_nonneg; lia. }
  rewrite (wrap64_small ((USER_PAGES_PER_BLOCK - I + 1) * (W + 1))) by lia.
  destruct (Z.eqb_spec ((USER_PAGES_PER_BLOCK - I + 1) * (W + 1)) 0); [lia|reflexivity].
Qed.

Lemma scores_at_largest_age st d b :
  wrap32 (gcActivityTick st - gcLastTick st d b) = 2 ^ 32 - 1 ->
  CostBenefit.CalculateCostBenefitScore st d b = 0 /\
  CAT.CalculateCatScore st d b = 0.
Proof.
  intros EA.
  unfold CostBenefit.CalculateCostBenefitScore, CAT.CalculateCatScore.
  rewrite EA.
  replace (wrap32 (2 ^ 32 - 1 + 1)) with 0 by reflexivity.
  rewrite !Z.mul_0_r. replace (wrap64 0) with 0 by reflexivity.
  rewrite Z.mul_0_l. replace (wrap64 0) with 0 by reflexivity.
  rewrite orb_true_r. split; [reflexivity|].
  destruct (_ =? 0); [reflexivity|]. rewrite Zdiv_0_l. reflexivity.
Qed.

End Scores.

(** C4, as the code has it.  With [I <= pages_per_block], an age below
    [2^32 - 1] and an erase count below [2^32 - 1], the Cost-Benefit score
    is [(I * (A+1) * P) / (V+1)] and the CAT score is
    [((I+1) * (A+1)) / ((V+1) * (W+1))], the products in 64 bits, the
    quotient narrowed to 32 bits, a zero product giving 0.  The [+1] on the
    age is a 32-bit addition: at [A = 2^32 - 1] it wraps to 0 and both
    scores are 0. *)
Theorem scores_follow_formulas `{FtlConfig} :
  config_ok ->
  forall st d b,
    0 <= invalidSliceCnt (block st d b) <= USER_PAGES_PER_BLOCK ->
    (wrap32 (gcActivityTick st - gcLastTick st d b) < 2 ^ 32 - 1 ->
     CostBenefit.CalculateCostBenefitScore st d b
     = spec_cost_benefit_score (invalidSliceCnt (block st d b))
         (wrap32 (gcActivityTick st - gcLastTick st d b)) USER_PAGES_PER_BLOCK) /\
    (wrap32 (gcActivityTick st - gcLastTick st d b) < 2 ^ 32 - 1 ->
     0 <= eraseCnt (block st d b) < 2 ^ 32 - 1 ->
     CAT.CalculateCatScore st d b
     = spec_cat_score (invalidSliceCnt (block st d b))
         (wrap32 (gcActivityTick st - gcLastTick st d b)) USER_PAGES_PER_BLOCK
         (eraseCnt (block st d b))) /\
    (wrap32 (gcActivityTick st - gcLastTick st d b) = 2 ^ 32 - 1 ->
     CostBenefit.CalculateCostBenefitScore st d b = 0 /\
     CAT.CalculateCatScore st d b = 0).
Proof.
  intros Hcfg st d b HI. split; [|split].
  - intros HA. apply CostBenefit_score_formula; assumption.
  - intros HA HW. apply CAT_score_formula; assumption.
  - apply scores_at_largest_age.
Qed.

(** ** What the scanning selections return *)

Section ScanResults.
Context `{FtlConfig}.
Hypothesis Hcfg : config_ok.

(** The scanning selection ends in the assertion exactly when no candidate
    has a non-zero score. *)
Lemma select_asserts_iff fuel score d st l :
  candidates st d l ->
  (Z.to_nat USER_BLOCKS_PER_DIE <= fuel)%nat ->
  (forall x, 0 <= score st d x) ->
  (select_by_score fuel score d st = AssertFailed <->
   forall c, In c l -> score st d c = 0).
Proof.
  intros Hl Hf Hpos.
  destruct (select_by_score_spec Hcfg fuel score d st l Hl Hf Hpos)
    as [[Ha Hz]|(l1 & b & l2 & -> & Hb & _ & _ & Hret)].
  - split; [intros _; exact Hz|intros _; exact Ha].
  - split.
    + intros E. rewrite E in Hret. discriminate.
    + intros Hz. specialize (Hz b (in_elt b l1 l2)). lia.
Qed.

Lemma select_two fuel score d st x y :
  candidates st d [x; y] ->
  (Z.to_nat USER_BLOCKS_PER_DIE <= fuel)%nat ->
  (forall z, 0 <= score st d z) ->
  (score st d y <= score st d x -> 0 < score st d x ->
   select_by_score fuel score d st = Returned (x, DetachBlockFromGcList d x st)) /\
  (score st d x < score st d y ->
   select_by_score fuel score d st = Returned (y, DetachBlockFromGcList d y st)).
Proof.
  intros Hl Hf Hpos.
  pose proof (Hpos x) as Hx0.
  destruct (select_by_score_spec Hcfg fuel score d st [x; y] Hl Hf Hpos)
    as [[Ha Hz]|(l1 & b & l2 & El & Hb & H1 & H2 & Hret)].
  - pose proof (Hz x ltac:(left; reflexivity)) as Zx.
    pose proof (Hz y ltac:(right; left; reflexivity)) as Zy.
    split; intros; lia.
  - destruct l1 as [|a [|a' l1]]; cbn [app] in El.
    + injection El as Eb El2. subst b l2. split; [intros; assumption|].
      intros Hlt. specialize (H2 y ltac:(left; reflexivity)). lia.
    + injection El as Ea Eb El2. subst a b l2. split; [|intros; assumption].
      intros Hle _. specialize (H1 x ltac:(left; reflexivity)). lia.
    + exfalso. injection El as _ _ El.
      apply app_cons_not_nil in El. assumption.
Qed.

End ScanResults.


(** C6, as the code has it.  Two candidates [b1] and [b2] alone on a die,
    with the same invalid count and the same age, [b1] with the lower erase
    count, the quotient of [b1] fitting 32 bits: the CAT score of [b2] is
    at most that of [b1]; when it is smaller, [GetFromGcVictimList] returns
    [b1]; when the integer quotients tie at a non-zero score, it returns
    the one that is first in the list. *)
Theorem cat_prefers_lower_wear_unless_tied `{FtlConfig} :
  config_ok ->
  forall st d l fuel b1 b2,
    candidates st d l ->
    (Z.to_nat USER_BLOCKS_PER_DIE <= fuel)%nat ->
    l = [b1; b2] \/ l = [b2; b1] ->
    invalidSliceCnt (block st d b1) = invalidSliceCnt (block st d b2) ->
    gcLastTick st d b1 = gcLastTick st d b2 ->
    0 <= eraseCnt (block st d b1) < eraseCnt (block st d b2) ->
    eraseCnt (block st d b2) < 2 ^ 32 - 1 ->
    wrap32 (gcActivityTick st - gcLastTick st d b1) < 2 ^ 32 - 1 ->
    (invalidSliceCnt (block st d b1) + 1)
    * (wrap32 (gcActivityTick st - gcLastTick st d b1) + 1)
    / ((USER_PAGES_PER_BLOCK - invalidSliceCnt (block st d b1) + 1)
       * (eraseCnt (block st d b1) + 1)) < 2 ^ 32 ->
    CAT.CalculateCatScore st d b2 <= CAT.CalculateCatScore st d b1 /\
    (CAT.CalculateCatScore st d b2 < CAT.CalculateCatScore st d b1 ->
     CAT.GetFromGcVictimList fuel d st
     = Returned (b1, DetachBlockFromGcList d b1 st)) /\
    (CAT.CalculateCatScore st d b2 = CAT.CalculateCatScore st d b1 ->
     0 < CAT.CalculateCatScore st d b1 ->
     CAT.GetFromGcVictimList fuel d st
     = Returned (hd b1 l, DetachBlockFromGcList d (hd b1 l) st)).
Proof.
  intros Hcfg st d l fuel b1 b2 Hl Hf Hshape HI HT HW HW2 HA HQ.
  assert (Hin1 : In b1 l) by (destruct Hshape as [-> | ->]; simpl; tauto).
  assert (HI1 : 0 <= invalidSliceCnt (block st d b1) <= USER_PAGES_PER_BLOCK).
  { apply (scan_order_in Hcfg st d _ l b1 Hl) in Hin1 as (k & Hk & (lk & Hr & Hin)).
    rewrite (bucket_repr_cnt st d k lk b1 Hr Hin).
    unfold config_ok in Hcfg. lia. }
  assert (Hle : CAT.CalculateCatScore st d b2 <= CAT.CalculateCatScore st d b1).
  { rewrite (CAT_score_formula st d b1 Hcfg HI1 HA) by lia.
    rewrite (CAT_score_formula st d b2 Hcfg) by (rewrite <- ?HI, <- ?HT; lia).
    rewrite <- HI, <- HT. unfold spec_cat_score.
    pose proof (wrap32_range (gcActivityTick st - gcLastTick st d b1)) as HA0.
    set (A := wrap32 (gcActivityTick st - gcLastTick st d b1)) in *.
    set (I := invalidSliceCnt (block st d b1)) in *.
    set (W1 := eraseCnt (block st d b1)) in *.
    set (W2 := eraseCnt (block st d b2)) in *.
    set (V1 := USER_PAGES_PER_BLOCK - I + 1) in *.
    unfold config_ok in Hcfg.
    assert (HN : 0 <= (I + 1) * (A + 1) < 2 ^ 64).
    { split; [apply Z.mul_nonneg_nonneg; lia|].
      apply Z.lt_le_trans with (2 ^ 32 * 2 ^ 32); [|reflexivity].
      apply Z.mul_lt_mono_nonneg; lia. }
    assert (HD : forall W, 0 <= W < 2 ^ 32 - 1 -> 0 < V1 * (W + 1) < 2 ^ 64).
    { intros W HWr. split; [apply Z.mul_pos_pos; lia|].
      apply Z.lt_le_trans with (2 ^ 32 * 2 ^ 32); [|reflexivity].
      apply Z.mul_lt_mono_nonneg; lia. }
    rewrite (wrap64_small _ HN).
    pose proof (HD W1 ltac:(lia)) as HD1.
    pose proof (HD W2 ltac:(lia)) as HD2.
    rewrite (wrap64_small (V1 * (W1 + 1))) by lia.
    rewrite (wrap64_small (V1 * (W2 + 1))) by lia.
    assert (Hq : (I + 1) * (A + 1) / (V1 * (W2 + 1))
                 <= (I + 1) * (A + 1) / (V1 * (W1 + 1))).
    { apply Z.div_le_compat_l; [lia|]. split; [lia|].
      apply Z.mul_le_mono_nonneg_l; lia. }
    assert (Hq0 : 0 <= (I + 1) * (A + 1) / (V1 * (W2 + 1))).
    { apply Z.div_pos; lia. }
    rewrite !wrap32_small by lia. assumption. }
  split; [assumption|].
  unfold CAT.GetFromGcVictimList.
  pose proof (CAT_score_nonneg st d b2) as H2pos.
  destruct Hshape as [-> | ->];
    destruct (select_two Hcfg fuel CAT.CalculateCatScore d st _ _ Hl Hf
                (CAT_score_nonneg st d)) as [Hfirst Hsecond];
    cbn [hd]; split; intros; try (apply Hfirst; lia); try (apply Hsecond; lia).
Qed.

(** C1 at the failing input (CAT build).  Block 0 has taken its first
    invalid slice and sits in bucket 1; its score is
    [(1+1)*(0+1) / ((3+1)*(0+1)) = 0], the scan never replaces
    [BLOCK_FAIL], and [GetFromGcVictimList] ends in the assertion. *)
Theorem cat_selection_asserts_with_candidate :
  @in_bucket cfg4 st_cat_fresh 0 1 0 /\
  @CAT.CalculateCatScore cfg4 st_cat_fresh 0 0 = 0 /\
  forall fuel,
    @CAT.GetFromGcVictimList cfg4 (8 + fuel) 0 st_cat_fresh = AssertFailed.
Proof.
  assert (Hcfg : @config_ok cfg4) by (unfold config_ok; cbn; lia).
  split; [|split].
  - exists [0]. split; [|left; reflexivity].
    apply bucket_reprb_sound. vm_compute. reflexivity.
  - vm_compute. reflexivity.
  - intros fuel.
    apply (select_asserts_iff (H := cfg4) Hcfg (8 + fuel)%nat
             (@CAT.CalculateCatScore cfg4) 0 st_cat_fresh [0]).
    + apply (candidates_computed (H := cfg4) 9). vm_compute. reflexivity.
    + cbn. lia.
    + apply CAT_score_nonneg.
    + intros c [<-|[]]. vm_compute. reflexivity.
Qed.

(** The same defect in the Cost-Benefit build: block 0, every slice
    invalid, of age [2^28 - 1], has the score [4 * 2^28 * 4 / 1 = 2^32],
    which narrows to 0. *)
Lemma cost_benefit_selection_asserts_with_candidate :
  @in_bucket cfg4 st_cb_old 0 4 0 /\
  @CostBenefit.CalculateCostBenefitScore cfg4 st_cb_old 0 0 = 0 /\
  forall fuel,
    @CostBenefit.GetFromGcVictimList cfg4 (8 + fuel) 0 st_cb_old = AssertFailed.
Proof.
  assert (Hcfg : @config_ok cfg4) by (unfold config_ok; cbn; lia).
  split; [|split].
  - exists [0]. split; [|left; reflexivity].
    apply bucket_reprb_sound. vm_compute. reflexivity.
  - vm_compute. reflexivity.
  - intros fuel.
    apply (select_asserts_iff (H := cfg4) Hcfg (8 + fuel)%nat
             (@CostBenefit.CalculateCostBenefitScore cfg4) 0 st_cb_old [0]).
    + apply (candidates_computed (H := cfg4) 9). vm_compute. reflexivity.
    + cbn. lia.
    + apply CostBenefit_score_nonneg.
    + intros c [<-|[]]. vm_compute. reflexivity.
Qed.

(** ** Migration engine *)

Section Engine.
Context `{FtlConfig} `{ReqFormat} `{FtlExternals}.

Lemma upd1_same {A : Type} (f : Z -> A) i v : upd1 f i v i = v.
Proof. unfold upd1. rewrite Z.eqb_refl. reflexivity. Qed.

(** One statement of the monadic body at a time. *)
Lemma run_load {A B : Type} (f : gc_machine -> A) (k : A -> M B) m :
  bind (load f) k m = k (f m) m.
Proof. reflexivity. Qed.

Lemma run_store_req {B : Type} t f (k : unit -> M B) m :
  bind (store_req t f) k m
  = k tt (mkMachine (gc_ftl m) (virtualSlice m) (logicalSlice m)
            (upd1 (reqPool m) t (f (reqPool m t))) (trace m)).
Proof. reflexivity. Qed.

Lemma run_store_logicalSlice {B : Type} l v (k : unit -> M B) m :
  bind (store_logicalSlice l v) k m
  = k tt (mkMachine (gc_ftl m) (virtualSlice m) (upd1 (logicalSlice m) l v)
            (reqPool m) (trace m ++ [EvStoreLogicalSlice l v])).
Proof. reflexivity. Qed.

Lemma run_store_virtualSlice {B : Type} v l (k : unit -> M B) m :
  bind (store_virtualSlice v l) k m
  = k tt (mkMachine (gc_ftl m) (upd1 (virtualSlice m) v l) (logicalSlice m)
            (reqPool m) (trace m ++ [EvStoreVirtualSlice v l])).
Proof. reflexivity. Qed.

Lemma run_GetFromFreeReqQ {B : Type} (k : Z -> M B) m :
  bind GetFromFreeReqQ k m
  = k (GetFromFreeReqQ_result (trace m))
      (mkMachine (gc_ftl m) (virtualSlice m) (logicalSlice m) (reqPool m)
         (trace m ++ [EvGetFromFreeReqQ (GetFromFreeReqQ_result (trace m))])).
Proof. reflexivity. Qed.

Lemma run_AllocateTempDataBuf {B : Type} d (k : Z -> M B) m :
  bind (AllocateTempDataBuf d) k m
  = k (AllocateTempDataBuf_result d (trace m))
      (mkMachine (gc_ftl m) (virtualSlice m) (logicalSlice m) (reqPool m)
         (trace m
          ++ [EvAllocateTempDataBuf d (AllocateTempDataBuf_result d (trace m))])).
Proof. reflexivity. Qed.

Lemma run_UpdateTempDataBuf {B : Type} e t (k : unit -> M B) m :
  bind (UpdateTempDataBufEntryInfoBlockingReq e t) k m
  = k tt (mkMachine (gc_ftl m) (virtualSlice m) (logicalSlice m) (reqPool m)
            (trace m ++ [EvUpdateTempDataBufEntryInfoBlockingReq e t])).
Proof. reflexivity. Qed.

Lemma run_SelectLowLevelReqQ {B : Type} t (k : unit -> M B) m :
  bind (SelectLowLevelReqQ t) k m
  = k tt (mkMachine (gc_ftl m) (virtualSlice m) (logicalSlice m) (reqPool m)
            (trace m ++ [EvSelectLowLevelReqQ t (reqPool m t)])).
Proof. reflexivity. Qed.

Lemma last_SelectLowLevelReqQ t m :
  SelectLowLevelReqQ t m
  = (tt, mkMachine (gc_ftl m) (virtualSlice m) (logicalSlice m) (reqPool m)
           (trace m ++ [EvSelectLowLevelReqQ t (reqPool m t)])).
Proof. reflexivity. Qed.

Lemma run_FindFreeVirtualSliceForGc {B : Type} d v (k : Z -> M B) m :
  bind (FindFreeVirtualSliceForGc d v) k m
  = k (FindFreeVirtualSliceForGc_result d v (trace m))
      (mkMachine (gc_ftl m) (virtualSlice m) (logicalSlice m) (reqPool m)
         (trace m
          ++ [EvFindFreeVirtualSliceForGc d v
                (FindFreeVirtualSliceForGc_result d v (trace m))])).
Proof. reflexivity. Qed.

(** The eleven stores into a slot leave nothing of what it held. *)
Lemma fill_slot code lsa entry vsa r :
  set_nandInfo_virtualSliceAddr vsa
    (set_dataBufInfo_entry entry
      (set_blockSpace REQ_OPT_BLOCK_SPACE_MAIN
        (set_rowAddrDependencyCheck REQ_OPT_ROW_ADDR_DEPENDENCY_CHECK
          (set_nandEccWarning REQ_OPT_NAND_ECC_WARNING_OFF
            (set_nandEcc REQ_OPT_NAND_ECC_ON
              (set_nandAddr REQ_OPT_NAND_ADDR_VSA
                (set_dataBufFormat REQ_OPT_DATA_BUF_TEMP_ENTRY
                  (set_logicalSliceAddr lsa
                    (set_reqCode code (set_reqType REQ_TYPE_NAND r))))))))))
  = gc_request code lsa entry vsa.
Proof. destruct r. reflexivity. Qed.

Lemma entry_after_store e r : dataBufInfo_entry (set_dataBufInfo_entry e r) = e.
Proof. reflexivity. Qed.

Lemma vsa_after_store v r :
  nandInfo_virtualSliceAddr (set_nandInfo_virtualSliceAddr v r) = v.
Proof. reflexivity. Qed.

Ltac run_statement :=
  first [ rewrite run_load | rewrite run_store_req
        | rewrite run_store_logicalSlice | rewrite run_store_virtualSlice
        | rewrite run_GetFromFreeReqQ | rewrite run_AllocateTempDataBuf
        | rewrite run_UpdateTempDataBuf | rewrite run_SelectLowLevelReqQ
        | rewrite run_FindFreeVirtualSliceForGc ];
  cbn [gc_ftl virtualSlice logicalSlice reqPool trace];
  rewrite ?upd1_same, ?entry_after_store, ?vsa_after_store, ?fill_slot.

Lemma copy_page_skip d b p m :
  live_page m d b p = false -> copy_page d b p m = (tt, m).
Proof.
  unfold live_page, copy_page. intros Hdead.
  rewrite run_load.
  destruct (negb (virtualSlice m (Vorg2VsaTranslation d b p) =? LSA_NONE));
    [|reflexivity].
  rewrite run_load. cbn [andb] in Hdead. rewrite Hdead. reflexivity.
Qed.

Lemma copy_page_live d b p m :
  live_page m d b p = true ->
  exists rtag rbuf wtag wbuf dest pool',
    snd (copy_page d b p m)
    = mkMachine (gc_ftl m)
        (upd1 (virtualSlice m) dest (virtualSlice m (Vorg2VsaTranslation d b p)))
        (upd1 (logicalSlice m) (virtualSlice m (Vorg2VsaTranslation d b p)) dest)
        pool'
        (trace m
         ++ page_events d b (virtualSlice m (Vorg2VsaTranslation d b p))
              rtag rbuf
              (gc_request REQ_CODE_READ
                 (virtualSlice m (Vorg2VsaTranslation d b p)) rbuf
                 (Vorg2VsaTranslation d b p))
              wtag wbuf dest
              (gc_request REQ_CODE_WRITE
                 (virtualSlice m (Vorg2VsaTranslation d b p)) wbuf dest)).
Proof.
  unfold live_page, copy_page. intros Hlive.
  apply andb_true_iff in Hlive as [Hl1 Hl2].
  set (v := Vorg2VsaTranslation d b p) in *.
  rewrite run_load, Hl1, run_load, Hl2.
  set (L := virtualSlice m v) in *.
  repeat run_statement.
  rewrite last_SelectLowLevelReqQ.
  cbn [gc_ftl virtualSlice logicalSlice reqPool trace snd].
  rewrite ?upd1_same, ?fill_slot.
  rewrite <- !app_assoc. cbn [app]. unfold page_events.
  do 6 eexists. reflexivity.
Qed.

Lemma for_pages_snoc (body : Z -> M unit) n : forall i m,
  snd (for_pages (S n) i body m)
  = snd (body (i + Z.of_nat n) (snd (for_pages n i body m))).
Proof.
  induction n as [|n IH]; intros i m.
  - cbn [for_pages]. unfold bind, ret. cbn [snd]. rewrite Z.add_0_r.
    destruct (body i m) as [[] m']. reflexivity.
  - change (for_pages (S (S n)) i body) with (body i ;;; for_pages (S n) (i + 1) body).
    change (for_pages (S n) i body) with (body i ;;; for_pages n (i + 1) body).
    unfold bind at 1 2. destruct (body i m) as [[] m'].
    rewrite IH. replace (i + 1 + Z.of_nat n) with (i + Z.of_nat (S n)) by lia.
    reflexivity.
Qed.

Lemma for_pages_trace d b n : forall i m,
  exists segs,
    trace (snd (for_pages n i (copy_page d b) m)) = trace m ++ concat segs /\
    Forall (page_segment d b) segs /\
    gc_ftl (snd (for_pages n i (copy_page d b) m)) = gc_ftl m.
Proof.
  induction n as [|n IH]; intros i m.
  - exists []. cbn. rewrite app_nil_r. repeat split. constructor.
  - cbn [for_pages]. unfold bind.
    destruct (live_page m d b i) eqn:Elive.
    + destruct (copy_page_live d b i m Elive)
        as (rtag & rbuf & wtag & wbuf & dest & pool' & Em).
      destruct (copy_page d b i m) as [[] m1]. cbn [snd] in Em.
      destruct (IH (i + 1) m1) as (segs & Etr & Hsegs & Eftl).
      eexists (_ :: segs). rewrite Etr, Eftl, Em. cbn [trace gc_ftl concat].
      rewrite <- app_assoc. split; [reflexivity|]. split; [|reflexivity].
      constructor; [|assumption].
      unfold page_segment. do 7 eexists. reflexivity.
    + rewrite (copy_page_skip d b i m Elive).
      destruct (IH (i + 1) m) as (segs & Etr & Hsegs & Eftl).
      exists segs. split; [assumption|]. split; assumption.
Qed.

Lemma count_submits_page d b lsa vsa rtag rbuf wtag wbuf dest :
  REQ_CODE_READ <> REQ_CODE_WRITE ->
  count_submits REQ_CODE_READ
    (page_events d b lsa rtag rbuf (gc_request REQ_CODE_READ lsa rbuf vsa)
       wtag wbuf dest (gc_request REQ_CODE_WRITE lsa wbuf dest)) = 1%nat /\
  count_submits REQ_CODE_WRITE
    (page_events d b lsa rtag rbuf (gc_request REQ_CODE_READ lsa rbuf vsa)
       wtag wbuf dest (gc_request REQ_CODE_WRITE lsa wbuf dest)) = 1%nat.
Proof.
  intros Hne. unfold count_submits, page_events.
  cbn [filter is_submit gc_request reqCode]. rewrite !Z.eqb_refl.
  destruct (Z.eqb_spec REQ_CODE_WRITE REQ_CODE_READ); [congruence|].
  destruct (Z.eqb_spec REQ_CODE_READ REQ_CODE_WRITE); [congruence|].
  split; reflexivity.
Qed.

End Engine.

(** C3. In [GarbageCollection] on a victim whose invalid count is not
    [SLICES_PER_BLOCK], page [n] is copied exactly when the double check
    passes on the tables as they are when the loop reaches it: a page that
    fails it leaves the machine as it is (no slot, no buffer, no request,
    no store); a page that passes adds the events of one READ and one
    WRITE, and the two tables then map the logical slice to the
    destination and back.  The machine [GarbageCollection] returns holds
    the two tables and the request pool as the loop leaves them after the
    last page, the index as the selection left it (with the store that
    follows the erase), and the trace of the loop followed by the erase. *)
Theorem migration_copies_live_pages `{FtlConfig} `{ReqFormat} `{FtlExternals} :
  REQ_CODE_READ <> REQ_CODE_WRITE ->
  forall (select : Z -> ftl -> outcome (Z * ftl))
         (after_erase : Z -> Z -> ftl -> ftl) d m victim f,
    select d (gc_ftl m) = Returned (victim, f) ->
    invalidSliceCnt (block f d victim) <> SLICES_PER_BLOCK ->
    (exists mfin,
        GarbageCollection_with select after_erase d m = Returned mfin /\
        gc_ftl mfin = after_erase d victim f /\
        virtualSlice mfin
        = virtualSlice
            (before_page d victim (Z.to_nat USER_PAGES_PER_BLOCK) (with_ftl f m)) /\
        logicalSlice mfin
        = logicalSlice
            (before_page d victim (Z.to_nat USER_PAGES_PER_BLOCK) (with_ftl f m)) /\
        reqPool mfin
        = reqPool
            (before_page d victim (Z.to_nat USER_PAGES_PER_BLOCK) (with_ftl f m)) /\
        trace mfin
        = trace (before_page d victim (Z.to_nat USER_PAGES_PER_BLOCK) (with_ftl f m))
          ++ [EvEraseBlock d victim]) /\
    forall n, (n < Z.to_nat USER_PAGES_PER_BLOCK)%nat ->
      let mp := before_page d victim n (with_ftl f m) in
      let m' := before_page d victim (S n) (with_ftl f m) in
      let v := Vorg2VsaTranslation d victim (Z.of_nat n) in
      let L := virtualSlice mp v in
      (live_page mp d victim (Z.of_nat n) = false -> m' = mp) /\
      (live_page mp d victim (Z.of_nat n) = true ->
       exists rtag rbuf wtag wbuf dest,
         let events :=
           page_events d victim L rtag rbuf (gc_request REQ_CODE_READ L rbuf v)
             wtag wbuf dest (gc_request REQ_CODE_WRITE L wbuf dest) in
         trace m' = trace mp ++ events /\
         count_submits REQ_CODE_READ events = 1%nat /\
         count_submits REQ_CODE_WRITE events = 1%nat /\
         logicalSlice m' L = dest /\
         virtualSlice m' dest = L).
Proof.
  intros Hne select after_erase d m victim f Hsel Hcnt. split.
  - assert (Ef : gc_ftl (before_page d victim (Z.to_nat USER_PAGES_PER_BLOCK)
                           (with_ftl f m)) = f).
    { unfold before_page.
      destruct (for_pages_trace d victim (Z.to_nat USER_PAGES_PER_BLOCK) 0 (with_ftl f m))
        as (segs & _ & _ & Ef).
      exact Ef. }
    exists (with_ftl (after_erase d victim f)
              (snd (EraseBlock d victim
                      (before_page d victim (Z.to_nat USER_PAGES_PER_BLOCK)
                         (with_ftl f m))))).
    split; [|repeat split].
    unfold GarbageCollection_with. rewrite Hsel.
    change (gc_ftl (with_ftl f m)) with f.
    destruct (Z.eqb_spec (invalidSliceCnt (block f d victim)) SLICES_PER_BLOCK);
      [contradiction|].
    cbn [negb].
    change (snd (for_pages (Z.to_nat USER_PAGES_PER_BLOCK) 0
                   (copy_page d victim) (with_ftl f m)))
      with (before_page d victim (Z.to_nat USER_PAGES_PER_BLOCK) (with_ftl f m)).
    replace (gc_ftl (snd (EraseBlock d victim
                            (before_page d victim (Z.to_nat USER_PAGES_PER_BLOCK)
                               (with_ftl f m)))))
      with f by (symmetry; exact Ef).
    reflexivity.
  - intros n Hn mp m' v L. subst m'. unfold before_page in *.
    rewrite for_pages_snoc. fold mp. rewrite Z.add_0_l. split.
    + intros Hdead. rewrite (copy_page_skip d victim _ mp Hdead). reflexivity.
    + intros Hlive.
      destruct (copy_page_live d victim _ mp Hlive)
        as (rtag & rbuf & wtag & wbuf & dest & pool' & Em).
      exists rtag, rbuf, wtag, wbuf, dest. rewrite Em. cbn [trace logicalSlice virtualSlice].
      split; [reflexivity|].
      destruct (count_submits_page d victim L v rtag rbuf wtag wbuf dest Hne) as [Cr Cw].
      split; [assumption|]. split; [assumption|].
      split; apply upd1_same.
Qed.

Lemma page_segment_order `{ReqFormat} d b seg :
  page_segment d b seg -> write_follows_updates seg.
Proof.
  intros (lsa & vsa & rtag & rbuf & wtag & wbuf & dest & ->).
  unfold write_follows_updates, page_events.
  exists [ EvGetFromFreeReqQ rtag; EvAllocateTempDataBuf d rbuf;
           EvUpdateTempDataBufEntryInfoBlockingReq rbuf rtag;
           EvSelectLowLevelReqQ rtag (gc_request REQ_CODE_READ lsa rbuf vsa);
           EvGetFromFreeReqQ wtag; EvAllocateTempDataBuf d wbuf;
           EvUpdateTempDataBufEntryInfoBlockingReq wbuf wtag;
           EvFindFreeVirtualSliceForGc d b dest ].
  exists lsa, dest, rtag, (gc_request REQ_CODE_READ lsa rbuf vsa),
    wtag, (gc_request REQ_CODE_WRITE lsa wbuf dest).
  split; [reflexivity|]. split; [simpl; tauto|]. repeat split.
Qed.

(** C9, as the code has it.  The events of one [GarbageCollection] are
    the events of the migrated pages, page after page, then the erase.  In
    the events of a page the READ is enqueued before the WRITE, and the two
    stores into the mapping tables come after the destination is allocated
    and immediately before the WRITE is enqueued. *)
Theorem migration_event_order `{FtlConfig} `{ReqFormat} `{FtlExternals} :
  forall (select : Z -> ftl -> outcome (Z * ftl))
         (after_erase : Z -> Z -> ftl -> ftl) d m victim f,
    select d (gc_ftl m) = Returned (victim, f) ->
    exists mfin segs,
      GarbageCollection_with select after_erase d m = Returned mfin /\
      trace mfin = trace m ++ concat segs ++ [EvEraseBlock d victim] /\
      Forall (page_segment d victim) segs /\
      Forall write_follows_updates segs.
Proof.
  intros select after_erase d m victim f Hsel.
  unfold GarbageCollection_with. rewrite Hsel. cbn [with_ftl gc_ftl].
  destruct (negb _).
  - destruct (for_pages_trace d victim (Z.to_nat USER_PAGES_PER_BLOCK) 0 (with_ftl f m))
      as (segs & Etr & Hsegs & _).
    change (trace (with_ftl f m)) with (trace m) in Etr.
    eexists. exists segs. split; [reflexivity|].
    unfold with_ftl at 1. unfold EraseBlock, emit. cbn [snd trace].
    rewrite Etr, <- app_assoc.
    split; [reflexivity|]. split; [assumption|].
    apply (Forall_impl _ (page_segment_order d victim) Hsegs).
  - eexists. exists []. split; [reflexivity|].
    split; [reflexivity|]. split; constructor.
Qed.

(** ** The computed checks of membership *)

Lemma in_no_listb_sound `{FtlConfig} fuel st d x :
  config_ok ->
  wf_indexb fuel st d = true -> in_no_listb fuel st d x = true ->
  in_no_list st d x.
Proof.
  intros Hcfg Hwf Hb k Hk (l & Hl & Hin).
  assert (Hrepr : bucket_repr st d k (bucket_list fuel st d k)).
  { rewrite <- (Z2Nat.id k) by lia. apply wf_indexb_bucket; [assumption|lia]. }
  rewrite (bucket_repr_unique Hcfg _ _ _ _ _ Hl Hrepr) in Hin.
  unfold in_no_listb in Hb. rewrite forallb_forall in Hb.
  specialize (Hb (Z.to_nat k)). rewrite Z2Nat.id in Hb by lia.
  assert (Hex : existsb (Z.eqb x) (bucket_list fuel st d k) = true).
  { apply existsb_exists. exists x. split; [assumption|apply Z.eqb_refl]. }
  rewrite Hex in Hb. specialize (Hb ltac:(apply in_seq; lia)). discriminate.
Qed.

Lemma cfg4_ok : @config_ok cfg4.
Proof. unfold config_ok. cbn. lia. Qed.

(** * The statements at concrete states *)

Ltac by_computation := vm_compute; repeat split; try discriminate; try reflexivity.

Lemma st_pair_wf : @wf_index cfg4 st_pair 0.
Proof. apply (wf_indexb_sound (H := cfg4) 9). vm_compute. reflexivity. Qed.

Lemma st_pair_bucket : @bucket_repr cfg4 st_pair 0 1 [0; 1].
Proof. apply bucket_reprb_sound. vm_compute. reflexivity. Qed.

(** C2 at the bucket [0; 1]: block 2 (no invalid slice, in no list) is put
    in bucket 0, block 1 is unlinked from bucket 1. *)
Lemma index_well_formedness_preserved_witness :
  @config_ok cfg4 /\
  @index_well_formed cfg4 st_pair 0 /\
  @index_well_formed cfg4 (@Greedy.PutToGcVictimList cfg4 0 2 0 st_pair) 0 /\
  @index_well_formed cfg4 (@SelectiveGetFromGcVictimList cfg4 0 1 st_pair) 0.
Proof.
  assert (Hwf : @index_well_formed cfg4 st_pair 0).
  { apply (wf_index_well_formed (H := cfg4) cfg4_ok). exact st_pair_wf. }
  split; [exact cfg4_ok|]. split; [exact Hwf|].
  destruct (@index_well_formedness_preserved cfg4 cfg4_ok st_pair 0 Hwf)
    as (HPut & HSel & _).
  split.
  - apply (HPut 2 0).
    + by_computation.
    + by_computation.
    + by_computation.
    + apply (in_no_listb_sound (H := cfg4) 9); [exact cfg4_ok| |]; by_computation.
  - apply (HSel 1 1).
    + by_computation.
    + exists [0; 1]. split; [exact st_pair_bucket|right; left; reflexivity].
Defined.



Lemma life_after_pop_pre :
  @steps_pre cfg4 0 life_after_pop (@SelectiveGetFromGcVictimList cfg4 0 0 st_pair).
Proof.
  unfold life_after_pop. cbn [steps_pre step_pre op_pre run_step run_op].
  split.
  { exists 1. split; [cbn; lia|]. exists [1].
    split; [apply bucket_reprb_sound; vm_compute; reflexivity|left; reflexivity]. }
  split.
  { apply (in_no_listb_sound (H := cfg4) 9); [exact cfg4_ok| |]; vm_compute; reflexivity. }
  split.
  { split; [vm_compute; split; [discriminate|reflexivity]|].
    split; [cbn; lia|]. split; [vm_compute; reflexivity|].
    apply (in_no_listb_sound (H := cfg4) 9); [exact cfg4_ok| |]; vm_compute; reflexivity. }
  split.
  { apply (in_no_listb_sound (H := cfg4) 9); [exact cfg4_ok| |]; vm_compute; reflexivity. }
  split; [exact I|]. split; [|exact I].
  apply (in_no_listb_sound (H := cfg4) 9); [exact cfg4_ok| |]; vm_compute; reflexivity.
Qed.

(** C10 at the bucket [0; 1]: block 0 is popped, its [nextBlock] still
    names block 1, which is now the head of bucket 1.  Block 1 then moves
    to bucket 2, block 0 is erased and takes a new invalid slice: its
    [nextBlock] still names block 1, and its put into bucket 1 sets the
    field to [BLOCK_NONE]. *)
Lemma greedy_pop_keeps_stale_next_witness :
  @config_ok cfg4 /\
  @wf_index cfg4 st_pair 0 /\
  @Greedy.GetFromGcVictimList cfg4 0 st_pair
  = Returned (0, @SelectiveGetFromGcVictimList cfg4 0 0 st_pair) /\
  nextBlock (block (@SelectiveGetFromGcVictimList cfg4 0 0 st_pair) 0 0) = 1 /\
  @in_bucket cfg4 (@SelectiveGetFromGcVictimList cfg4 0 0 st_pair) 0 1 1 /\
  prevBlock (block (@SelectiveGetFromGcVictimList cfg4 0 0 st_pair) 0 0)
  = @BLOCK_NONE cfg4 /\
  @steps_pre cfg4 0 life_after_pop (@SelectiveGetFromGcVictimList cfg4 0 0 st_pair) /\
  nextBlock
    (block (@run_steps cfg4 0 life_after_pop
              (@SelectiveGetFromGcVictimList cfg4 0 0 st_pair)) 0 0) = 1 /\
  nextBlock
    (block (@Greedy.PutToGcVictimList cfg4 0 0 1
              (@run_steps cfg4 0 life_after_pop
                 (@SelectiveGetFromGcVictimList cfg4 0 0 st_pair))) 0 0)
  = @BLOCK_NONE cfg4.
Proof.
  assert (Hret : @Greedy.GetFromGcVictimList cfg4 0 st_pair
                 = Returned (0, @SelectiveGetFromGcVictimList cfg4 0 0 st_pair)).
  { vm_compute. reflexivity. }
  split; [exact cfg4_ok|]. split; [exact st_pair_wf|]. split; [exact Hret|].
  destruct (@greedy_pop_keeps_stale_next cfg4 cfg4_ok st_pair 0 0 _ st_pair_wf Hret)
    as (Hsame & Hprev & Hsecond & Hlife).
  destruct (Hsecond 1 1 [] st_pair_bucket) as [Hn Hin].
  split; [exact Hn|]. split; [exact Hin|]. split; [exact Hprev|].
  split; [exact life_after_pop_pre|].
  destruct (Hlife life_after_pop life_after_pop_pre) as [Hstale Hput].
  { intros c Hin0. unfold life_after_pop in Hin0. cbn [In] in Hin0.
    repeat (destruct Hin0 as [Hin0|Hin0]; [discriminate|]). exact Hin0. }
  split; [rewrite Hstale, <- Hsame; exact Hn|].
  apply Hput.
  split; [vm_compute; split; [discriminate|reflexivity]|].
  split; [cbn; lia|]. split; [vm_compute; reflexivity|].
  apply (in_no_listb_sound (H := cfg4) 9); [exact cfg4_ok| |]; vm_compute; reflexivity.
Defined.

(** C7 at the largest tick: the put takes the tick from [2^32 - 1] to 0. *)
Lemma activity_tick_wraps :
  gcActivityTick st_tick_max = 2 ^ 32 - 1 /\
  gcActivityTick (@CostBenefit.PutToGcVictimList cfg4 0 0 1 st_tick_max) = 0 /\
  ~ (gcActivityTick st_tick_max
     <= gcActivityTick (@CostBenefit.PutToGcVictimList cfg4 0 0 1 st_tick_max)).
Proof.
  split; [vm_compute; reflexivity|]. split; [vm_compute; reflexivity|].
  intros Hle. vm_compute in Hle. apply Hle. reflexivity.
Qed.

Lemma activity_tick_steps_witness :
  1 <> 0 /\ 0 <= gcActivityTick st_boot < 2 ^ 32 - 1 /\
  gcActivityTick (@CostBenefit.PutToGcVictimList cfg4 0 0 1 st_boot)
  = gcActivityTick st_boot + 1 /\
  gcActivityTick (@CAT.PutToGcVictimList cfg4 0 0 1 st_boot)
  = gcActivityTick st_boot + 1.
Proof.
  assert (Hc : 1 <> 0) by discriminate.
  assert (Hr : 0 <= gcActivityTick st_boot < 2 ^ 32 - 1) by by_computation.
  split; [exact Hc|]. split; [exact Hr|].
  destruct (@activity_tick_steps cfg4 st_boot 0 0 1) as (_ & Hstep & _).
  exact (Hstep Hc Hr).
Defined.

(** C4 at the largest age: block 0 has two invalid slices of four and age
    [2^32 - 1]; the code answers 0, the formula [2^35 / 3] narrowed to 32
    bits. *)
Lemma cost_benefit_score_wraps_at_largest_age :
  @in_bucket cfg4 st_age_max 0 2 0 /\
  wrap32 (gcActivityTick st_age_max - gcLastTick st_age_max 0 0) = 2 ^ 32 - 1 /\
  @CostBenefit.CalculateCostBenefitScore cfg4 st_age_max 0 0 = 0 /\
  spec_cost_benefit_score (invalidSliceCnt (block st_age_max 0 0))
    (wrap32 (gcActivityTick st_age_max - gcLastTick st_age_max 0 0))
    (@USER_PAGES_PER_BLOCK cfg4) = 2863311530 /\
  @CostBenefit.CalculateCostBenefitScore cfg4 st_age_max 0 0
  <> spec_cost_benefit_score (invalidSliceCnt (block st_age_max 0 0))
       (wrap32 (gcActivityTick st_age_max - gcLastTick st_age_max 0 0))
       (@USER_PAGES_PER_BLOCK cfg4).
Proof.
  split.
  - exists [0]. split; [|left; reflexivity].
    apply bucket_reprb_sound. vm_compute. reflexivity.
  - by_computation.
Qed.

Lemma scores_follow_formulas_witness :
  @config_ok cfg4 /\
  0 <= invalidSliceCnt (block st_cb_two 0 1) <= @USER_PAGES_PER_BLOCK cfg4 /\
  wrap32 (gcActivityTick st_cb_two - gcLastTick st_cb_two 0 1) < 2 ^ 32 - 1 /\
  @CostBenefit.CalculateCostBenefitScore cfg4 st_cb_two 0 1
  = spec_cost_benefit_score 3 100 4 /\
  @CAT.CalculateCatScore cfg4 (st_cat_two 1000 10) 0 1 = spec_cat_score 3 10 4 10.
Proof.
  assert (HI : 0 <= invalidSliceCnt (block st_cb_two 0 1) <= @USER_PAGES_PER_BLOCK cfg4)
    by by_computation.
  assert (HA : wrap32 (gcActivityTick st_cb_two - gcLastTick st_cb_two 0 1) < 2 ^ 32 - 1)
    by by_computation.
  split; [exact cfg4_ok|]. split; [exact HI|]. split; [exact HA|]. split.
  - destruct (@scores_follow_formulas cfg4 cfg4_ok st_cb_two 0 1 HI) as (Hcb & _ & _).
    exact (Hcb HA).
  - assert (HI' : 0 <= invalidSliceCnt (block (st_cat_two 1000 10) 0 1)
                  <= @USER_PAGES_PER_BLOCK cfg4) by by_computation.
    assert (HA' : wrap32 (gcActivityTick (st_cat_two 1000 10)
                          - gcLastTick (st_cat_two 1000 10) 0 1) < 2 ^ 32 - 1)
      by by_computation.
    assert (HW' : 0 <= eraseCnt (block (st_cat_two 1000 10) 0 1) < 2 ^ 32 - 1)
      by by_computation.
    destruct (@scores_follow_formulas cfg4 cfg4_ok (st_cat_two 1000 10) 0 1 HI')
      as (_ & Hcat & _).
    exact (Hcat HA' HW').
Defined.



(** C6 at a tie: blocks 0 and 1 in bucket 3, both of age 10, erase counts
    6 and 5; both scores are [44 / 14 = 44 / 12 = 3], and block 0, of the
    higher erase count and first in the list, is returned. *)
Lemma cat_tie_returns_higher_wear :
  @candidates cfg4 (st_cat_two 6 5) 0 [0; 1] /\
  invalidSliceCnt (block (st_cat_two 6 5) 0 0)
  = invalidSliceCnt (block (st_cat_two 6 5) 0 1) /\
  gcLastTick (st_cat_two 6 5) 0 0 = gcLastTick (st_cat_two 6 5) 0 1 /\
  eraseCnt (block (st_cat_two 6 5) 0 1) < eraseCnt (block (st_cat_two 6 5) 0 0) /\
  @CAT.GetFromGcVictimList cfg4 9 0 (st_cat_two 6 5)
  = Returned (0, @DetachBlockFromGcList cfg4 0 0 (st_cat_two 6 5)) /\
  @CAT.GetFromGcVictimList cfg4 9 0 (st_cat_two 6 5)
  <> Returned (1, @DetachBlockFromGcList cfg4 0 1 (st_cat_two 6 5)).
Proof.
  split.
  - apply (candidates_computed (H := cfg4) 9). vm_compute. reflexivity.
  - split; [by_computation|]. split; [by_computation|]. split; [by_computation|].
    assert (Hret : @CAT.GetFromGcVictimList cfg4 9 0 (st_cat_two 6 5)
                   = Returned (0, @DetachBlockFromGcList cfg4 0 0 (st_cat_two 6 5))).
    { vm_compute. reflexivity. }
    split; [exact Hret|]. rewrite Hret. intros E.
    apply (f_equal (fun o : outcome (Z * ftl) =>
                      match o with Returned (b, _) => b | _ => 0 end)) in E.
    cbv beta iota in E. discriminate.
Qed.

(** C6 at the specification's fourth scenario: erase counts 1000 (block 0)
    and 10 (block 1); the scores are 0 and 2 and block 1 is returned. *)
Lemma cat_prefers_lower_wear_unless_tied_witness :
  @config_ok cfg4 /\
  @candidates cfg4 (st_cat_two 1000 10) 0 [0; 1] /\
  0 <= eraseCnt (block (st_cat_two 1000 10) 0 1)
    < eraseCnt (block (st_cat_two 1000 10) 0 0) /\
  @CAT.CalculateCatScore cfg4 (st_cat_two 1000 10) 0 0
  < @CAT.CalculateCatScore cfg4 (st_cat_two 1000 10) 0 1 /\
  @CAT.GetFromGcVictimList cfg4 9 0 (st_cat_two 1000 10)
  = Returned (1, @DetachBlockFromGcList cfg4 0 1 (st_cat_two 1000 10)).
Proof.
  assert (Hl : @candidates cfg4 (st_cat_two 1000 10) 0 [0; 1]).
  { apply (candidates_computed (H := cfg4) 9). vm_compute. reflexivity. }
  assert (HW : 0 <= eraseCnt (block (st_cat_two 1000 10) 0 1)
               < eraseCnt (block (st_cat_two 1000 10) 0 0)) by by_computation.
  assert (Hlt : @CAT.CalculateCatScore cfg4 (st_cat_two 1000 10) 0 0
                < @CAT.CalculateCatScore cfg4 (st_cat_two 1000 10) 0 1)
    by by_computation.
  split; [exact cfg4_ok|]. split; [exact Hl|]. split; [exact HW|]. split; [exact Hlt|].
  assert (Hf : (Z.to_nat (@USER_BLOCKS_PER_DIE cfg4) <= 9)%nat) by (cbn; lia).
  assert (HI : invalidSliceCnt (block (st_cat_two 1000 10) 0 1)
               = invalidSliceCnt (block (st_cat_two 1000 10) 0 0)) by by_computation.
  assert (HT : gcLastTick (st_cat_two 1000 10) 0 1 = gcLastTick (st_cat_two 1000 10) 0 0)
    by by_computation.
  assert (HW2 : eraseCnt (block (st_cat_two 1000 10) 0 0) < 2 ^ 32 - 1) by by_computation.
  assert (HA : wrap32 (gcActivityTick (st_cat_two 1000 10)
                       - gcLastTick (st_cat_two 1000 10) 0 1) < 2 ^ 32 - 1)
    by by_computation.
  assert (HQ : (invalidSliceCnt (block (st_cat_two 1000 10) 0 1) + 1)
               * (wrap32 (gcActivityTick (st_cat_two 1000 10)
                          - gcLastTick (st_cat_two 1000 10) 0 1) + 1)
               / ((@USER_PAGES_PER_BLOCK cfg4
                   - invalidSliceCnt (block (st_cat_two 1000 10) 0 1) + 1)
                  * (eraseCnt (block (st_cat_two 1000 10) 0 1) + 1)) < 2 ^ 32)
    by by_computation.
  destruct (@cat_prefers_lower_wear_unless_tied cfg4 cfg4_ok (st_cat_two 1000 10) 0
              [0; 1] 9 1 0 Hl Hf (or_intror eq_refl) HI HT HW HW2 HA HQ)
    as (_ & Hlow & _).
  exact (Hlow Hlt).
Defined.

Lemma m_mixed_selection :
  @Greedy.GetFromGcVictimList cfg4 0 (gc_ftl m_mixed)
  = Returned (0, @SelectiveGetFromGcVictimList cfg4 0 0 (gc_ftl m_mixed)).
Proof. vm_compute. reflexivity. Qed.

(** C3 at the specification's second scenario: the victim has three
    invalid slices and one live page, page 2, which holds logical slice
    7.  In the machine the collection returns, logical slice 7 maps to the
    destination, slice 107, and back. *)
Lemma migration_copies_live_pages_witness :
  @REQ_CODE_READ req4 <> @REQ_CODE_WRITE req4 /\
  @live_page cfg4 ext4
    (@before_page cfg4 req4 ext4 0 0 2
       (with_ftl (@SelectiveGetFromGcVictimList cfg4 0 0 (gc_ftl m_mixed)) m_mixed))
    0 0 2 = true /\
  logicalSlice m_mixed 7 = 2 /\
  (exists mfin,
      @Greedy_GarbageCollection cfg4 req4 ext4 0 m_mixed = Returned mfin /\
      logicalSlice mfin 7 = 107 /\
      virtualSlice mfin 107 = 7) /\
  (exists dest,
      logicalSlice
        (@before_page cfg4 req4 ext4 0 0 3
           (with_ftl (@SelectiveGetFromGcVictimList cfg4 0 0 (gc_ftl m_mixed)) m_mixed))
        7 = dest /\
      virtualSlice
        (@before_page cfg4 req4 ext4 0 0 3
           (with_ftl (@SelectiveGetFromGcVictimList cfg4 0 0 (gc_ftl m_mixed)) m_mixed))
        dest = 7).
Proof.
  assert (Hne : @REQ_CODE_READ req4 <> @REQ_CODE_WRITE req4) by discriminate.
  assert (Hlive : @live_page cfg4 ext4
    (@before_page cfg4 req4 ext4 0 0 2
       (with_ftl (@SelectiveGetFromGcVictimList cfg4 0 0 (gc_ftl m_mixed)) m_mixed))
    0 0 2 = true) by (vm_compute; reflexivity).
  split; [exact Hne|]. split; [exact Hlive|]. split; [reflexivity|].
  destruct (@migration_copies_live_pages cfg4 req4 ext4 Hne
              (@Greedy.GetFromGcVictimList cfg4) (fun _ _ f => f) 0 m_mixed 0 _
              m_mixed_selection)
    as [(mfin & Hgc & _ & Ev & El & _ & _) Hpages].
  { by_computation. }
  split.
  { exists mfin. split; [exact Hgc|]. rewrite El, Ev.
    split; vm_compute; reflexivity. }
  destruct (Hpages 2%nat ltac:(cbn; lia)) as [_ Hcopy].
  destruct (Hcopy Hlive) as (rtag & rbuf & wtag & wbuf & dest & _ & _ & _ & HL & HV).
  exists dest. split; [exact HL|exact HV].
Defined.

(** C9 at the same run: the WRITE is enqueued as event 10, the stores into
    the mapping tables are events 8 and 9, and event 11 is the erase. *)
Lemma mapping_updates_precede_write_enqueue :
  nth_error (gc_trace (@Greedy_GarbageCollection cfg4 req4 ext4 0 m_mixed)) 8
  = Some (EvStoreLogicalSlice 7 107) /\
  nth_error (gc_trace (@Greedy_GarbageCollection cfg4 req4 ext4 0 m_mixed)) 9
  = Some (EvStoreVirtualSlice 107 7) /\
  nth_error (gc_trace (@Greedy_GarbageCollection cfg4 req4 ext4 0 m_mixed)) 10
  = Some (EvSelectLowLevelReqQ 4 (@gc_request req4 0 7 5 107)) /\
  ~ @updates_follow_write req4
      (gc_trace (@Greedy_GarbageCollection cfg4 req4 ext4 0 m_mixed)).
Proof.
  assert (Hw : nth_error (gc_trace (@Greedy_GarbageCollection cfg4 req4 ext4 0 m_mixed)) 10
               = Some (EvSelectLowLevelReqQ 4 (@gc_request req4 0 7 5 107))).
  { vm_compute. reflexivity. }
  split; [vm_compute; reflexivity|]. split; [vm_compute; reflexivity|].
  split; [exact Hw|].
  intros Hfollow. destruct (Hfollow 10%nat 4 _ Hw eq_refl) as [E _].
  vm_compute in E. discriminate.
Qed.

Lemma migration_event_order_witness :
  @Greedy.GetFromGcVictimList cfg4 0 (gc_ftl m_mixed)
  = Returned (0, @SelectiveGetFromGcVictimList cfg4 0 0 (gc_ftl m_mixed)) /\
  exists mfin segs,
    @Greedy_GarbageCollection cfg4 req4 ext4 0 m_mixed = Returned mfin /\
    trace mfin = trace m_mixed ++ concat segs ++ [EvEraseBlock 0 0] /\
    Forall (@write_follows_updates req4) segs.
Proof.
  split; [exact m_mixed_selection|].
  destruct (@migration_event_order cfg4 req4 ext4
              (@Greedy.GetFromGcVictimList cfg4) (fun _ _ f => f) 0 m_mixed 0 _
              m_mixed_selection)
    as (mfin & segs & Hgc & Htr & _ & Hord).
  exists mfin, segs. split; [exact Hgc|]. split; [exact Htr|exact Hord].
Defined.

(** * Further properties of the index operations *)

Section IndexFurther.
Context `{FtlConfig}.
Hypothesis Hcfg : config_ok.

Lemma init_lists_bucket st d k :
  0 <= d < USER_DIES -> 0 <= k <= SLICES_PER_BLOCK ->
  bucket_repr (init_lists st) d k [] /\ bucket_repr (init_lists (init_ticks st)) d k [].
Proof.
  intros Hd Hk.
  assert (E : forall st0, gcVictimList (init_lists st0) d k
                          = mkListEntry (wrap16 BLOCK_NONE) (wrap16 BLOCK_NONE)).
  { intros st0. unfold init_lists. cbn [gcVictimList].
    destruct (Z.leb_spec 0 d); [|lia]. destruct (Z.ltb_spec d USER_DIES); [|lia].
    destruct (Z.leb_spec 0 k); [|lia].
    destruct (Z.ltb_spec k (SLICES_PER_BLOCK + 1)); [|lia]. reflexivity. }
  split; unfold bucket_repr; rewrite E; cbn [headBlock tailBlock hd last dllseg];
    rewrite (none_wrap16 Hcfg); repeat split; constructor.
Qed.

(** With every list head at [BLOCK_NONE] the scan leaves each bucket at
    once, whatever the fuel. *)
Lemma scan_buckets_empty fuel score_of st d n : forall best,
  (forall k, 1 <= k <= Z.of_nat n -> headBlock (gcVictimList st d k) = BLOCK_NONE) ->
  scan_buckets fuel score_of st d n best = Some best.
Proof.
  induction n as [|n IH]; intros best Hempty; [reflexivity|].
  cbn [scan_buckets]. rewrite (Hempty (Z.of_nat (S n))) by lia.
  assert (E : scan_bucket fuel score_of st d BLOCK_NONE best = Some best).
  { destruct fuel; cbn [scan_bucket]; rewrite Z.eqb_refl; reflexivity. }
  rewrite E. apply IH. intros k Hk. apply Hempty. lia.
Qed.

Lemma select_empty fuel score d st :
  (forall k, 1 <= k <= SLICES_PER_BLOCK -> headBlock (gcVictimList st d k) = BLOCK_NONE) ->
  select_by_score fuel score d st = AssertFailed.
Proof.
  intros Hempty. unfold select_by_score.
  rewrite scan_buckets_empty.
  - rewrite Z.eqb_refl. reflexivity.
  - intros k Hk. apply Hempty. unfold config_ok in Hcfg. lia.
Qed.

Lemma outsider_links_bucket st d b vp vn k l :
  bucket_repr st d k l -> ~ In b l ->
  bucket_repr (set_prevBlock d b vp (set_nextBlock d b vn st)) d k l.
Proof.
  intros Hl Hnin. apply (bucket_repr_frame st); [| | |assumption].
  - intros x Hx.
    assert (Hxb : x <> b) by (intros E; subst; contradiction).
    rewrite prev_set_prevBlock, next_set_prevBlock, prev_set_nextBlock,
      next_set_nextBlock, cnt_set_prevBlock, cnt_set_nextBlock.
    destruct (Z.eqb_spec x b); [contradiction|]. repeat split.
  - reflexivity.
  - reflexivity.
Qed.

Lemma Detach_bucket_same st d k l1 b l2 :
  bucket_repr st d k (l1 ++ b :: l2) ->
  bucket_repr (DetachBlockFromGcList d b st) d k (l1 ++ l2).
Proof.
  intros Hr. unfold DetachBlockFromGcList. apply outsider_links_bucket.
  - apply (Selective_bucket_same Hcfg). assumption.
  - pose proof (bucket_repr_NoDup Hcfg _ _ _ _ Hr) as Hnd.
    apply NoDup_middle in Hnd as (_ & _ & Hb1 & Hb2 & _).
    intros Hin. apply in_app_or in Hin as [?|?]; contradiction.
Qed.

Lemma Detach_bucket_other st d k l1 b l2 k' l' :
  bucket_repr st d k (l1 ++ b :: l2) -> k' <> k ->
  bucket_repr st d k' l' ->
  bucket_repr (DetachBlockFromGcList d b st) d k' l'.
Proof.
  intros Hr Hk Hr'. unfold DetachBlockFromGcList. apply outsider_links_bucket.
  - apply (Selective_bucket_other st d k l1 b l2); assumption.
  - intros Hin. apply Hk. apply (in_bucket_exclusive st d k' k b).
    + exists l'. split; assumption.
    + exists (l1 ++ b :: l2). split; [assumption|apply in_elt].
Qed.

(** The Greedy selection pops the head of the highest non-empty bucket. *)
Lemma Greedy_Get_head st d k x r :
  wf_index st d -> 1 <= k <= SLICES_PER_BLOCK ->
  bucket_repr st d k (x :: r) ->
  (forall k', k < k' <= SLICES_PER_BLOCK -> bucket_repr st d k' []) ->
  Greedy.GetFromGcVictimList d st
  = Returned (x, SelectiveGetFromGcVictimList d x st).
Proof.
  intros Hwf Hk Hr Hhigher.
  assert (HS : 0 <= SLICES_PER_BLOCK) by (unfold config_ok in Hcfg; lia).
  destruct (Greedy_from_spec Hcfg st d (Z.to_nat SLICES_PER_BLOCK))
    as [[_ He]|(k0 & x0 & r0 & Hk0 & Hr0 & He0 & Hret)].
  - intros k' Hk'. apply Hwf. lia.
  - exfalso. rewrite Z2Nat.id in He by assumption.
    pose proof (bucket_repr_unique Hcfg _ _ _ _ _ Hr (He k Hk)). discriminate.
  - rewrite Z2Nat.id in Hk0, He0 by assumption.
    assert (Ek : k0 = k).
    { destruct (Z.lt_trichotomy k0 k) as [Hlt|[E|Hgt]]; [|assumption|].
      - pose proof (bucket_repr_unique Hcfg _ _ _ _ _ Hr (He0 k ltac:(lia))).
        discriminate.
      - pose proof (bucket_repr_unique Hcfg _ _ _ _ _ Hr0 (Hhigher k0 ltac:(lia))).
        discriminate. }
    subst k0.
    pose proof (bucket_repr_unique Hcfg _ _ _ _ _ Hr Hr0) as E.
    injection E as <- <-. exact Hret.
Qed.

End IndexFurther.

(** X1. After [InitGcVictimMap] every bucket of every user die is empty in
    the three builds, the Cost-Benefit and CAT tick and tick tables are 0,
    the block entries are untouched, and a [GetFromGcVictimList] that
    follows ends in the assertion. *)
Theorem init_gives_empty_index `{FtlConfig} :
  config_ok ->
  forall st d, 0 <= d < USER_DIES ->
    (forall k, 0 <= k <= SLICES_PER_BLOCK ->
       bucket_repr (Greedy.InitGcVictimMap st) d k [] /\
       bucket_repr (CostBenefit.InitGcVictimMap st) d k [] /\
       bucket_repr (CAT.InitGcVictimMap st) d k []) /\
    gcActivityTick (CostBenefit.InitGcVictimMap st) = 0 /\
    gcActivityTick (CAT.InitGcVictimMap st) = 0 /\
    (forall b, valid_block b ->
       gcLastTick (CostBenefit.InitGcVictimMap st) d b = 0 /\
       gcLastTick (CAT.InitGcVictimMap st) d b = 0) /\
    block (Greedy.InitGcVictimMap st) = block st /\
    block (CostBenefit.InitGcVictimMap st) = block st /\
    block (CAT.InitGcVictimMap st) = block st /\
    Greedy.GetFromGcVictimList d (Greedy.InitGcVictimMap st) = AssertFailed /\
    (forall fuel,
       CostBenefit.GetFromGcVictimList fuel d (CostBenefit.InitGcVictimMap st)
       = AssertFailed /\
       CAT.GetFromGcVictimList fuel d (CAT.InitGcVictimMap st) = AssertFailed).
Proof.
  intros Hcfg st d Hd.
  assert (HS : 0 <= SLICES_PER_BLOCK) by (unfold config_ok in Hcfg; lia).
  assert (Hb : forall k, 0 <= k <= SLICES_PER_BLOCK ->
             bucket_repr (Greedy.InitGcVictimMap st) d k [] /\
             bucket_repr (CostBenefit.InitGcVictimMap st) d k [] /\
             bucket_repr (CAT.InitGcVictimMap st) d k []).
  { intros k Hk. destruct (init_lists_bucket Hcfg st d k Hd Hk) as [H1 H2].
    split; [exact H1|]. split; exact H2. }
  split; [exact Hb|]. split; [reflexivity|]. split; [reflexivity|]. split.
  - intros b Hvb. unfold CostBenefit.InitGcVictimMap, CAT.InitGcVictimMap,
      init_lists, init_ticks. cbn [gcLastTick]. unfold valid_block in Hvb.
    destruct (Z.leb_spec 0 d); [|lia]. destruct (Z.ltb_spec d USER_DIES); [|lia].
    destruct (Z.leb_spec 0 b); [|lia].
    destruct (Z.ltb_spec b USER_BLOCKS_PER_DIE); [|lia]. split; reflexivity.
  - split; [reflexivity|]. split; [reflexivity|]. split; [reflexivity|]. split.
    + apply (Greedy_Get_asserts_iff Hcfg).
      * intros k Hk. exists []. apply Hb. assumption.
      * intros k Hk. apply Hb. lia.
    + intros fuel. split; apply (select_empty Hcfg); intros k Hk;
        destruct (Hb k ltac:(lia)) as (_ & H2 & H3).
      * apply H2.
      * apply H3.
Qed.

(** X2. [PutToGcVictimList] of a block that is in no list, with its
    current invalid count [c], appends it to bucket [c]: the bucket holds
    its former blocks in their order and then the block, which is the new
    tail (and the head when the bucket was empty); every other bucket holds
    what it held.  The same in the three builds. *)
Theorem put_appends_at_tail `{FtlConfig} :
  config_ok ->
  forall st d b c l,
    wf_index st d -> valid_block b -> 0 <= c <= SLICES_PER_BLOCK ->
    invalidSliceCnt (block st d b) = c -> in_no_list st d b ->
    bucket_repr st d c l ->
    forall put,
      put = Greedy.PutToGcVictimList \/ put = CostBenefit.PutToGcVictimList \/
      put = CAT.PutToGcVictimList ->
      bucket_repr (put d b c st) d c (l ++ [b]) /\
      tailBlock (gcVictimList (put d b c st) d c) = b /\
      (l = [] -> headBlock (gcVictimList (put d b c st) d c) = b) /\
      (forall k l', 0 <= k <= SLICES_PER_BLOCK -> k <> c ->
         bucket_repr st d k l' -> bucket_repr (put d b c st) d k l').
Proof.
  intros Hcfg st d b c l Hwf Hvb Hc Hcb Hno Hl put Hput.
  assert (Hnin : ~ In b l).
  { intros Hin. apply (Hno c Hc). exists l. split; assumption. }
  assert (Hgen : forall st0,
             block st0 = block st -> gcVictimList st0 = gcVictimList st ->
             bucket_repr (Greedy.PutToGcVictimList d b c st0) d c (l ++ [b]) /\
             (forall k l', 0 <= k <= SLICES_PER_BLOCK -> k <> c ->
                bucket_repr st d k l' ->
                bucket_repr (Greedy.PutToGcVictimList d b c st0) d k l')).
  { intros st0 Eb El.
    assert (Hl0 : bucket_repr st0 d c l)
      by (apply (bucket_repr_same_index st); assumption).
    split.
    - apply (Put_bucket_same Hcfg); try assumption. rewrite Eb. assumption.
    - intros k l' Hk Hne Hl'.
      apply (Put_bucket_other Hcfg st0 d b c k l' l); try assumption.
      + apply (bucket_repr_same_index st); assumption.
      + intros Hin. apply (Hno k Hk). exists l'. split; assumption. }
  assert (Hmain : bucket_repr (put d b c st) d c (l ++ [b]) /\
                  (forall k l', 0 <= k <= SLICES_PER_BLOCK -> k <> c ->
                     bucket_repr st d k l' -> bucket_repr (put d b c st) d k l')).
  { destruct Hput as [-> |[-> | ->]].
    - apply Hgen; reflexivity.
    - unfold CostBenefit.PutToGcVictimList.
      destruct (negb (c =? 0)); apply Hgen; reflexivity.
    - unfold CAT.PutToGcVictimList.
      destruct (negb (c =? 0)); apply Hgen; reflexivity. }
  destruct Hmain as [Hnew Hother].
  split; [exact Hnew|]. pose proof Hnew as (Hh & Ht & _).
  split; [rewrite Ht; apply last_last|]. split; [|exact Hother].
  intros ->. rewrite Hh. reflexivity.
Qed.

(** X3. [SelectiveGetFromGcVictimList] of a member of bucket [k] takes
    exactly that block out: the bucket keeps its other blocks in their
    order, every other bucket holds what it held, and the block is in no
    list afterwards.  The same for [DetachBlockFromGcList]. *)
Theorem unlink_removes_only_the_block `{FtlConfig} :
  config_ok ->
  forall st d k l1 b l2,
    wf_index st d -> 0 <= k <= SLICES_PER_BLOCK ->
    bucket_repr st d k (l1 ++ b :: l2) ->
    forall unlink,
      unlink = SelectiveGetFromGcVictimList \/ unlink = DetachBlockFromGcList ->
      bucket_repr (unlink d b st) d k (l1 ++ l2) /\
      (forall k' l', k' <> k -> bucket_repr st d k' l' ->
         bucket_repr (unlink d b st) d k' l') /\
      in_no_list (unlink d b st) d b /\
      invalidSliceCnt (block (unlink d b st) d b) = k.
Proof.
  intros Hcfg st d k l1 b l2 Hwf Hk Hr unlink Hun.
  assert (Hin : in_bucket st d k b).
  { exists (l1 ++ b :: l2). split; [assumption|apply in_elt]. }
  pose proof (member_links _ _ _ _ _ _ Hr) as (_ & _ & Hcnt & _).
  destruct Hun as [-> | ->].
  - split; [apply (Selective_bucket_same Hcfg); assumption|].
    split; [intros k' l' Hne Hl'; apply (Selective_bucket_other st d k l1 b l2); assumption|].
    split; [apply (Selective_in_no_list Hcfg st d k); assumption|].
    rewrite Selective_cnt. assumption.
  - split; [apply (Detach_bucket_same Hcfg); assumption|].
    split; [intros k' l' Hne Hl'; apply (Detach_bucket_other st d k l1 b l2); assumption|].
    split; [apply (Detach_wf Hcfg st d k); assumption|].
    unfold DetachBlockFromGcList.
    rewrite cnt_set_prevBlock, cnt_set_nextBlock, Selective_cnt. assumption.
Qed.

(** X4. The Greedy [GetFromGcVictimList] ends in the assertion exactly
    when the buckets 1 to [SLICES_PER_BLOCK] are empty (bucket 0 is never
    looked at); otherwise it returns the head of the highest non-empty
    bucket, leaves the rest of that bucket in its order and every other
    bucket as it was. *)
Theorem greedy_pops_head_of_highest_bucket `{FtlConfig} :
  config_ok ->
  forall st d,
    wf_index st d ->
    (Greedy.GetFromGcVictimList d st = AssertFailed <->
     forall k, 1 <= k <= SLICES_PER_BLOCK -> bucket_repr st d k []) /\
    (forall k x r,
        1 <= k <= SLICES_PER_BLOCK -> bucket_repr st d k (x :: r) ->
        (forall k', k < k' <= SLICES_PER_BLOCK -> bucket_repr st d k' []) ->
        exists st',
          Greedy.GetFromGcVictimList d st = Returned (x, st') /\
          bucket_repr st' d k r /\
          (forall k' l', k' <> k -> bucket_repr st d k' l' -> bucket_repr st' d k' l')).
Proof.
  intros Hcfg st d Hwf. split; [apply (Greedy_Get_asserts_iff Hcfg); assumption|].
  intros k x r Hk Hr Hhigher.
  exists (SelectiveGetFromGcVictimList d x st).
  split; [apply (Greedy_Get_head Hcfg st d k x r); assumption|]. split.
  - apply (Selective_bucket_same Hcfg st d k [] x r). assumption.
  - intros k' l' Hne Hl'. apply (Selective_bucket_other st d k [] x r); assumption.
Qed.

(** X5. Unlinking a member of bucket [k] and putting it back with the same
    count moves it to the tail: the bucket holds its other blocks in their
    order and then the block; every other bucket holds what it held and the
    index is well formed. *)
Theorem unlink_then_put_moves_to_tail `{FtlConfig} :
  config_ok ->
  forall st d k l1 b l2,
    wf_index st d -> 0 <= k <= SLICES_PER_BLOCK ->
    bucket_repr st d k (l1 ++ b :: l2) ->
    let st' := Greedy.PutToGcVictimList d b k (SelectiveGetFromGcVictimList d b st) in
    bucket_repr st' d k (l1 ++ l2 ++ [b]) /\
    (forall k' l', 0 <= k' <= SLICES_PER_BLOCK -> k' <> k ->
       bucket_repr st d k' l' -> bucket_repr st' d k' l') /\
    wf_index st' d.
Proof.
  intros Hcfg st d k l1 b l2 Hwf Hk Hr st'. subst st'.
  assert (Hin : in_bucket st d k b).
  { exists (l1 ++ b :: l2). split; [assumption|apply in_elt]. }
  pose proof (member_links _ _ _ _ _ _ Hr) as (_ & _ & Hcnt & Hvb).
  pose proof (Selective_bucket_same Hcfg _ _ _ _ _ _ Hr) as Hr1.
  pose proof (Selective_wf Hcfg st d k b Hwf Hk Hin) as Hwf1.
  pose proof (Selective_in_no_list Hcfg st d k b Hwf Hk Hin) as Hno1.
  assert (Hnin : ~ In b (l1 ++ l2)).
  { intros Hb. apply (Hno1 k Hk). exists (l1 ++ l2). split; assumption. }
  assert (Hcnt1 : invalidSliceCnt (block (SelectiveGetFromGcVictimList d b st) d b) = k)
    by (rewrite Selective_cnt; assumption).
  split; [|split].
  - rewrite app_assoc. apply (Put_bucket_same Hcfg); assumption.
  - intros k' l' Hk' Hne Hl'.
    apply (Put_bucket_other Hcfg _ d b k k' l' (l1 ++ l2)); try assumption.
    + apply (Selective_bucket_other st d k l1 b l2); assumption.
    + intros Hb. apply (Hno1 k' Hk'). exists l'. split; [|assumption].
      apply (Selective_bucket_other st d k l1 b l2); assumption.
  - apply (Put_wf Hcfg); assumption.
Qed.

(** X6. A bucket is served first in, first out by the Greedy build: when
    the buckets above [c] are empty, a [GetFromGcVictimList] that follows a
    [PutToGcVictimList] into bucket [c >= 1] returns the block that was
    the head of the bucket before the put (the block just put when the
    bucket was empty) and leaves the later blocks, the new one last. *)
Theorem greedy_bucket_is_first_in_first_out `{FtlConfig} :
  config_ok ->
  forall st d b c l,
    wf_index st d -> valid_block b -> 1 <= c <= SLICES_PER_BLOCK ->
    invalidSliceCnt (block st d b) = c -> in_no_list st d b ->
    bucket_repr st d c l ->
    (forall k', c < k' <= SLICES_PER_BLOCK -> bucket_repr st d k' []) ->
    exists st',
      Greedy.GetFromGcVictimList d (Greedy.PutToGcVictimList d b c st)
      = Returned (hd b l, st') /\
      bucket_repr st' d c (tl (l ++ [b])).
Proof.
  intros Hcfg st d b c l Hwf Hvb Hc Hcb Hno Hl Hhigher.
  assert (Hc0 : 0 <= c <= SLICES_PER_BLOCK) by lia.
  assert (Hnin : ~ In b l).
  { intros Hin. apply (Hno c Hc0). exists l. split; assumption. }
  pose proof (Put_bucket_same Hcfg st d b c l Hl Hnin Hvb Hcb) as Hnew.
  assert (Hwf2 : wf_index (Greedy.PutToGcVictimList d b c st) d)
    by (apply (Put_wf Hcfg); assumption).
  assert (Eshape : l ++ [b] = hd b l :: tl (l ++ [b])) by (destruct l; reflexivity).
  rewrite Eshape in Hnew.
  exists (SelectiveGetFromGcVictimList d (hd b l) (Greedy.PutToGcVictimList d b c st)).
  split.
  - apply (Greedy_Get_head Hcfg _ d c (hd b l) (tl (l ++ [b]))); try assumption.
    intros k' Hk'.
    apply (Put_bucket_other Hcfg st d b c k' [] l); try assumption.
    + lia.
    + apply Hhigher. assumption.
    + intros [].
  - apply (Selective_bucket_same Hcfg _ d c [] (hd b l) (tl (l ++ [b]))). assumption.
Qed.

(** X7. The victim of any of the three [GetFromGcVictimList] was a member
    of one of the buckets 1 to [SLICES_PER_BLOCK]: it is a block of the
    die, its invalid count is at least 1 and unchanged by the selection,
    and it is in no list afterwards. *)
Theorem victim_was_a_candidate `{FtlConfig} :
  config_ok ->
  forall st d fuel b st',
    wf_index st d ->
    (Z.to_nat USER_BLOCKS_PER_DIE <= fuel)%nat ->
    Greedy.GetFromGcVictimList d st = Returned (b, st') \/
    CostBenefit.GetFromGcVictimList fuel d st = Returned (b, st') \/
    CAT.GetFromGcVictimList fuel d st = Returned (b, st') ->
    valid_block b /\
    1 <= invalidSliceCnt (block st d b) <= SLICES_PER_BLOCK /\
    in_bucket st d (invalidSliceCnt (block st d b)) b /\
    invalidSliceCnt (block st' d b) = invalidSliceCnt (block st d b) /\
    in_no_list st' d b.
Proof.
  intros Hcfg st d fuel b st' Hwf Hf Hret.
  assert (HS : 0 <= SLICES_PER_BLOCK) by (unfold config_ok in Hcfg; lia).
  assert (Hscan : forall score,
             select_by_score fuel score d st = Returned (b, st') ->
             exists k, 1 <= k <= SLICES_PER_BLOCK /\ in_bucket st d k b /\
                       st' = DetachBlockFromGcList d b st).
  { intros score Hsel. destruct (wf_candidates Hcfg st d Hwf) as [l Hl].
    destruct (select_by_score_returns Hcfg fuel score d st l b st' Hl Hf Hsel) as [Hin ->].
    apply (scan_order_in Hcfg st d _ l b Hl) in Hin as (k & Hk & Hin).
    rewrite Z2Nat.id in Hk by assumption. exists k.
    split; [assumption|]. split; [assumption|reflexivity]. }
  assert (Hk : exists k, 1 <= k <= SLICES_PER_BLOCK /\ in_bucket st d k b /\
                         invalidSliceCnt (block st' d b) = invalidSliceCnt (block st d b) /\
                         in_no_list st' d b).
  { destruct Hret as [Hret|[Hret|Hret]].
    - destruct (Greedy_Get_returns Hcfg st d b st' Hwf Hret) as (-> & k & r & Hk & Hr & _).
      exists k. split; [assumption|].
      assert (Hin : in_bucket st d k b)
        by (exists (b :: r); split; [assumption|left; reflexivity]).
      split; [assumption|]. split; [apply Selective_cnt|].
      apply (Selective_in_no_list Hcfg st d k); [assumption|lia|assumption].
    - destruct (Hscan _ Hret) as (k & Hk & Hin & ->). exists k.
      split; [assumption|]. split; [assumption|]. split.
      + unfold DetachBlockFromGcList.
        rewrite cnt_set_prevBlock, cnt_set_nextBlock. apply Selective_cnt.
      + apply (Detach_wf Hcfg st d k); [assumption|lia|assumption].
    - destruct (Hscan _ Hret) as (k & Hk & Hin & ->). exists k.
      split; [assumption|]. split; [assumption|]. split.
      + unfold DetachBlockFromGcList.
        rewrite cnt_set_prevBlock, cnt_set_nextBlock. apply Selective_cnt.
      + apply (Detach_wf Hcfg st d k); [assumption|lia|assumption]. }
  destruct Hk as (k & Hk & Hin & Hcnt & Hno).
  pose proof Hin as (l & Hl & Hbl).
  rewrite (bucket_repr_cnt st d k l b Hl Hbl).
  split; [apply (bucket_repr_valid st d k l); assumption|].
  split; [assumption|]. split; [assumption|]. split; [|assumption].
  rewrite Hcnt. apply (bucket_repr_cnt st d k l b Hl Hbl).
Qed.

(** * Further properties of the scores and of the scanning selection *)

Section TicksFurther.
Context `{FtlConfig}.

Lemma erase_set_prevBlock d b v st d' x :
  eraseCnt (block (set_prevBlock d b v st) d' x) = eraseCnt (block st d' x).
Proof.
  with_strategy transparent [set_prevBlock]
    (unfold set_prevBlock, upd_block, upd2; cbn [block]).
  destruct (Z.eqb_spec d' d) as [->|]; [|reflexivity].
  destruct (Z.eqb_spec x b) as [->|]; reflexivity.
Qed.

Lemma erase_set_nextBlock d b v st d' x :
  eraseCnt (block (set_nextBlock d b v st) d' x) = eraseCnt (block st d' x).
Proof.
  with_strategy transparent [set_nextBlock]
    (unfold set_nextBlock, upd_block, upd2; cbn [block]).
  destruct (Z.eqb_spec d' d) as [->|]; [|reflexivity].
  destruct (Z.eqb_spec x b) as [->|]; reflexivity.
Qed.

Lemma Put_ticks d b c st :
  gcActivityTick (Greedy.PutToGcVictimList d b c st) = gcActivityTick st /\
  gcLastTick (Greedy.PutToGcVictimList d b c st) = gcLastTick st.
Proof.
  unfold Greedy.PutToGcVictimList. destruct (negb _); split; reflexivity.
Qed.

Lemma Put_erase d b c st d' x :
  eraseCnt (block (Greedy.PutToGcVictimList d b c st) d' x) = eraseCnt (block st d' x).
Proof.
  unfold Greedy.PutToGcVictimList.
  destruct (negb _);
    rewrite ?block_set_tailBlock, ?block_set_headBlock, ?erase_set_nextBlock,
      ?erase_set_prevBlock; reflexivity.
Qed.

Lemma Selective_ticks d b st :
  gcActivityTick (SelectiveGetFromGcVictimList d b st) = gcActivityTick st /\
  gcLastTick (SelectiveGetFromGcVictimList d b st) = gcLastTick st.
Proof.
  unfold SelectiveGetFromGcVictimList.
  destruct (negb _ && negb _); [|destruct (_ && negb _); [|destruct (negb _ && _)]];
    split; reflexivity.
Qed.

Lemma Detach_ticks d b st :
  gcActivityTick (DetachBlockFromGcList d b st) = gcActivityTick st /\
  gcLastTick (DetachBlockFromGcList d b st) = gcLastTick st.
Proof.
  unfold DetachBlockFromGcList.
  destruct (Selective_ticks d b st) as [E1 E2]. split.
  - rewrite tick_set_prevBlock, tick_set_nextBlock. assumption.
  - transitivity (gcLastTick (SelectiveGetFromGcVictimList d b st));
      [reflexivity|assumption].
Qed.

Lemma age_step t l : wrap32 (wrap32 (t + 1) - l) = wrap32 (wrap32 (t - l) + 1).
Proof.
  unfold wrap32. rewrite Zminus_mod_idemp_l, Zplus_mod_idemp_l.
  f_equal. lia.
Qed.

(** A block whose [nextBlock] is itself: the walk over the links never
    reaches [BLOCK_NONE]. *)
Lemma scan_bucket_self_loop fuel score_of st d b : forall best,
  b <> BLOCK_NONE -> nextBlock (block st d b) = b ->
  scan_bucket fuel score_of st d b best = None.
Proof.
  induction fuel as [|fuel IH]; intros best Hb Hnext; cbn [scan_bucket];
    destruct (Z.eqb_spec b BLOCK_NONE); try contradiction; [reflexivity|].
  rewrite Hnext. apply IH; assumption.
Qed.

End TicksFurther.

(** X8. With enough fuel for the walk over the lists, the Cost-Benefit
    and the CAT [GetFromGcVictimList] end in the assertion exactly when
    every candidate of the die has the score 0; with no candidate at all
    this is the empty case. *)
Theorem scanning_selection_asserts_iff_scores_zero `{FtlConfig} :
  config_ok ->
  forall st d l fuel,
    candidates st d l ->
    (Z.to_nat USER_BLOCKS_PER_DIE <= fuel)%nat ->
    (CostBenefit.GetFromGcVictimList fuel d st = AssertFailed <->
     forall c, In c l -> CostBenefit.CalculateCostBenefitScore st d c = 0) /\
    (CAT.GetFromGcVictimList fuel d st = AssertFailed <->
     forall c, In c l -> CAT.CalculateCatScore st d c = 0).
Proof.
  intros Hcfg st d l fuel Hl Hf. split.
  - apply (select_asserts_iff Hcfg fuel CostBenefit.CalculateCostBenefitScore d st l Hl Hf).
    apply CostBenefit_score_nonneg.
  - apply (select_asserts_iff Hcfg fuel CAT.CalculateCatScore d st l Hl Hf).
    apply CAT_score_nonneg.
Qed.

(** X9. For the candidates [l] of a die in the order of the descending
    scan, the block the CAT [GetFromGcVictimList] returns has a score at
    least that of every candidate and strictly above that of every
    candidate met before it, and it is detached; a block is returned as
    soon as one candidate has a non-zero score. *)
Theorem cat_selection_dominance `{FtlConfig} :
  config_ok ->
  forall st d l fuel,
    candidates st d l ->
    (Z.to_nat USER_BLOCKS_PER_DIE <= fuel)%nat ->
    (forall b st',
        CAT.GetFromGcVictimList fuel d st = Returned (b, st') ->
        st' = DetachBlockFromGcList d b st /\
        exists l1 l2,
          l = l1 ++ b :: l2 /\
          (forall c, In c l ->
             CAT.CalculateCatScore st d c <= CAT.CalculateCatScore st d b) /\
          (forall c, In c l1 ->
             CAT.CalculateCatScore st d c < CAT.CalculateCatScore st d b)) /\
    ((exists c, In c l /\ 0 < CAT.CalculateCatScore st d c) ->
     exists b,
       In b l /\
       CAT.GetFromGcVictimList fuel d st = Returned (b, DetachBlockFromGcList d b st)).
Proof.
  intros Hcfg st d l fuel Hl Hf.
  unfold CAT.GetFromGcVictimList.
  destruct (select_by_score_spec Hcfg fuel CAT.CalculateCatScore
              d st l Hl Hf (CAT_score_nonneg st d))
    as [[Ha Hz]|(l1 & b & l2 & -> & Hb & H1 & H2 & Hret)].
  - split.
    + intros b st' E. rewrite E in Ha. discriminate.
    + intros (c & Hc & Hpos). rewrite (Hz c Hc) in Hpos. lia.
  - split.
    + intros b' st' E. rewrite E in Hret.
      apply (f_equal (fun o => match o with Returned (x, _) => x | _ => b end)) in Hret
        as Eb.
      cbv beta iota in Eb. subst b'.
      split.
      * destruct (select_by_score_returns Hcfg fuel CAT.CalculateCatScore d st
                    (l1 ++ b :: l2) b st' Hl Hf E) as [_ Est]. exact Est.
      * exists l1, l2. split; [reflexivity|]. split; [|assumption].
        intros c Hc. apply in_app_or in Hc as [Hc|[<-|Hc]].
        -- specialize (H1 c Hc). lia.
        -- lia.
        -- apply H2. assumption.
    + intros _. exists b. split; [apply in_elt|assumption].
Qed.

(** X10. A put with a non-zero count makes every block one tick older
    (modulo [2^32]): in the Cost-Benefit build every block of every die,
    the block that is put included; in the CAT build every block but the
    one that is put, whose age becomes 0.  A put with count 0 changes no
    age. *)
Theorem put_advances_ages `{FtlConfig} :
  forall st d b c d' x,
    (c <> 0 ->
     age (CostBenefit.PutToGcVictimList d b c st) d' x = wrap32 (age st d' x + 1) /\
     age (CAT.PutToGcVictimList d b c st) d b = 0 /\
     ((d', x) <> (d, b) ->
      age (CAT.PutToGcVictimList d b c st) d' x = wrap32 (age st d' x + 1))) /\
    age (CostBenefit.PutToGcVictimList d b 0 st) d' x = age st d' x /\
    age (CAT.PutToGcVictimList d b 0 st) d' x = age st d' x.
Proof.
  intros st d b c d' x. unfold age.
  unfold CostBenefit.PutToGcVictimList, CAT.PutToGcVictimList. split.
  - intros Hc. destruct (Z.eqb_spec c 0); [contradiction|]. cbn [negb].
    repeat match goal with
           | |- context [Greedy.PutToGcVictimList ?d ?b ?c ?s] =>
             destruct (Put_ticks d b c s) as [-> ->]
           end.
    cbn [set_gcActivityTick set_gcLastTick gcActivityTick gcLastTick].
    split; [apply age_step|]. split.
    + unfold upd2. rewrite !Z.eqb_refl. cbn [andb].
      rewrite Z.sub_diag. reflexivity.
    + intros Hne. unfold upd2.
      destruct (Z.eqb_spec d' d) as [->|]; [|apply age_step].
      destruct (Z.eqb_spec x b) as [->|]; [congruence|apply age_step].
  - cbn [Z.eqb negb].
    destruct (Put_ticks d b 0 st) as [-> ->]. split; reflexivity.
Qed.

(** X11. When a candidate's age is below [2^32 - 1] and its exact
    quotient [I * (A+1) * P / (V+1)] is below [2^32], its Cost-Benefit
    score is that quotient and is at least 1; the Cost-Benefit
    [GetFromGcVictimList] then returns a candidate. *)
Theorem cost_benefit_returns_when_a_score_fits `{FtlConfig} :
  config_ok ->
  forall st d l fuel c,
    candidates st d l ->
    (Z.to_nat USER_BLOCKS_PER_DIE <= fuel)%nat ->
    In c l ->
    age st d c < 2 ^ 32 - 1 ->
    invalidSliceCnt (block st d c) * (age st d c + 1) * USER_PAGES_PER_BLOCK
    / (USER_PAGES_PER_BLOCK - invalidSliceCnt (block st d c) + 1) < 2 ^ 32 ->
    CostBenefit.CalculateCostBenefitScore st d c
    = invalidSliceCnt (block st d c) * (age st d c + 1) * USER_PAGES_PER_BLOCK
      / (USER_PAGES_PER_BLOCK - invalidSliceCnt (block st d c) + 1) /\
    1 <= CostBenefit.CalculateCostBenefitScore st d c /\
    exists b,
      In b l /\
      CostBenefit.GetFromGcVictimList fuel d st
      = Returned (b, DetachBlockFromGcList d b st).
Proof.
  intros Hcfg st d l fuel c Hl Hf Hc HA HQ.
  assert (HS : 0 <= SLICES_PER_BLOCK) by (unfold config_ok in Hcfg; lia).
  assert (HI : 1 <= invalidSliceCnt (block st d c) <= SLICES_PER_BLOCK).
  { apply (scan_order_in Hcfg st d _ l c Hl) in Hc as (k & Hk & (lk & Hr & Hin)).
    rewrite (bucket_repr_cnt st d k lk c Hr Hin). lia. }
  assert (Escore : CostBenefit.CalculateCostBenefitScore st d c
            = invalidSliceCnt (block st d c) * (age st d c + 1) * USER_PAGES_PER_BLOCK
              / (USER_PAGES_PER_BLOCK - invalidSliceCnt (block st d c) + 1) /\
            1 <= invalidSliceCnt (block st d c) * (age st d c + 1) * USER_PAGES_PER_BLOCK
              / (USER_PAGES_PER_BLOCK - invalidSliceCnt (block st d c) + 1)).
  { rewrite (CostBenefit_score_formula st d c Hcfg)
      by (try exact HA; unfold config_ok in Hcfg; lia).
    unfold spec_cost_benefit_score. fold (age st d c).
    pose proof (wrap32_range (gcActivityTick st - gcLastTick st d c)) as HA0.
    fold (age st d c) in HA0.
    set (A := age st d c) in *.
    set (I := invalidSliceCnt (block st d c)) in *.
    set (P := USER_PAGES_PER_BLOCK) in *.
    assert (HP : SLICES_PER_BLOCK <= P < 2 ^ 32) by (unfold config_ok in Hcfg; subst P; lia).
    assert (Hprod : P <= I * (A + 1) * P).
    { assert (1 <= I * (A + 1)) by nia. nia. }
    assert (Hq1 : 1 <= I * (A + 1) * P / (P - I + 1)).
    { apply Z.div_le_lower_bound; lia. }
    assert (Hbig : I * (A + 1) * P < 2 ^ 64).
    { pose proof (Z.mul_succ_div_gt (I * (A + 1) * P) (P - I + 1) ltac:(lia)) as Hd.
      assert (Z.succ (I * (A + 1) * P / (P - I + 1)) <= 2 ^ 32) by lia.
      assert ((P - I + 1) * Z.succ (I * (A + 1) * P / (P - I + 1)) <= 2 ^ 32 * 2 ^ 32)
        by (apply Z.mul_le_mono_nonneg; lia).
      change (2 ^ 64) with (2 ^ 32 * 2 ^ 32). lia. }
    rewrite (wrap64_small (I * (A + 1) * P)) by lia.
    destruct (Z.eqb_spec (I * (A + 1) * P) 0); [lia|].
    rewrite wrap32_small by lia. split; [reflexivity|assumption]. }
  destruct Escore as [Escore Hone].
  split; [exact Escore|]. split; [rewrite Escore; exact Hone|].
  unfold CostBenefit.GetFromGcVictimList.
  destruct (select_by_score_spec Hcfg fuel CostBenefit.CalculateCostBenefitScore
              d st l Hl Hf (CostBenefit_score_nonneg st d))
    as [[_ Hz]|(l1 & b & l2 & -> & _ & _ & _ & Hret)].
  - specialize (Hz c Hc). lia.
  - exists b. split; [apply in_elt|assumption].
Qed.

(** X12. Right after the CAT [PutToGcVictimList] of a block with [c >= 1]
    invalid slices and erase count [W], the block's age is 0 and its score
    is [(c+1) / ((P-c+1) * (W+1))]: it is 0 as long as
    [c + 1 < (P-c+1) * (W+1)], whatever the other blocks are. *)
Theorem cat_score_right_after_put `{FtlConfig} :
  config_ok ->
  forall st d b c,
    1 <= c <= USER_PAGES_PER_BLOCK ->
    invalidSliceCnt (block st d b) = c ->
    0 <= eraseCnt (block st d b) < 2 ^ 32 - 1 ->
    let st' := CAT.PutToGcVictimList d b c st in
    age st' d b = 0 /\
    CAT.CalculateCatScore st' d b
    = (c + 1) / ((USER_PAGES_PER_BLOCK - c + 1) * (eraseCnt (block st d b) + 1)) /\
    (c + 1 < (USER_PAGES_PER_BLOCK - c + 1) * (eraseCnt (block st d b) + 1) ->
     CAT.CalculateCatScore st' d b = 0).
Proof.
  intros Hcfg st d b c Hc Hcnt HW st'.
  assert (Hage : age st' d b = 0).
  { subst st'. unfold age, CAT.PutToGcVictimList.
    destruct (Z.eqb_spec c 0); [lia|]. cbn [negb].
    destruct (Put_ticks d b c
                (set_gcLastTick d b
                   (gcActivityTick (set_gcActivityTick (wrap32 (gcActivityTick st + 1)) st))
                   (set_gcActivityTick (wrap32 (gcActivityTick st + 1)) st)))
      as [-> ->].
    cbn [set_gcActivityTick set_gcLastTick gcActivityTick gcLastTick].
    unfold upd2. rewrite !Z.eqb_refl. cbn [andb]. rewrite Z.sub_diag. reflexivity. }
  assert (Hcnt' : invalidSliceCnt (block st' d b) = c).
  { subst st'. unfold CAT.PutToGcVictimList. destruct (negb _); rewrite Put_cnt; exact Hcnt. }
  assert (HW' : eraseCnt (block st' d b) = eraseCnt (block st d b)).
  { subst st'. unfold CAT.PutToGcVictimList. destruct (negb _); rewrite Put_erase; reflexivity. }
  assert (Escore : CAT.CalculateCatScore st' d b
            = (c + 1) / ((USER_PAGES_PER_BLOCK - c + 1) * (eraseCnt (block st d b) + 1))).
  { unfold age in Hage.
    rewrite (CAT_score_formula st' d b Hcfg) by (rewrite ?Hcnt', ?Hage, ?HW'; lia).
    rewrite Hcnt', Hage, HW'. unfold spec_cat_score.
    set (W := eraseCnt (block st d b)) in *.
    set (P := USER_PAGES_PER_BLOCK) in *.
    assert (HP : P < 2 ^ 32 - 1) by (unfold config_ok in Hcfg; subst P; lia).
    assert (Hden : 0 < (P - c + 1) * (W + 1) < 2 ^ 64).
    { split; [apply Z.mul_pos_pos; lia|].
      apply Z.lt_le_trans with (2 ^ 32 * 2 ^ 32); [|reflexivity].
      apply Z.mul_lt_mono_nonneg; lia. }
    replace ((c + 1) * (0 + 1)) with (c + 1) by lia.
    rewrite (wrap64_small (c + 1)) by lia.
    rewrite (wrap64_small ((P - c + 1) * (W + 1))) by lia.
    apply wrap32_small. split; [apply Z.div_pos; lia|].
    apply Z.le_lt_trans with (c + 1); [|lia].
    apply Z.div_le_upper_bound; [lia|]. nia. }
  split; [exact Hage|]. split; [exact Escore|].
  intros Hsmall. rewrite Escore. apply Z.div_small. lia.
Qed.

(** X13. [PutToGcVictimList] does not look whether the block is already
    in the list: put again, the tail of a bucket becomes its own
    predecessor and successor, and a walk over the [nextBlock] links that
    reaches it never ends, whatever the fuel. *)
Theorem put_of_the_tail_closes_a_cycle `{FtlConfig} :
  forall st d b c,
    b <> BLOCK_NONE ->
    tailBlock (gcVictimList st d c) = b ->
    let st' := Greedy.PutToGcVictimList d b c st in
    nextBlock (block st' d b) = b /\
    prevBlock (block st' d b) = b /\
    forall fuel score_of best, scan_bucket fuel score_of st' d b best = None.
Proof.
  intros st d b c Hb Htail st'.
  assert (Hlinks : nextBlock (block st' d b) = b /\ prevBlock (block st' d b) = b).
  { subst st'. unfold Greedy.PutToGcVictimList.
    rewrite !list_set_nextBlock, !list_set_prevBlock, Htail.
    destruct (Z.eqb_spec b BLOCK_NONE); [contradiction|]. cbn [negb].
    rewrite !block_set_tailBlock.
    rewrite next_set_nextBlock, prev_set_nextBlock, prev_set_nextBlock,
      prev_set_prevBlock, !Z.eqb_refl.
    split; reflexivity. }
  destruct Hlinks as [Hn Hp]. split; [exact Hn|]. split; [exact Hp|].
  intros fuel score_of best. apply scan_bucket_self_loop; assumption.
Qed.

(** * Further properties of the migration engine *)

Section EngineFurther.
Context `{FtlConfig} `{ReqFormat} `{FtlExternals}.

Ltac run_stmt :=
  first [ rewrite run_load | rewrite run_store_req
        | rewrite run_store_logicalSlice | rewrite run_store_virtualSlice
        | rewrite run_GetFromFreeReqQ | rewrite run_AllocateTempDataBuf
        | rewrite run_UpdateTempDataBuf | rewrite run_SelectLowLevelReqQ
        | rewrite run_FindFreeVirtualSliceForGc ];
  cbn [gc_ftl virtualSlice logicalSlice reqPool trace];
  rewrite ?upd1_same, ?entry_after_store, ?vsa_after_store, ?fill_slot.

(** What a page that passes the double check does to the two tables; the
    destination is an answer of [FindFreeVirtualSliceForGc]. *)
Lemma copy_page_tables d b p m :
  live_page m d b p = true ->
  exists tr,
    let L := virtualSlice m (Vorg2VsaTranslation d b p) in
    let dest := FindFreeVirtualSliceForGc_result d b tr in
    logicalSlice (snd (copy_page d b p m)) = upd1 (logicalSlice m) L dest /\
    virtualSlice (snd (copy_page d b p m)) = upd1 (virtualSlice m) dest L /\
    gc_ftl (snd (copy_page d b p m)) = gc_ftl m.
Proof.
  unfold live_page, copy_page. intros Hlive.
  apply andb_true_iff in Hlive as [Hl1 Hl2].
  set (v := Vorg2VsaTranslation d b p) in *.
  rewrite run_load, Hl1, run_load, Hl2.
  set (L := virtualSlice m v) in *.
  repeat run_stmt.
  rewrite last_SelectLowLevelReqQ.
  cbn [gc_ftl virtualSlice logicalSlice reqPool trace snd].
  eexists. cbv zeta. split; [reflexivity|]. split; reflexivity.
Qed.

(** The loop touches [logicalSlice] only at slices that map into the
    victim, [virtualSlice] only at answers of the allocator, and nothing
    of the block table and the lists. *)
Lemma for_pages_tables d b n m :
  let mn := snd (for_pages n 0 (copy_page d b) m) in
  (forall l,
      (forall p, 0 <= p < Z.of_nat n -> logicalSlice m l <> Vorg2VsaTranslation d b p) ->
      logicalSlice mn l = logicalSlice m l) /\
  (forall u,
      (forall tr, FindFreeVirtualSliceForGc_result d b tr <> u) ->
      virtualSlice mn u = virtualSlice m u) /\
  gc_ftl mn = gc_ftl m.
Proof.
  induction n as [|n IH]; cbv zeta.
  - cbn [for_pages ret snd]. repeat split.
  - rewrite for_pages_snoc. rewrite Z.add_0_l.
    cbv zeta in IH. destruct IH as (IHl & IHv & IHf).
    set (mn := snd (for_pages n 0 (copy_page d b) m)) in *.
    destruct (live_page mn d b (Z.of_nat n)) eqn:Elive.
    + destruct (copy_page_tables d b _ mn Elive) as (tr & El & Ev & Ef).
      cbv zeta in El, Ev. rewrite El, Ev, Ef.
      unfold live_page in Elive. apply andb_true_iff in Elive as [_ Hmap].
      apply Z.eqb_eq in Hmap.
      split; [|split; [|assumption]].
      * intros l Hl. unfold upd1.
        assert (Hprev : logicalSlice mn l = logicalSlice m l)
          by (apply IHl; intros p Hp; apply Hl; lia).
        destruct (Z.eqb_spec l (virtualSlice mn (Vorg2VsaTranslation d b (Z.of_nat n))))
          as [E|_]; [|assumption].
        exfalso. apply (Hl (Z.of_nat n)); [lia|].
        rewrite <- Hprev, E. assumption.
      * intros u Hu. unfold upd1.
        destruct (Z.eqb_spec u (FindFreeVirtualSliceForGc_result d b tr)) as [E|_].
        -- exfalso. apply (Hu tr). symmetry. assumption.
        -- apply IHv. assumption.
    + rewrite (copy_page_skip d b _ mn Elive). cbn [snd].
      split; [|split; assumption].
      intros l Hl. apply IHl. intros p Hp. apply Hl. lia.
Qed.

(** When the allocator never answers a slice of the victim, the pages
    the loop has passed fail the double check from then on. *)
Lemma for_pages_dead d b P :
  (forall tr p, 0 <= p < P ->
     FindFreeVirtualSliceForGc_result d b tr <> Vorg2VsaTranslation d b p) ->
  forall n m, Z.of_nat n <= P ->
    forall p, 0 <= p < Z.of_nat n ->
      live_page (snd (for_pages n 0 (copy_page d b) m)) d b p = false.
Proof.
  intros Hfresh n m. induction n as [|n IH]; intros Hn p Hp; [lia|].
  rewrite for_pages_snoc, Z.add_0_l.
  set (mn := snd (for_pages n 0 (copy_page d b) m)) in *.
  destruct (live_page mn d b (Z.of_nat n)) eqn:Elive.
  - destruct (copy_page_tables d b _ mn Elive) as (tr & El & Ev & _).
    cbv zeta in El, Ev.
    set (vn := Vorg2VsaTranslation d b (Z.of_nat n)) in *.
    set (dest := FindFreeVirtualSliceForGc_result d b tr) in *.
    set (vp := Vorg2VsaTranslation d b p).
    assert (Hdp : dest <> vp) by (apply Hfresh; lia).
    unfold live_page. fold vp. rewrite El, Ev.
    assert (Evp : upd1 (virtualSlice mn) dest (virtualSlice mn vn) vp = virtualSlice mn vp).
    { unfold upd1. destruct (Z.eqb_spec vp dest); [congruence|reflexivity]. }
    rewrite Evp. unfold upd1.
    destruct (Z.eqb_spec (virtualSlice mn vp) (virtualSlice mn vn)) as [E|Hne].
    + destruct (Z.eqb_spec dest vp); [congruence|]. apply andb_false_r.
    + destruct (Z.eq_dec p (Z.of_nat n)) as [Epn|Hpn].
      * exfalso. apply Hne. subst vp vn. rewrite Epn. reflexivity.
      * apply (IH ltac:(lia) p ltac:(lia)).
  - rewrite (copy_page_skip d b _ mn Elive). cbn [snd].
    destruct (Z.eq_dec p (Z.of_nat n)) as [->|Hpn]; [assumption|].
    apply (IH ltac:(lia) p ltac:(lia)).
Qed.

Lemma for_pages_segments d b n : forall i m,
  exists segs,
    trace (snd (for_pages n i (copy_page d b) m)) = trace m ++ concat segs /\
    Forall (page_segment d b) segs /\
    (length segs <= n)%nat.
Proof.
  induction n as [|n IH]; intros i m.
  - exists []. cbn. rewrite app_nil_r.
    split; [reflexivity|]. split; [constructor|lia].
  - cbn [for_pages]. unfold bind.
    destruct (live_page m d b i) eqn:Elive.
    + destruct (copy_page_live d b i m Elive)
        as (rtag & rbuf & wtag & wbuf & dest & pool' & Em).
      destruct (copy_page d b i m) as [[] m1]. cbn [snd] in Em.
      destruct (IH (i + 1) m1) as (segs & Etr & Hsegs & Hlen).
      eexists (_ :: segs). rewrite Etr, Em. cbn [trace concat length].
      rewrite <- app_assoc. split; [reflexivity|]. split; [|lia].
      constructor; [|assumption].
      unfold page_segment. do 7 eexists. reflexivity.
    + rewrite (copy_page_skip d b i m Elive).
      destruct (IH (i + 1) m) as (segs & Etr & Hsegs & Hlen).
      exists segs. split; [assumption|]. split; [assumption|lia].
Qed.

Lemma segments_account d b segs :
  REQ_CODE_READ <> REQ_CODE_WRITE ->
  Forall (page_segment d b) segs ->
  count_submits REQ_CODE_READ (concat segs) = length segs /\
  count_submits REQ_CODE_WRITE (concat segs) = length segs /\
  length (concat segs) = (11 * length segs)%nat /\
  (forall d' b', ~ In (EvEraseBlock d' b') (concat segs)).
Proof.
  intros Hne Hsegs. induction Hsegs as [|seg segs Hseg _ IH].
  - split; [reflexivity|]. split; [reflexivity|]. split; [reflexivity|].
    intros d' b' Hin. exact Hin.
  - destruct IH as (IHr & IHw & IHl & IHe).
    destruct Hseg as (lsa & vsa & rtag & rbuf & wtag & wbuf & dest & ->).
    destruct (count_submits_page d b lsa vsa rtag rbuf wtag wbuf dest Hne) as [Cr Cw].
    unfold count_submits in *. cbn [concat].
    rewrite !filter_app, !length_app, Cr, Cw, IHr, IHw, IHl.
    match goal with
    | |- context [length (page_events ?a ?b ?c ?e ?f ?g ?h ?i ?j ?k)] =>
      change (length (page_events a b c e f g h i j k)) with 11%nat
    end.
    cbn [length].
    split; [lia|]. split; [lia|]. split; [lia|].
    intros d' b' Hin. apply in_app_or in Hin as [Hin|Hin].
    + unfold page_events in Hin. cbn [In] in Hin.
      repeat (destruct Hin as [Hin|Hin]; [discriminate|]). assumption.
    + apply (IHe d' b'). assumption.
Qed.

(** The loop stores into [virtualSlice] only at the slices that
    [FindFreeVirtualSliceForGc] answers while it runs. *)
Lemma for_pages_answers d b n : forall i m,
  exists new,
    trace (snd (for_pages n i (copy_page d b) m)) = trace m ++ new /\
    forall u, ~ In (EvFindFreeVirtualSliceForGc d b u) new ->
      virtualSlice (snd (for_pages n i (copy_page d b) m)) u = virtualSlice m u.
Proof.
  induction n as [|n IH]; intros i m.
  - exists []. cbn. rewrite app_nil_r. split; reflexivity.
  - cbn [for_pages]. unfold bind.
    destruct (live_page m d b i) eqn:Elive.
    + destruct (copy_page_live d b i m Elive)
        as (rtag & rbuf & wtag & wbuf & dest & pool' & Em).
      destruct (copy_page d b i m) as [[] m1]. cbn [snd] in Em.
      destruct (IH (i + 1) m1) as (new1 & Etr & Hv).
      eexists (_ ++ new1). split.
      * rewrite Etr, Em. cbn [trace]. rewrite <- app_assoc. reflexivity.
      * intros u Hu. rewrite Hv.
        -- rewrite Em. cbn [virtualSlice]. unfold upd1.
           destruct (Z.eqb_spec u dest) as [E|_]; [|reflexivity].
           exfalso. apply Hu. apply in_or_app. left. subst u.
           unfold page_events. cbn [In]. do 7 right. left. reflexivity.
        -- intros Hin. apply Hu. apply in_or_app. right. assumption.
    + rewrite (copy_page_skip d b i m Elive). apply IH.
Qed.

(** The run of [GarbageCollection] once the selection has answered: the
    page loop, or nothing, leads to the machine the erase is issued on. *)
Lemma GarbageCollection_with_run
    (select : Z -> ftl -> outcome (Z * ftl)) (after_erase : Z -> Z -> ftl -> ftl)
    d m victim f :
  select d (gc_ftl m) = Returned (victim, f) ->
  GarbageCollection_with select after_erase d m
  = Returned (with_ftl (after_erase d victim f)
                (snd (EraseBlock d victim (machine_at_erase d victim f m)))) /\
  gc_ftl (machine_at_erase d victim f m) = f.
Proof.
  intros Hsel.
  assert (Ef : gc_ftl (machine_at_erase d victim f m) = f).
  { unfold machine_at_erase. destruct (negb _); [|reflexivity].
    destruct (for_pages_tables d victim (Z.to_nat USER_PAGES_PER_BLOCK) (with_ftl f m))
      as (_ & _ & Ef).
    exact Ef. }
  split; [|exact Ef].
  unfold GarbageCollection_with. rewrite Hsel.
  change (if negb (invalidSliceCnt (block (gc_ftl (with_ftl f m)) d victim)
                   =? SLICES_PER_BLOCK)
          then snd (for_pages (Z.to_nat USER_PAGES_PER_BLOCK) 0
                      (copy_page d victim) (with_ftl f m))
          else with_ftl f m)
    with (machine_at_erase d victim f m).
  replace (gc_ftl (snd (EraseBlock d victim (machine_at_erase d victim f m))))
    with f by (symmetry; exact Ef).
  reflexivity.
Qed.

End EngineFurther.

(** X14. When the Cost-Benefit or CAT selection has returned a victim,
    [GarbageCollection] returns, and the store that follows the erase
    leaves the victim at age 0; the tick and the age of every other block
    are what they were before the collection. *)
Theorem garbage_collection_resets_victim_age
    `{FtlConfig} `{ReqFormat} `{FtlExternals} :
  config_ok ->
  forall fuel d m victim f score gc,
    (score = CostBenefit.CalculateCostBenefitScore /\
     gc = CostBenefit_GarbageCollection fuel) \/
    (score = CAT.CalculateCatScore /\ gc = CAT_GarbageCollection fuel) ->
    wf_index (gc_ftl m) d ->
    (Z.to_nat USER_BLOCKS_PER_DIE <= fuel)%nat ->
    select_by_score fuel score d (gc_ftl m) = Returned (victim, f) ->
    exists mfin,
      gc d m = Returned mfin /\
      age (gc_ftl mfin) d victim = 0 /\
      gcActivityTick (gc_ftl mfin) = gcActivityTick (gc_ftl m) /\
      (forall d' x, (d', x) <> (d, victim) ->
         age (gc_ftl mfin) d' x = age (gc_ftl m) d' x).
Proof.
  intros Hcfg fuel d m victim f score gc Hbuild Hwf Hf Hsel.
  destruct (wf_candidates Hcfg _ d Hwf) as [l Hl].
  destruct (select_by_score_returns Hcfg fuel score d _ l victim f Hl Hf Hsel)
    as [_ Ef].
  destruct (GarbageCollection_with_run (select_by_score fuel score)
              (fun d b f => set_gcLastTick d b (gcActivityTick f) f) d m victim f Hsel)
    as [Hrun _].
  eexists. split.
  { destruct Hbuild as [[-> ->]|[-> ->]]; exact Hrun. }
  cbn [with_ftl gc_ftl]. subst f.
  destruct (Detach_ticks d victim (gc_ftl m)) as [Et El].
  unfold age. cbn [set_gcLastTick gcActivityTick gcLastTick].
  rewrite Et, El.
  split.
  { unfold upd2. rewrite !Z.eqb_refl. cbn [andb]. rewrite Z.sub_diag. reflexivity. }
  split; [reflexivity|].
  intros d' x Hne. unfold upd2.
  destruct (Z.eqb_spec d' d) as [->|]; [|reflexivity].
  destruct (Z.eqb_spec x victim) as [->|]; [congruence|reflexivity].
Qed.

(** X15. The Greedy [GarbageCollection] on a die whose top bucket
    [SLICES_PER_BLOCK] is not empty issues the erase of the head of that
    bucket without a copy: the erase is the only event, and when it is
    issued no request slot has been written and the two mapping tables are
    what they were, whatever they hold for the pages of the block. *)
Theorem greedy_erases_full_block_without_copy
    `{FtlConfig} `{ReqFormat} `{FtlExternals} :
  config_ok ->
  forall d m x r,
    wf_index (gc_ftl m) d ->
    1 <= SLICES_PER_BLOCK ->
    bucket_repr (gc_ftl m) d SLICES_PER_BLOCK (x :: r) ->
    let f := SelectiveGetFromGcVictimList d x (gc_ftl m) in
    Greedy.GetFromGcVictimList d (gc_ftl m) = Returned (x, f) /\
    machine_at_erase d x f m = with_ftl f m /\
    bucket_repr f d SLICES_PER_BLOCK r /\
    exists mfin,
      Greedy_GarbageCollection d m = Returned mfin /\
      trace mfin = trace m ++ [EvEraseBlock d x].
Proof.
  intros Hcfg d m x r Hwf HS Hr f.
  assert (Hsel : Greedy.GetFromGcVictimList d (gc_ftl m) = Returned (x, f)).
  { apply (Greedy_Get_head Hcfg _ d SLICES_PER_BLOCK x r); try assumption; [lia|].
    intros k' Hk'. lia. }
  assert (Hcnt : invalidSliceCnt (block f d x) = SLICES_PER_BLOCK).
  { subst f. rewrite Selective_cnt.
    apply (bucket_repr_cnt _ d SLICES_PER_BLOCK (x :: r) x Hr). left. reflexivity. }
  assert (Eat : machine_at_erase d x f m = with_ftl f m).
  { unfold machine_at_erase. rewrite Hcnt, Z.eqb_refl. reflexivity. }
  split; [exact Hsel|]. split; [exact Eat|]. split.
  { apply (Selective_bucket_same Hcfg _ d SLICES_PER_BLOCK [] x r). assumption. }
  destruct (GarbageCollection_with_run Greedy.GetFromGcVictimList (fun _ _ f => f)
              d m x f Hsel) as [Hrun _].
  eexists. split; [exact Hrun|]. rewrite Eat. reflexivity.
Qed.

(** X16. When [FindFreeVirtualSliceForGc] never answers a slice of the
    victim and the victim's invalid count is not [SLICES_PER_BLOCK], then at
    the moment [GarbageCollection] issues the erase no page of the victim
    passes the double check any more: the block that is erased holds no
    live slice. *)
Theorem erased_block_has_no_live_page
    `{FtlConfig} `{ReqFormat} `{FtlExternals} :
  forall (select : Z -> ftl -> outcome (Z * ftl))
         (after_erase : Z -> Z -> ftl -> ftl) d m victim f,
    (forall tr p, 0 <= p < USER_PAGES_PER_BLOCK ->
       FindFreeVirtualSliceForGc_result d victim tr
       <> Vorg2VsaTranslation d victim p) ->
    select d (gc_ftl m) = Returned (victim, f) ->
    invalidSliceCnt (block f d victim) <> SLICES_PER_BLOCK ->
    GarbageCollection_with select after_erase d m
    = Returned (with_ftl (after_erase d victim f)
                  (snd (EraseBlock d victim (machine_at_erase d victim f m)))) /\
    forall p, 0 <= p < USER_PAGES_PER_BLOCK ->
      live_page (machine_at_erase d victim f m) d victim p = false.
Proof.
  intros select after_erase d m victim f Hfresh Hsel Hcnt.
  destruct (GarbageCollection_with_run select after_erase d m victim f Hsel)
    as [Hrun _].
  split; [exact Hrun|]. intros p Hp. unfold machine_at_erase.
  destruct (Z.eqb_spec (invalidSliceCnt (block f d victim)) SLICES_PER_BLOCK);
    [contradiction|].
  cbn [negb].
  apply (for_pages_dead d victim USER_PAGES_PER_BLOCK Hfresh
           (Z.to_nat USER_PAGES_PER_BLOCK) (with_ftl f m)); [|rewrite Z2Nat.id]; lia.
Qed.

(** X17. Up to the erase, [GarbageCollection] leaves the mapping of
    every logical slice that does not map into the victim as it is, and
    stores into [virtualSlice] only at slices that
    [FindFreeVirtualSliceForGc] has answered during this collection: a
    slice that is in none of the answers recorded in the events the
    collection has added keeps its entry. *)
Theorem migration_keeps_other_mappings
    `{FtlConfig} `{ReqFormat} `{FtlExternals} :
  forall (select : Z -> ftl -> outcome (Z * ftl))
         (after_erase : Z -> Z -> ftl -> ftl) d m victim f,
    select d (gc_ftl m) = Returned (victim, f) ->
    GarbageCollection_with select after_erase d m
    = Returned (with_ftl (after_erase d victim f)
                  (snd (EraseBlock d victim (machine_at_erase d victim f m)))) /\
    (forall l,
        (forall p, 0 <= p < USER_PAGES_PER_BLOCK ->
           logicalSlice m l <> Vorg2VsaTranslation d victim p) ->
        logicalSlice (machine_at_erase d victim f m) l = logicalSlice m l) /\
    exists new,
      trace (machine_at_erase d victim f m) = trace m ++ new /\
      forall u,
        ~ In (EvFindFreeVirtualSliceForGc d victim u) new ->
        virtualSlice (machine_at_erase d victim f m) u = virtualSlice m u.
Proof.
  intros select after_erase d m victim f Hsel.
  destruct (GarbageCollection_with_run select after_erase d m victim f Hsel)
    as [Hrun _].
  split; [exact Hrun|]. unfold machine_at_erase.
  destruct (negb _).
  - destruct (for_pages_tables d victim (Z.to_nat USER_PAGES_PER_BLOCK) (with_ftl f m))
      as (Hl & _ & _).
    cbv zeta in Hl. split.
    + intros l Hother. rewrite Hl; [reflexivity|].
      intros p Hp. apply Hother. lia.
    + destruct (for_pages_answers d victim (Z.to_nat USER_PAGES_PER_BLOCK) 0
                  (with_ftl f m)) as (new & Etr & Hv).
      exists new. split; [exact Etr|]. intros u Hu. rewrite (Hv u Hu). reflexivity.
  - split; [intros; reflexivity|].
    exists []. split; [cbn [with_ftl trace]; rewrite app_nil_r; reflexivity|].
    intros; reflexivity.
Qed.

(** X18. The events [GarbageCollection] adds are eleven per migrated
    page and then one erase: as many READ as WRITE requests are enqueued,
    at most [USER_PAGES_PER_BLOCK] of each, the erase is the last event and
    the only erase, and nothing but the erase is added when the victim's
    invalid count is [SLICES_PER_BLOCK]. *)
Theorem migration_accounting `{FtlConfig} `{ReqFormat} `{FtlExternals} :
  REQ_CODE_READ <> REQ_CODE_WRITE ->
  forall (select : Z -> ftl -> outcome (Z * ftl))
         (after_erase : Z -> Z -> ftl -> ftl) d m victim f,
    select d (gc_ftl m) = Returned (victim, f) ->
    exists mfin new,
      GarbageCollection_with select after_erase d m = Returned mfin /\
      trace mfin = trace m ++ new ++ [EvEraseBlock d victim] /\
      count_submits REQ_CODE_READ new = count_submits REQ_CODE_WRITE new /\
      (count_submits REQ_CODE_READ new <= Z.to_nat USER_PAGES_PER_BLOCK)%nat /\
      length new = (11 * count_submits REQ_CODE_READ new)%nat /\
      (forall d' b', ~ In (EvEraseBlock d' b') new) /\
      (invalidSliceCnt (block f d victim) = SLICES_PER_BLOCK -> new = []).
Proof.
  intros Hne select after_erase d m victim f Hsel.
  destruct (GarbageCollection_with_run select after_erase d m victim f Hsel)
    as [Hrun _].
  unfold EraseBlock, emit in Hrun. cbn [snd] in Hrun.
  unfold machine_at_erase in Hrun.
  destruct (Z.eqb_spec (invalidSliceCnt (block f d victim)) SLICES_PER_BLOCK) as [E|Hcnt];
    cbn [negb] in Hrun.
  - eexists. exists []. split; [exact Hrun|]. split; [reflexivity|].
    split; [reflexivity|]. split; [cbn; lia|]. split; [reflexivity|].
    split; [intros d' b' Hin; exact Hin|reflexivity].
  - destruct (for_pages_segments d victim (Z.to_nat USER_PAGES_PER_BLOCK) 0 (with_ftl f m))
      as (segs & Etr & Hsegs & Hlen).
    destruct (segments_account d victim segs Hne Hsegs) as (Cr & Cw & Clen & Cer).
    eexists. exists (concat segs). split; [exact Hrun|].
    split; [cbn [with_ftl trace]; rewrite Etr, <- app_assoc; reflexivity|].
    rewrite Cr, Cw. split; [reflexivity|]. split; [exact Hlen|].
    split; [exact Clen|]. split; [exact Cer|]. intros E. contradiction.
Qed.

(** * Properties of the NVMe task loop *)

Section NvmeLoop.
Import Nvme.
Context `{NvmeConfig}.

Lemma clear_io_queues_quiet n : forall q,
  existsb is_pcie_reset (clear_io_queues n q) = false /\
  existsb is_scheduling (clear_io_queues n q) = false /\
  existsb is_io_cmd (clear_io_queues n q) = false /\
  filter is_pcie_reset (clear_io_queues n q) = [].
Proof.
  induction n as [|n IH]; intros q; [repeat split|].
  destruct (IH (q + 1)) as (H1 & H2 & H3 & H4).
  cbn [clear_io_queues existsb filter is_pcie_reset is_scheduling is_io_cmd orb].
  repeat split; assumption.
Qed.

Lemma existsb_In_scheduling l :
  In EvSchedulingNandReq l <-> existsb is_scheduling l = true.
Proof.
  rewrite existsb_exists. split.
  - intros Hin. exists EvSchedulingNandReq. split; [assumption|reflexivity].
  - intros (e & Hin & He). destruct e; try discriminate. assumption.
Qed.

Lemma existsb_In_io_cmd l :
  In EvHandleNvmeIoCmd l <-> existsb is_io_cmd l = true.
Proof.
  rewrite existsb_exists. split.
  - intros Hin. exists EvHandleNvmeIoCmd. split; [assumption|reflexivity].
  - intros (e & Hin & He). destruct e; try discriminate. assumption.
Qed.

Lemma pcie_reset_In c l :
  In (EvPcieAsyncReset c) l -> In (EvPcieAsyncReset c) (filter is_pcie_reset l).
Proof. intros Hin. apply filter_In. split; [assumption|reflexivity]. Qed.

(** The events of one iteration, branch by branch: what matters of them
    for the counter, the asynchronous reset and the low-level scheduler. *)
Lemma loop_body_summary i r :
  exists events exeLlr r',
    loop_body i r
    = (r', events ++ (if negb (exeLlr =? 0) && pending i
                      then [EvCheckDoneNvmeDmaReq; EvSchedulingNandReq] else [])) /\
    existsb is_scheduling events = false /\
    (exeLlr = 1 \/ exeLlr = 0) /\
    (existsb is_io_cmd events = true <-> exeLlr = 0) /\
    ((r' = r /\ filter is_pcie_reset events = []) \/
     (r' = 0 /\ filter is_pcie_reset events = []) \/
     (5 <= r /\ r' = 0 /\ filter is_pcie_reset events = [EvPcieAsyncReset r]) \/
     (r < 5 /\ r' = wrap32 (r + 1) /\ filter is_pcie_reset events = [])) /\
    (in_reset i ->
     (5 <= r /\ r' = 0 /\ filter is_pcie_reset events = [EvPcieAsyncReset r]) \/
     (r < 5 /\ r' = wrap32 (r + 1) /\ filter is_pcie_reset events = [])).
Proof.
  unfold loop_body, in_reset.
  destruct (clear_io_queues_quiet 8 0) as (Q1 & Q2 & Q3 & Q4).
  destruct (Z.eqb_spec (status_read i 0) NVME_TASK_WAIT_CC_EN) as [E0|N0].
  { eexists _, 1, r. split; [reflexivity|].
    destruct (ccEn i =? 1); cbn; repeat split; try discriminate;
      try (left; split; reflexivity); intros (? & _); contradiction. }
  destruct (Z.eqb_spec (status_read i 1) NVME_TASK_RUNNING) as [E1|N1].
  { destruct (cmdValid i =? 1); [destruct (qID i =? 0)|].
    - eexists _, 1, 0. split; [reflexivity|]. cbn. repeat split; try discriminate;
        try (right; left; split; reflexivity); try (left; reflexivity);
        intros (_ & ? & _); contradiction.
    - eexists _, 0, 0. split; [reflexivity|]. cbn. repeat split; try discriminate;
        try (right; left; split; reflexivity); try (right; reflexivity);
        intros (_ & ? & _); contradiction.
    - eexists _, 1, r. split; [reflexivity|]. cbn. repeat split; try discriminate;
        try (left; split; reflexivity); try (left; reflexivity);
        intros (_ & ? & _); contradiction. }
  destruct (Z.eqb_spec (status_read i 2) NVME_TASK_SHUTDOWN) as [E2|N2].
  { eexists _, 1, r. split; [reflexivity|].
    destruct (negb (ccShn i =? 0));
      cbn [existsb filter is_scheduling is_io_cmd is_pcie_reset orb];
      rewrite ?existsb_app, ?filter_app, ?Q1, ?Q2, ?Q3, ?Q4; cbn;
      repeat split; try discriminate; try (left; split; reflexivity);
      try (left; reflexivity); intros (_ & _ & ? & _); contradiction. }
  destruct (Z.eqb_spec (status_read i 3) NVME_TASK_WAIT_RESET) as [E3|N3].
  { eexists _, 1, r. split; [reflexivity|].
    destruct (ccEn i =? 0); cbn; repeat split; try discriminate;
      try (left; split; reflexivity); try (left; reflexivity);
      intros (_ & _ & _ & ? & _); contradiction. }
  destruct (Z.eqb_spec (status_read i 4) NVME_TASK_RESET) as [E4|N4].
  { destruct (Z.leb_spec 5 r) as [Hr|Hr].
    - eexists _, 1, 0. split; [reflexivity|].
      rewrite ?existsb_app, ?filter_app, ?Q1, ?Q2, ?Q3, ?Q4. cbn.
      repeat split; try discriminate; try (left; reflexivity);
        try (intros _; left; repeat split; assumption).
      right. right. left. repeat split. assumption.
    - eexists _, 1, (wrap32 (r + 1)). split; [reflexivity|].
      rewrite ?existsb_app, ?filter_app, ?Q1, ?Q2, ?Q3, ?Q4. cbn.
      repeat split; try discriminate; try (left; reflexivity);
        try (intros _; right; repeat split; assumption).
      right. right. right. repeat split. assumption. }
  eexists [], 1, r. split; [reflexivity|]. cbn.
  repeat split; try discriminate; try (left; split; reflexivity);
    try (left; reflexivity).
  intros (_ & _ & _ & _ & ?). contradiction.
Qed.

Lemma filter_tail_pcie (b : bool) :
  filter is_pcie_reset
    (if b then [EvCheckDoneNvmeDmaReq; EvSchedulingNandReq] else []) = [].
Proof. destruct b; reflexivity. Qed.

Lemma loop_step i rest r :
  loop (i :: rest) r
  = (fst (loop rest (fst (loop_body i r))),
     snd (loop_body i r) ++ snd (loop rest (fst (loop_body i r)))).
Proof.
  cbn [loop]. destruct (loop_body i r) as [r1 e1]. cbn [fst snd].
  destruct (loop rest r1) as [r2 e2]. reflexivity.
Qed.

Lemma loop_bounds inputs : forall r,
  0 <= r <= 5 ->
  0 <= fst (loop inputs r) <= 5 /\
  forall c, In (EvPcieAsyncReset c) (snd (loop inputs r)) -> c = 5.
Proof.
  induction inputs as [|i rest IH]; intros r Hr.
  - cbn. split; [assumption|]. intros c [].
  - rewrite loop_step. cbn [fst snd].
    destruct (loop_body_summary i r) as (ev & x & r' & E & _ & _ & _ & Hcases & _).
    rewrite E. cbn [fst snd].
    assert (Hr' : 0 <= r' <= 5 /\
                  forall c, In (EvPcieAsyncReset c) (filter is_pcie_reset ev) -> c = 5).
    { destruct Hcases as [(-> & ->)|[(-> & ->)|[(H5 & -> & ->)|(H5 & -> & ->)]]].
      - split; [assumption|]. intros c [].
      - split; [lia|]. intros c [].
      - split; [lia|]. intros c [Ec|[]]. injection Ec as <-. lia.
      - split; [|intros c []]. rewrite wrap32_small; lia. }
    destruct Hr' as [Hr' Hev]. destruct (IH r' Hr') as [Hfin Hrest].
    split; [assumption|]. intros c Hin.
    apply in_app_or in Hin as [Hin|Hin]; [|apply Hrest; assumption].
    apply Hev. apply pcie_reset_In in Hin.
    rewrite filter_app, filter_tail_pcie, app_nil_r in Hin. assumption.
Qed.

Lemma loop_resets inputs : forall r,
  0 <= r <= 5 -> Forall in_reset inputs ->
  fst (loop inputs r) = (r + Z.of_nat (length inputs)) mod 6 /\
  Z.of_nat (length (filter is_pcie_reset (snd (loop inputs r))))
  = (r + Z.of_nat (length inputs)) / 6.
Proof.
  induction inputs as [|i rest IH]; intros r Hr Hall.
  - cbn [loop fst snd length filter Z.of_nat]. rewrite Z.add_0_r.
    rewrite Z.mod_small, Z.div_small by lia. split; reflexivity.
  - apply Forall_cons_iff in Hall as [Hi Hrest].
    rewrite loop_step. cbn [fst snd].
    destruct (loop_body_summary i r) as (ev & x & r' & E & _ & _ & _ & _ & Hreset).
    rewrite E. cbn [fst snd].
    rewrite !filter_app, filter_tail_pcie, app_nil_r, length_app, Nat2Z.inj_add.
    cbn [length]. rewrite Nat2Z.inj_succ.
    destruct (Hreset Hi) as [(H5 & -> & ->)|(H5 & -> & ->)].
    + destruct (IH 0 ltac:(lia) Hrest) as [E1 E2]. rewrite E1, E2.
      assert (r = 5) by lia. subst r. cbn [length Z.of_nat Pos.of_succ_nat].
      replace (5 + Z.succ (Z.of_nat (length rest)))
        with (0 + Z.of_nat (length rest) + 1 * 6) by lia.
      rewrite Z_mod_plus_full, Z_div_plus_full by lia. split; [reflexivity|lia].
    + rewrite wrap32_small by lia.
      destruct (IH (r + 1) ltac:(lia) Hrest) as [E1 E2]. rewrite E1, E2.
      cbn [length Z.of_nat].
      replace (r + 1 + Z.of_nat (length rest))
        with (r + Z.succ (Z.of_nat (length rest))) by lia.
      split; [reflexivity|lia].
Qed.

End NvmeLoop.

(** X19. However the task status changes and whatever the called
    routines answer, [rstCnt] stays between 0 and 5: its increment never
    wraps, and [pcie_async_reset] is only ever called with the argument
    5. *)
Theorem reset_counter_stays_within_five `{Nvme.NvmeConfig} :
  forall inputs,
    0 <= fst (Nvme.nvme_main inputs) <= 5 /\
    forall c, In (Nvme.EvPcieAsyncReset c) (snd (Nvme.nvme_main inputs)) -> c = 5.
Proof.
  intros inputs. unfold Nvme.nvme_main.
  destruct (loop_bounds inputs 0 ltac:(lia)) as [Hr Hev].
  destruct (Nvme.loop inputs 0) as [r events]. cbn [fst snd] in *.
  split; [assumption|]. intros c Hin.
  apply in_app_or in Hin as [Hin|Hin]; [|apply Hev; assumption].
  cbn in Hin. repeat (destruct Hin as [Hin|Hin]; [discriminate|]). contradiction.
Qed.

(** X20. In every iteration the low-level scheduler ([CheckDoneNvmeDmaReq]
    then [SchedulingNandReq], the last two events) runs exactly when the
    iteration has not handled an I/O command and a request is pending. *)
Theorem low_level_scheduling_condition `{Nvme.NvmeConfig} :
  forall i rstCnt,
    let events := snd (Nvme.loop_body i rstCnt) in
    (In Nvme.EvSchedulingNandReq events <->
     ~ In Nvme.EvHandleNvmeIoCmd events /\ Nvme.pending i = true) /\
    (In Nvme.EvSchedulingNandReq events ->
     exists before,
       events = before ++ [Nvme.EvCheckDoneNvmeDmaReq; Nvme.EvSchedulingNandReq] /\
       ~ In Nvme.EvSchedulingNandReq before).
Proof.
  intros i r events. subst events.
  destruct (loop_body_summary i r) as (ev & x & r' & E & Hs & Hx & Hio & _).
  rewrite E. cbn [snd].
  rewrite !existsb_In_scheduling, !existsb_In_io_cmd, !existsb_app, Hs.
  cbn [orb].
  assert (Hio' : existsb Nvme.is_io_cmd ev = negb (negb (x =? 0))).
  { destruct Hx as [-> | ->]; cbn.
    - destruct (existsb Nvme.is_io_cmd ev); [|reflexivity].
      destruct Hio as [Hio _]. specialize (Hio eq_refl). discriminate.
    - apply Hio. reflexivity. }
  rewrite Hio'.
  destruct (negb (x =? 0)), (Nvme.pending i); cbn; split.
  - split; [intros _; split; [discriminate|reflexivity]|reflexivity].
  - intros _. exists ev. split; [reflexivity|].
    rewrite existsb_In_scheduling, Hs. discriminate.
  - split; [discriminate|intros [_ ?]; discriminate].
  - discriminate.
  - split; [discriminate|intros [? _]; congruence].
  - discriminate.
  - split; [discriminate|intros [? _]; congruence].
  - discriminate.
Qed.

(** X21. While the loop finds the reset state and nothing else, it calls
    [pcie_async_reset] in every sixth iteration: after [n] such iterations
    from the start, [rstCnt] is [n mod 6] and [n / 6] asynchronous resets
    have been issued. *)
Theorem pcie_reset_every_sixth_reset `{Nvme.NvmeConfig} :
  forall inputs,
    Forall Nvme.in_reset inputs ->
    fst (Nvme.nvme_main inputs) = Z.of_nat (length inputs) mod 6 /\
    Z.of_nat (length (filter Nvme.is_pcie_reset (snd (Nvme.nvme_main inputs))))
    = Z.of_nat (length inputs) / 6.
Proof.
  intros inputs Hall. unfold Nvme.nvme_main.
  destruct (loop_resets inputs 0 ltac:(lia) Hall) as [Hr Hev].
  destruct (Nvme.loop inputs 0) as [r events]. cbn [fst snd] in *.
  split; [assumption|]. rewrite filter_app. cbn [filter Nvme.is_pcie_reset app].
  assumption.
Qed.

(** X21 at six iterations in the reset state: the sixth calls
    [pcie_async_reset] and [rstCnt] is 0 again. *)
Lemma pcie_reset_every_sixth_reset_witness :
  Forall (@Nvme.in_reset Nvme.nvme_cfg) (repeat Nvme.in_reset_input 6) /\
  fst (@Nvme.nvme_main Nvme.nvme_cfg (repeat Nvme.in_reset_input 6)) = 0 /\
  Z.of_nat (length (filter Nvme.is_pcie_reset
                      (snd (@Nvme.nvme_main Nvme.nvme_cfg (repeat Nvme.in_reset_input 6)))))
  = 1.
Proof.
  assert (Hall : Forall (@Nvme.in_reset Nvme.nvme_cfg) (repeat Nvme.in_reset_input 6)).
  { apply Forall_forall. intros i Hi. apply repeat_spec in Hi. subst i.
    unfold Nvme.in_reset. cbn. repeat split; discriminate. }
  split; [exact Hall|].
  exact (@pcie_reset_every_sixth_reset Nvme.nvme_cfg (repeat Nvme.in_reset_input 6) Hall).
Defined.

(** * Further properties of the policies *)

Section PolicyFurther.
Context `{FtlConfig}.
Hypothesis Hcfg : config_ok.

(** A quotient below [2^32] by a divisor below [2^32] has a dividend
    below [2^64]. *)
Lemma dividend_fits n q :
  0 <= n -> 0 < q < 2 ^ 32 -> n / q < 2 ^ 32 -> n < 2 ^ 64.
Proof.
  intros Hn Hq Hfit.
  pose proof (Z.mul_succ_div_gt n q ltac:(lia)) as Hd.
  assert (Z.succ (n / q) <= 2 ^ 32) by lia.
  assert (0 <= n / q) by (apply Z.div_pos; lia).
  assert (q * Z.succ (n / q) <= 2 ^ 32 * 2 ^ 32)
    by (apply Z.mul_le_mono_nonneg; lia).
  change (2 ^ 64) with (2 ^ 32 * 2 ^ 32). lia.
Qed.

Lemma quotient_mono n1 n2 q1 q2 :
  0 <= n1 <= n2 -> 0 < q2 <= q1 -> n1 / q1 <= n2 / q2.
Proof.
  intros Hn Hq. apply Z.le_trans with (n2 / q1).
  - apply Z.div_le_mono; lia.
  - apply Z.div_le_compat_l; lia.
Qed.

Lemma CostBenefit_score_mono st d b1 b2 :
  0 <= invalidSliceCnt (block st d b1) <= invalidSliceCnt (block st d b2) ->
  invalidSliceCnt (block st d b2) <= USER_PAGES_PER_BLOCK ->
  age st d b1 <= age st d b2 < 2 ^ 32 - 1 ->
  invalidSliceCnt (block st d b2) * (age st d b2 + 1) * USER_PAGES_PER_BLOCK
  / (USER_PAGES_PER_BLOCK - invalidSliceCnt (block st d b2) + 1) < 2 ^ 32 ->
  CostBenefit.CalculateCostBenefitScore st d b1
  <= CostBenefit.CalculateCostBenefitScore st d b2.
Proof.
  intros HI HP HA Hfit. unfold age in *.
  pose proof (wrap32_range (gcActivityTick st - gcLastTick st d b1)) as HA1.
  rewrite !(CostBenefit_score_formula st d _ Hcfg) by lia.
  unfold spec_cost_benefit_score.
  set (A1 := wrap32 (gcActivityTick st - gcLastTick st d b1)) in *.
  set (A2 := wrap32 (gcActivityTick st - gcLastTick st d b2)) in *.
  set (I1 := invalidSliceCnt (block st d b1)) in *.
  set (I2 := invalidSliceCnt (block st d b2)) in *.
  set (P := USER_PAGES_PER_BLOCK) in *.
  assert (HPr : 0 <= P < 2 ^ 32 - 1) by (unfold config_ok in Hcfg; subst P; lia).
  assert (Hle : 0 <= I1 * (A1 + 1) * P <= I2 * (A2 + 1) * P).
  { split; [apply Z.mul_nonneg_nonneg; [apply Z.mul_nonneg_nonneg|]; lia|].
    apply Z.mul_le_mono_nonneg_r; [lia|]. apply Z.mul_le_mono_nonneg; lia. }
  assert (H2 : I2 * (A2 + 1) * P < 2 ^ 64)
    by (apply (dividend_fits _ (P - I2 + 1)); lia).
  rewrite (wrap64_small (I1 * (A1 + 1) * P)), (wrap64_small (I2 * (A2 + 1) * P)) by lia.
  assert (Hq : I1 * (A1 + 1) * P / (P - I1 + 1) <= I2 * (A2 + 1) * P / (P - I2 + 1))
    by (apply quotient_mono; lia).
  assert (Hq0 : 0 <= I1 * (A1 + 1) * P / (P - I1 + 1)) by (apply Z.div_pos; lia).
  destruct (Z.eqb_spec (I1 * (A1 + 1) * P) 0) as [E1|N1];
    destruct (Z.eqb_spec (I2 * (A2 + 1) * P) 0) as [E2|N2].
  - lia.
  - apply wrap32_range.
  - lia.
  - rewrite !wrap32_small by lia. assumption.
Qed.

Lemma CAT_score_mono st d b1 b2 :
  0 <= invalidSliceCnt (block st d b1) <= invalidSliceCnt (block st d b2) ->
  invalidSliceCnt (block st d b2) <= USER_PAGES_PER_BLOCK ->
  age st d b1 <= age st d b2 < 2 ^ 32 - 1 ->
  0 <= eraseCnt (block st d b2) <= eraseCnt (block st d b1) ->
  eraseCnt (block st d b1) < 2 ^ 32 - 1 ->
  (invalidSliceCnt (block st d b2) + 1) * (age st d b2 + 1)
  / ((USER_PAGES_PER_BLOCK - invalidSliceCnt (block st d b2) + 1)
     * (eraseCnt (block st d b2) + 1)) < 2 ^ 32 ->
  CAT.CalculateCatScore st d b1 <= CAT.CalculateCatScore st d b2.
Proof.
  intros HI HP HA HW HW1 Hfit. unfold age in *.
  pose proof (wrap32_range (gcActivityTick st - gcLastTick st d b1)) as HA1.
  rewrite !(CAT_score_formula st d _ Hcfg) by lia.
  unfold spec_cat_score.
  set (A1 := wrap32 (gcActivityTick st - gcLastTick st d b1)) in *.
  set (A2 := wrap32 (gcActivityTick st - gcLastTick st d b2)) in *.
  set (I1 := invalidSliceCnt (block st d b1)) in *.
  set (I2 := invalidSliceCnt (block st d b2)) in *.
  set (W1 := eraseCnt (block st d b1)) in *.
  set (W2 := eraseCnt (block st d b2)) in *.
  set (P := USER_PAGES_PER_BLOCK) in *.
  assert (HPr : 0 <= P < 2 ^ 32 - 1) by (unfold config_ok in Hcfg; subst P; lia).
  assert (HN : forall I A, 0 <= I <= P -> 0 <= A < 2 ^ 32 - 1 ->
                 0 <= (I + 1) * (A + 1) < 2 ^ 64).
  { intros I A HIr HAr. split; [apply Z.mul_nonneg_nonneg; lia|].
    apply Z.lt_le_trans with (2 ^ 32 * 2 ^ 32); [|reflexivity].
    apply Z.mul_lt_mono_nonneg; lia. }
  assert (HD : forall I W, 0 <= I <= P -> 0 <= W < 2 ^ 32 - 1 ->
                 0 < (P - I + 1) * (W + 1) < 2 ^ 64).
  { intros I W HIr HWr. split; [apply Z.mul_pos_pos; lia|].
    apply Z.lt_le_trans with (2 ^ 32 * 2 ^ 32); [|reflexivity].
    apply Z.mul_lt_mono_nonneg; lia. }
  pose proof (HN I1 A1 ltac:(lia) ltac:(lia)) as HN1.
  pose proof (HN I2 A2 ltac:(lia) ltac:(lia)) as HN2.
  pose proof (HD I1 W1 ltac:(lia) ltac:(lia)) as HD1.
  pose proof (HD I2 W2 ltac:(lia) ltac:(lia)) as HD2.
  rewrite (wrap64_small _ HN1), (wrap64_small _ HN2).
  rewrite (wrap64_small ((P - I1 + 1) * (W1 + 1))) by lia.
  rewrite (wrap64_small ((P - I2 + 1) * (W2 + 1))) by lia.
  assert (Hq : (I1 + 1) * (A1 + 1) / ((P - I1 + 1) * (W1 + 1))
               <= (I2 + 1) * (A2 + 1) / ((P - I2 + 1) * (W2 + 1))).
  { apply quotient_mono.
    - split; [lia|]. apply Z.mul_le_mono_nonneg; lia.
    - split; [lia|]. apply Z.mul_le_mono_nonneg; lia. }
  assert (Hq0 : 0 <= (I1 + 1) * (A1 + 1) / ((P - I1 + 1) * (W1 + 1)))
    by (apply Z.div_pos; lia).
  rewrite !wrap32_small by lia. assumption.
Qed.

End PolicyFurther.

(** X22. As long as the larger quotient fits 32 bits and the ages are
    below [2^32 - 1], the scores are monotone: a block with at least as
    many invalid slices and at least the age of another has at least its
    Cost-Benefit score, and, when its erase count is not larger, at least
    its CAT score. *)
Theorem scores_are_monotone `{FtlConfig} :
  config_ok ->
  forall st d b1 b2,
    0 <= invalidSliceCnt (block st d b1) <= invalidSliceCnt (block st d b2) ->
    invalidSliceCnt (block st d b2) <= USER_PAGES_PER_BLOCK ->
    age st d b1 <= age st d b2 < 2 ^ 32 - 1 ->
    (invalidSliceCnt (block st d b2) * (age st d b2 + 1) * USER_PAGES_PER_BLOCK
     / (USER_PAGES_PER_BLOCK - invalidSliceCnt (block st d b2) + 1) < 2 ^ 32 ->
     CostBenefit.CalculateCostBenefitScore st d b1
     <= CostBenefit.CalculateCostBenefitScore st d b2) /\
    (0 <= eraseCnt (block st d b2) <= eraseCnt (block st d b1) ->
     eraseCnt (block st d b1) < 2 ^ 32 - 1 ->
     (invalidSliceCnt (block st d b2) + 1) * (age st d b2 + 1)
     / ((USER_PAGES_PER_BLOCK - invalidSliceCnt (block st d b2) + 1)
        * (eraseCnt (block st d b2) + 1)) < 2 ^ 32 ->
     CAT.CalculateCatScore st d b1 <= CAT.CalculateCatScore st d b2).
Proof.
  intros Hcfg st d b1 b2 HI HP HA. split.
  - intros Hfit. apply (CostBenefit_score_mono Hcfg); assumption.
  - intros HW HW1 Hfit. apply (CAT_score_mono Hcfg); assumption.
Qed.

(** X23. The Greedy victim has the most invalid slices: no block of any
    bucket of the die has a larger invalid count than the block the Greedy
    [GetFromGcVictimList] returns. *)
Theorem greedy_victim_has_most_invalid_slices `{FtlConfig} :
  config_ok ->
  forall st d b st',
    wf_index st d ->
    Greedy.GetFromGcVictimList d st = Returned (b, st') ->
    forall k x, 0 <= k <= SLICES_PER_BLOCK -> in_bucket st d k x ->
      invalidSliceCnt (block st d x) <= invalidSliceCnt (block st d b).
Proof.
  intros Hcfg st d b st' Hwf Hret k x Hk (l & Hl & Hx).
  destruct (Greedy_Get_returns Hcfg st d b st' Hwf Hret)
    as (_ & kb & r & Hkb & Hr & Hhigher).
  rewrite (bucket_repr_cnt st d k l x Hl Hx).
  rewrite (bucket_repr_cnt st d kb (b :: r) b Hr (or_introl eq_refl)).
  destruct (Z.le_gt_cases k kb) as [Hle|Hgt]; [assumption|].
  pose proof (bucket_repr_unique Hcfg _ _ _ _ _ Hl (Hhigher k ltac:(lia))) as E.
  subst l. destruct Hx.
Qed.

(** X24. The Greedy [GarbageCollection] ends in the assertion of the
    selection, with no event issued, exactly when the buckets 1 to
    [SLICES_PER_BLOCK] of the die are empty; otherwise it returns. *)
Theorem greedy_collection_asserts_iff_no_candidate
    `{FtlConfig} `{ReqFormat} `{FtlExternals} :
  config_ok ->
  forall d m,
    wf_index (gc_ftl m) d ->
    (Greedy_GarbageCollection d m = AssertFailed <->
     forall k, 1 <= k <= SLICES_PER_BLOCK -> bucket_repr (gc_ftl m) d k []) /\
    (Greedy_GarbageCollection d m <> AssertFailed ->
     exists mfin, Greedy_GarbageCollection d m = Returned mfin).
Proof.
  intros Hcfg d m Hwf.
  pose proof (Greedy_Get_asserts_iff Hcfg (gc_ftl m) d Hwf) as Hiff.
  unfold Greedy_GarbageCollection, GarbageCollection_with.
  assert (HS : 0 <= SLICES_PER_BLOCK) by (unfold config_ok in Hcfg; lia).
  destruct (Greedy_from_spec Hcfg (gc_ftl m) d (Z.to_nat SLICES_PER_BLOCK))
    as [[Ha He]|(k0 & x0 & r0 & Hk0 & Hr0 & He0 & Hret)].
  - intros k' Hk'. apply Hwf. lia.
  - unfold Greedy.GetFromGcVictimList. rewrite Ha. split.
    + split; [intros _|reflexivity]. apply Hiff. exact Ha.
    + intros Hne. contradiction.
  - unfold Greedy.GetFromGcVictimList in *. rewrite Hret. split.
    + split; [discriminate|]. intros Hempty.
      apply Hiff in Hempty. rewrite Hret in Hempty. discriminate.
    + intros _. eexists. reflexivity.
Qed.


(** * The further properties at concrete states *)

Lemma st_pair_upper_empty :
  forall k', 1 < k' <= @SLICES_PER_BLOCK cfg4 -> @bucket_repr cfg4 st_pair 0 k' [].
Proof.
  intros k' Hk'. cbn in Hk'.
  assert (E : k' = 2 \/ k' = 3 \/ k' = 4) by lia.
  destruct E as [->|[->| ->]]; apply bucket_reprb_sound; vm_compute; reflexivity.
Qed.

Lemma st_pair_plus_wf : @wf_index cfg4 st_pair_plus 0.
Proof. apply (wf_indexb_sound (H := cfg4) 9). vm_compute. reflexivity. Qed.

Lemma st_pair_plus_bucket : @bucket_repr cfg4 st_pair_plus 0 1 [0; 1].
Proof. apply bucket_reprb_sound. vm_compute. reflexivity. Qed.

Lemma st_pair_plus_outsider : @in_no_list cfg4 st_pair_plus 0 2.
Proof.
  apply (in_no_listb_sound (H := cfg4) 9); [exact cfg4_ok| |]; vm_compute; reflexivity.
Qed.

(** X1 at a store of zeros: after the initialisation bucket 1 of die 0 is
    empty and the Greedy selection ends in the assertion. *)
Lemma init_gives_empty_index_witness :
  @config_ok cfg4 /\ 0 <= 0 < @USER_DIES cfg4 /\
  @bucket_repr cfg4 (@Greedy.InitGcVictimMap cfg4 st_zero) 0 1 [] /\
  gcActivityTick (@CostBenefit.InitGcVictimMap cfg4 st_zero) = 0 /\
  @Greedy.GetFromGcVictimList cfg4 0 (@Greedy.InitGcVictimMap cfg4 st_zero)
  = AssertFailed.
Proof.
  assert (Hd : 0 <= 0 < @USER_DIES cfg4) by (cbn; lia).
  split; [exact cfg4_ok|]. split; [exact Hd|].
  destruct (@init_gives_empty_index cfg4 cfg4_ok st_zero 0 Hd)
    as (Hb & Ht & _ & _ & _ & _ & _ & Hg & _).
  split; [|split; [exact Ht|exact Hg]].
  destruct (Hb 1 ltac:(cbn; lia)) as [Hb1 _]. exact Hb1.
Defined.

(** X2 at the bucket [0; 1]: block 2, with one invalid slice, is put and
    bucket 1 becomes [0; 1; 2]. *)
Lemma put_appends_at_tail_witness :
  @config_ok cfg4 /\ @wf_index cfg4 st_pair_plus 0 /\
  @in_no_list cfg4 st_pair_plus 0 2 /\
  @bucket_repr cfg4 st_pair_plus 0 1 [0; 1] /\
  @bucket_repr cfg4 (@CAT.PutToGcVictimList cfg4 0 2 1 st_pair_plus) 0 1 [0; 1; 2] /\
  tailBlock (gcVictimList (@CAT.PutToGcVictimList cfg4 0 2 1 st_pair_plus) 0 1) = 2.
Proof.
  split; [exact cfg4_ok|]. split; [exact st_pair_plus_wf|].
  split; [exact st_pair_plus_outsider|]. split; [exact st_pair_plus_bucket|].
  destruct (@put_appends_at_tail cfg4 cfg4_ok st_pair_plus 0 2 1 [0; 1]
              st_pair_plus_wf) with (put := @CAT.PutToGcVictimList cfg4)
    as (Hnew & Htail & _).
  - vm_compute. split; [discriminate|reflexivity].
  - cbn. lia.
  - vm_compute. reflexivity.
  - exact st_pair_plus_outsider.
  - exact st_pair_plus_bucket.
  - right. right. reflexivity.
  - split; [exact Hnew|exact Htail].
Defined.

(** X3 at the bucket [0; 1]: block 0 is unlinked and the bucket is [1]. *)
Lemma unlink_removes_only_the_block_witness :
  @config_ok cfg4 /\ @wf_index cfg4 st_pair 0 /\
  @bucket_repr cfg4 st_pair 0 1 ([] ++ 0 :: [1]) /\
  @bucket_repr cfg4 (@SelectiveGetFromGcVictimList cfg4 0 0 st_pair) 0 1 [1] /\
  @in_no_list cfg4 (@SelectiveGetFromGcVictimList cfg4 0 0 st_pair) 0 0.
Proof.
  split; [exact cfg4_ok|]. split; [exact st_pair_wf|]. split; [exact st_pair_bucket|].
  destruct (@unlink_removes_only_the_block cfg4 cfg4_ok st_pair 0 1 [] 0 [1]
              st_pair_wf ltac:(cbn; lia) st_pair_bucket
              (@SelectiveGetFromGcVictimList cfg4) (or_introl eq_refl))
    as (Hrest & _ & Hno & _).
  split; [exact Hrest|exact Hno].
Defined.

(** X4 at the bucket [0; 1]: bucket 1 is the highest non-empty bucket and
    its head, block 0, is returned. *)
Lemma greedy_pops_head_of_highest_bucket_witness :
  @config_ok cfg4 /\ @wf_index cfg4 st_pair 0 /\
  exists st',
    @Greedy.GetFromGcVictimList cfg4 0 st_pair = Returned (0, st') /\
    @bucket_repr cfg4 st' 0 1 [1].
Proof.
  split; [exact cfg4_ok|]. split; [exact st_pair_wf|].
  destruct (@greedy_pops_head_of_highest_bucket cfg4 cfg4_ok st_pair 0 st_pair_wf)
    as [_ Hpop].
  destruct (Hpop 1 0 [1] ltac:(cbn; lia) st_pair_bucket st_pair_upper_empty)
    as (st' & Hret & Hrest & _).
  exists st'. split; [exact Hret|exact Hrest].
Defined.

(** X5 at the bucket [0; 1]: block 0 is unlinked and put back, and the
    bucket is [1; 0]. *)
Lemma unlink_then_put_moves_to_tail_witness :
  @config_ok cfg4 /\ @wf_index cfg4 st_pair 0 /\
  @bucket_repr cfg4
    (@Greedy.PutToGcVictimList cfg4 0 0 1 (@SelectiveGetFromGcVictimList cfg4 0 0 st_pair))
    0 1 [1; 0].
Proof.
  split; [exact cfg4_ok|]. split; [exact st_pair_wf|].
  destruct (@unlink_then_put_moves_to_tail cfg4 cfg4_ok st_pair 0 1 [] 0 [1]
              st_pair_wf ltac:(cbn; lia) st_pair_bucket) as (Hnew & _).
  exact Hnew.
Defined.

(** X6 at the bucket [0; 1]: block 2 is put, block 0 is returned and the
    bucket is [1; 2]. *)
Lemma greedy_bucket_is_first_in_first_out_witness :
  @config_ok cfg4 /\ @wf_index cfg4 st_pair_plus 0 /\
  @in_no_list cfg4 st_pair_plus 0 2 /\
  exists st',
    @Greedy.GetFromGcVictimList cfg4 0 (@Greedy.PutToGcVictimList cfg4 0 2 1 st_pair_plus)
    = Returned (0, st') /\
    @bucket_repr cfg4 st' 0 1 [1; 2].
Proof.
  split; [exact cfg4_ok|]. split; [exact st_pair_plus_wf|].
  split; [exact st_pair_plus_outsider|].
  apply (@greedy_bucket_is_first_in_first_out cfg4 cfg4_ok st_pair_plus 0 2 1 [0; 1]
           st_pair_plus_wf).
  - vm_compute. split; [discriminate|reflexivity].
  - cbn. lia.
  - vm_compute. reflexivity.
  - exact st_pair_plus_outsider.
  - exact st_pair_plus_bucket.
  - intros k' Hk'. cbn in Hk'.
    assert (E : k' = 2 \/ k' = 3 \/ k' = 4) by lia.
    destruct E as [->|[->| ->]]; apply bucket_reprb_sound; vm_compute; reflexivity.
Defined.

(** X7 at the bucket [0; 1]: the Greedy victim, block 0, has one invalid
    slice and is in no list afterwards. *)
Lemma victim_was_a_candidate_witness :
  @config_ok cfg4 /\ @wf_index cfg4 st_pair 0 /\
  @Greedy.GetFromGcVictimList cfg4 0 st_pair
  = Returned (0, @SelectiveGetFromGcVictimList cfg4 0 0 st_pair) /\
  1 <= invalidSliceCnt (block st_pair 0 0) <= @SLICES_PER_BLOCK cfg4 /\
  @in_no_list cfg4 (@SelectiveGetFromGcVictimList cfg4 0 0 st_pair) 0 0.
Proof.
  assert (Hret : @Greedy.GetFromGcVictimList cfg4 0 st_pair
                 = Returned (0, @SelectiveGetFromGcVictimList cfg4 0 0 st_pair)).
  { vm_compute. reflexivity. }
  split; [exact cfg4_ok|]. split; [exact st_pair_wf|]. split; [exact Hret|].
  destruct (@victim_was_a_candidate cfg4 cfg4_ok st_pair 0 9 0 _ st_pair_wf
              ltac:(cbn; lia) (or_introl Hret))
    as (_ & Hcnt & _ & _ & Hno).
  split; [exact Hcnt|exact Hno].
Defined.

(** X8 at the fresh block of the CAT build: its only candidate has the
    score 0 and the selection ends in the assertion. *)
Lemma scanning_selection_asserts_iff_scores_zero_witness :
  @config_ok cfg4 /\ @candidates cfg4 st_cat_fresh 0 [0] /\
  (Z.to_nat (@USER_BLOCKS_PER_DIE cfg4) <= 9)%nat /\
  @CAT.GetFromGcVictimList cfg4 9 0 st_cat_fresh = AssertFailed.
Proof.
  assert (Hl : @candidates cfg4 st_cat_fresh 0 [0]).
  { apply (candidates_computed (H := cfg4) 9). vm_compute. reflexivity. }
  assert (Hf : (Z.to_nat (@USER_BLOCKS_PER_DIE cfg4) <= 9)%nat) by (cbn; lia).
  split; [exact cfg4_ok|]. split; [exact Hl|]. split; [exact Hf|].
  destruct (@scanning_selection_asserts_iff_scores_zero cfg4 cfg4_ok
              st_cat_fresh 0 [0] 9 Hl Hf) as [_ [_ Hcat]].
  apply Hcat. intros c [<-|[]]. vm_compute. reflexivity.
Defined.

(** X9 at two CAT candidates of age 10 in bucket 3 with erase counts 0
    and 1: block 0, of score [44 / 2 = 22], is returned rather than block
    1, of score [44 / 4 = 11]. *)
Lemma cat_selection_dominance_witness :
  @config_ok cfg4 /\ @candidates cfg4 (st_cat_two 0 1) 0 [0; 1] /\
  (Z.to_nat (@USER_BLOCKS_PER_DIE cfg4) <= 9)%nat /\
  @CAT.GetFromGcVictimList cfg4 9 0 (st_cat_two 0 1)
  = Returned (0, @DetachBlockFromGcList cfg4 0 0 (st_cat_two 0 1)) /\
  @CAT.CalculateCatScore cfg4 (st_cat_two 0 1) 0 1
  <= @CAT.CalculateCatScore cfg4 (st_cat_two 0 1) 0 0.
Proof.
  assert (Hl : @candidates cfg4 (st_cat_two 0 1) 0 [0; 1]).
  { apply (candidates_computed (H := cfg4) 9). vm_compute. reflexivity. }
  assert (Hf : (Z.to_nat (@USER_BLOCKS_PER_DIE cfg4) <= 9)%nat) by (cbn; lia).
  assert (Hret : @CAT.GetFromGcVictimList cfg4 9 0 (st_cat_two 0 1)
                 = Returned (0, @DetachBlockFromGcList cfg4 0 0 (st_cat_two 0 1))).
  { vm_compute. reflexivity. }
  split; [exact cfg4_ok|]. split; [exact Hl|]. split; [exact Hf|].
  split; [exact Hret|].
  destruct (@cat_selection_dominance cfg4 cfg4_ok (st_cat_two 0 1) 0 [0; 1] 9 Hl Hf)
    as [Hdom _].
  destruct (Hdom 0 _ Hret) as (_ & l1 & l2 & _ & Hall & _).
  apply Hall. right. left. reflexivity.
Defined.

(** X10 after the initialisation: the put of block 0 with count 1 makes
    block 1 one tick older in both builds and leaves block 0 at age 0 in
    the CAT build. *)
Lemma put_advances_ages_witness :
  1 <> 0 /\ (0, 1) <> (0, 0) /\
  age (@CostBenefit.PutToGcVictimList cfg4 0 0 1 st_boot) 0 1
  = wrap32 (age st_boot 0 1 + 1) /\
  age (@CAT.PutToGcVictimList cfg4 0 0 1 st_boot) 0 0 = 0 /\
  age (@CAT.PutToGcVictimList cfg4 0 0 1 st_boot) 0 1
  = wrap32 (age st_boot 0 1 + 1).
Proof.
  assert (Hc : 1 <> 0) by discriminate.
  assert (Hne : (0, 1) <> (0, 0)) by discriminate.
  split; [exact Hc|]. split; [exact Hne|].
  destruct (@put_advances_ages cfg4 st_boot 0 0 1 0 1) as [Hstep _].
  destruct (Hstep Hc) as (Hcb & Hzero & Hcat).
  split; [exact Hcb|]. split; [exact Hzero|exact (Hcat Hne)].
Defined.

(** X11 at the two candidates of [st_cb_two]: block 0 has age 0 and the
    quotient [4 * 1 * 4 / 1 = 16], and a block is returned. *)
Lemma cost_benefit_returns_when_a_score_fits_witness :
  @config_ok cfg4 /\ @candidates cfg4 st_cb_two 0 [0; 1] /\
  age st_cb_two 0 0 < 2 ^ 32 - 1 /\
  @CostBenefit.CalculateCostBenefitScore cfg4 st_cb_two 0 0 = 16 /\
  exists b,
    In b [0; 1] /\
    @CostBenefit.GetFromGcVictimList cfg4 9 0 st_cb_two
    = Returned (b, @DetachBlockFromGcList cfg4 0 b st_cb_two).
Proof.
  assert (Hl : @candidates cfg4 st_cb_two 0 [0; 1]).
  { apply (candidates_computed (H := cfg4) 9). vm_compute. reflexivity. }
  assert (HA : age st_cb_two 0 0 < 2 ^ 32 - 1) by (vm_compute; reflexivity).
  split; [exact cfg4_ok|]. split; [exact Hl|]. split; [exact HA|].
  destruct (@cost_benefit_returns_when_a_score_fits cfg4 cfg4_ok st_cb_two 0 [0; 1] 9 0
              Hl ltac:(cbn; lia) ltac:(left; reflexivity) HA)
    as (Escore & _ & Hret).
  - vm_compute. reflexivity.
  - split; [|exact Hret]. rewrite Escore. vm_compute. reflexivity.
Defined.

(** X12 after the initialisation: block 0 takes its first invalid slice
    and is put; its score is [2 / 4 = 0]. *)
Lemma cat_score_right_after_put_witness :
  @config_ok cfg4 /\
  1 + 1 < (@USER_PAGES_PER_BLOCK cfg4 - 1 + 1)
          * (eraseCnt (block (set_invalidSliceCnt 0 0 1 st_boot) 0 0) + 1) /\
  age (@CAT.PutToGcVictimList cfg4 0 0 1 (set_invalidSliceCnt 0 0 1 st_boot)) 0 0 = 0 /\
  @CAT.CalculateCatScore cfg4
    (@CAT.PutToGcVictimList cfg4 0 0 1 (set_invalidSliceCnt 0 0 1 st_boot)) 0 0 = 0.
Proof.
  assert (Hsmall : 1 + 1 < (@USER_PAGES_PER_BLOCK cfg4 - 1 + 1)
          * (eraseCnt (block (set_invalidSliceCnt 0 0 1 st_boot) 0 0) + 1))
    by (vm_compute; reflexivity).
  split; [exact cfg4_ok|]. split; [exact Hsmall|].
  destruct (@cat_score_right_after_put cfg4 cfg4_ok (set_invalidSliceCnt 0 0 1 st_boot)
              0 0 1 ltac:(cbn; lia) ltac:(vm_compute; reflexivity)
              ltac:(vm_compute; split; [discriminate|reflexivity]))
    as (Hage & _ & Hzero).
  split; [exact Hage|exact (Hzero Hsmall)].
Defined.

(** X13 at the bucket [0; 1]: its tail, block 1, is put again. *)
Lemma put_of_the_tail_closes_a_cycle_witness :
  1 <> @BLOCK_NONE cfg4 /\ tailBlock (gcVictimList st_pair 0 1) = 1 /\
  nextBlock (block (@Greedy.PutToGcVictimList cfg4 0 1 1 st_pair) 0 1) = 1 /\
  forall fuel,
    @scan_bucket cfg4 fuel
      (@CAT.CalculateCatScore cfg4 (@Greedy.PutToGcVictimList cfg4 0 1 1 st_pair) 0)
      (@Greedy.PutToGcVictimList cfg4 0 1 1 st_pair) 0 1 (@BLOCK_FAIL cfg4, 0) = None.
Proof.
  assert (Hb : 1 <> @BLOCK_NONE cfg4) by discriminate.
  assert (Ht : tailBlock (gcVictimList st_pair 0 1) = 1) by (vm_compute; reflexivity).
  split; [exact Hb|]. split; [exact Ht|].
  destruct (@put_of_the_tail_closes_a_cycle cfg4 st_pair 0 1 1 Hb Ht) as (Hn & _ & Hloop).
  split; [exact Hn|]. intros fuel. apply Hloop.
Defined.

Lemma m_cb_two_wf : @wf_index cfg4 (gc_ftl m_cb_two) 0.
Proof. apply (wf_indexb_sound (H := cfg4) 9). vm_compute. reflexivity. Qed.

Lemma m_cb_two_selection :
  @select_by_score cfg4 9 (@CostBenefit.CalculateCostBenefitScore cfg4) 0 (gc_ftl m_cb_two)
  = Returned (1, @DetachBlockFromGcList cfg4 0 1 (gc_ftl m_cb_two)).
Proof. vm_compute. reflexivity. Qed.

(** X14 at the two candidates of [st_cb_two]: block 1, of age 100, is
    collected and its age is 0 afterwards. *)
Lemma garbage_collection_resets_victim_age_witness :
  @config_ok cfg4 /\ @wf_index cfg4 (gc_ftl m_cb_two) 0 /\
  age (gc_ftl m_cb_two) 0 1 = 100 /\
  exists mfin,
    @CostBenefit_GarbageCollection cfg4 req4 ext4 9 0 m_cb_two = Returned mfin /\
    age (gc_ftl mfin) 0 1 = 0.
Proof.
  split; [exact cfg4_ok|]. split; [exact m_cb_two_wf|].
  split; [vm_compute; reflexivity|].
  destruct (@garbage_collection_resets_victim_age cfg4 req4 ext4 cfg4_ok 9 0 m_cb_two 1 _
              (@CostBenefit.CalculateCostBenefitScore cfg4)
              (@CostBenefit_GarbageCollection cfg4 req4 ext4 9)
              (or_introl (conj eq_refl eq_refl)) m_cb_two_wf ltac:(cbn; lia)
              m_cb_two_selection)
    as (mfin & Hrun & Hage & _).
  exists mfin. split; [exact Hrun|exact Hage].
Defined.

Lemma m_all_invalid_wf : @wf_index cfg4 (gc_ftl m_all_invalid) 0.
Proof. apply (wf_indexb_sound (H := cfg4) 9). vm_compute. reflexivity. Qed.

Lemma m_all_invalid_bucket :
  @bucket_repr cfg4 (gc_ftl m_all_invalid) 0 (@SLICES_PER_BLOCK cfg4) [0].
Proof. apply bucket_reprb_sound. vm_compute. reflexivity. Qed.

(** X15 at a block with every slice counted invalid: the erase is the
    only event, and when it is issued the tables still map logical slice 9
    to page 1 of the block. *)
Lemma greedy_erases_full_block_without_copy_witness :
  @config_ok cfg4 /\ @wf_index cfg4 (gc_ftl m_all_invalid) 0 /\
  @live_page cfg4 ext4
    (@machine_at_erase cfg4 req4 ext4 0 0
       (@SelectiveGetFromGcVictimList cfg4 0 0 (gc_ftl m_all_invalid)) m_all_invalid)
    0 0 1 = true /\
  exists mfin,
    @Greedy_GarbageCollection cfg4 req4 ext4 0 m_all_invalid = Returned mfin /\
    trace mfin = [EvEraseBlock 0 0].
Proof.
  split; [exact cfg4_ok|]. split; [exact m_all_invalid_wf|].
  destruct (@greedy_erases_full_block_without_copy cfg4 req4 ext4 cfg4_ok 0
              m_all_invalid 0 [] m_all_invalid_wf ltac:(cbn; lia) m_all_invalid_bucket)
    as (_ & Eat & _ & mfin & Hrun & Htr).
  split; [rewrite Eat; vm_compute; reflexivity|].
  exists mfin. split; [exact Hrun|exact Htr].
Defined.

Lemma ext4_avoids_block_0 :
  forall tr p, 0 <= p < @USER_PAGES_PER_BLOCK cfg4 ->
    @FindFreeVirtualSliceForGc_result ext4 0 0 tr <> @Vorg2VsaTranslation ext4 0 0 p.
Proof.
  intros tr p Hp. unfold FindFreeVirtualSliceForGc_result, Vorg2VsaTranslation, ext4.
  cbn in Hp. lia.
Qed.

(** X16 at the victim with one live page: when the erase is issued
    page 2 fails the double check. *)
Lemma erased_block_has_no_live_page_witness :
  @live_page cfg4 ext4 m_mixed 0 0 2 = true /\
  @live_page cfg4 ext4
    (@machine_at_erase cfg4 req4 ext4 0 0
       (@SelectiveGetFromGcVictimList cfg4 0 0 (gc_ftl m_mixed)) m_mixed)
    0 0 2 = false.
Proof.
  split; [vm_compute; reflexivity|].
  destruct (@erased_block_has_no_live_page cfg4 req4 ext4
              (@Greedy.GetFromGcVictimList cfg4) (fun _ _ f => f) 0 m_mixed 0 _
              ext4_avoids_block_0 m_mixed_selection)
    as [_ Hdead].
  { vm_compute. discriminate. }
  apply Hdead. cbn. lia.
Defined.

(** X17 at the Cost-Benefit collection of block 1 of [m_cb_two]: logical
    slice 3, which maps to a slice of block 0, keeps its mapping; the one
    answer of the allocator in this run is slice 107, and slices 100 (which
    the allocator answers in other runs) and 6 (the migrated page) keep
    their entries. *)
Lemma migration_keeps_other_mappings_witness :
  logicalSlice
    (@machine_at_erase cfg4 req4 ext4 0 1
       (@DetachBlockFromGcList cfg4 0 1 (gc_ftl m_cb_two)) m_cb_two) 3
  = logicalSlice m_cb_two 3 /\
  @FindFreeVirtualSliceForGc_result ext4 0 1 [] = 100 /\
  virtualSlice
    (@machine_at_erase cfg4 req4 ext4 0 1
       (@DetachBlockFromGcList cfg4 0 1 (gc_ftl m_cb_two)) m_cb_two) 100
  = virtualSlice m_cb_two 100 /\
  virtualSlice
    (@machine_at_erase cfg4 req4 ext4 0 1
       (@DetachBlockFromGcList cfg4 0 1 (gc_ftl m_cb_two)) m_cb_two) 6
  = virtualSlice m_cb_two 6.
Proof.
  destruct (@migration_keeps_other_mappings cfg4 req4 ext4
              (@CostBenefit.GetFromGcVictimList cfg4 9)
              (fun d b f => set_gcLastTick d b (gcActivityTick f) f) 0 m_cb_two 1 _
              m_cb_two_selection)
    as (_ & Hl & new & Etr & Hv).
  assert (Enew : new = [ EvGetFromFreeReqQ 0; EvAllocateTempDataBuf 0 1;
                         EvUpdateTempDataBufEntryInfoBlockingReq 1 0;
                         EvSelectLowLevelReqQ 0 (@gc_request req4 8 7 1 6);
                         EvGetFromFreeReqQ 4; EvAllocateTempDataBuf 0 5;
                         EvUpdateTempDataBufEntryInfoBlockingReq 5 4;
                         EvFindFreeVirtualSliceForGc 0 1 107;
                         EvStoreLogicalSlice 7 107; EvStoreVirtualSlice 107 7;
                         EvSelectLowLevelReqQ 4 (@gc_request req4 0 7 5 107) ]).
  { change (trace m_cb_two ++ new) with new in Etr. rewrite <- Etr.
    vm_compute. reflexivity. }
  split.
  { apply Hl. intros p Hp E. unfold Vorg2VsaTranslation, ext4 in E.
    change (logicalSlice m_cb_two 3) with 0 in E. cbn in Hp. lia. }
  split; [reflexivity|].
  split; apply Hv; rewrite Enew; intros Hin; cbn [In] in Hin;
    repeat (destruct Hin as [Hin|Hin]; [discriminate|]); exact Hin.
Defined.

(** X18 at the victim with one live page: eleven events and the erase,
    one READ and one WRITE. *)
Lemma migration_accounting_witness :
  @REQ_CODE_READ req4 <> @REQ_CODE_WRITE req4 /\
  exists mfin new,
    @Greedy_GarbageCollection cfg4 req4 ext4 0 m_mixed = Returned mfin /\
    trace mfin = trace m_mixed ++ new ++ [EvEraseBlock 0 0] /\
    @count_submits req4 (@REQ_CODE_READ req4) new
    = @count_submits req4 (@REQ_CODE_WRITE req4) new /\
    length new = (11 * @count_submits req4 (@REQ_CODE_READ req4) new)%nat.
Proof.
  assert (Hne : @REQ_CODE_READ req4 <> @REQ_CODE_WRITE req4) by discriminate.
  split; [exact Hne|].
  destruct (@migration_accounting cfg4 req4 ext4 Hne
              (@Greedy.GetFromGcVictimList cfg4) (fun _ _ f => f) 0 m_mixed 0 _
              m_mixed_selection)
    as (mfin & new & Hrun & Htr & Heq & _ & Hlen & _).
  exists mfin, new. split; [exact Hrun|]. split; [exact Htr|].
  split; [exact Heq|exact Hlen].
Defined.

(** X22 at the two CAT candidates of [st_cat_two 0 1], both in bucket 3
    and of age 10: block 1, of the larger erase count, has at most the
    score of block 0. *)
Lemma scores_are_monotone_witness :
  @config_ok cfg4 /\
  0 <= invalidSliceCnt (block (st_cat_two 0 1) 0 1)
  <= invalidSliceCnt (block (st_cat_two 0 1) 0 0) /\
  @CAT.CalculateCatScore cfg4 (st_cat_two 0 1) 0 1
  <= @CAT.CalculateCatScore cfg4 (st_cat_two 0 1) 0 0.
Proof.
  assert (HI : 0 <= invalidSliceCnt (block (st_cat_two 0 1) 0 1)
               <= invalidSliceCnt (block (st_cat_two 0 1) 0 0))
    by (vm_compute; split; discriminate).
  split; [exact cfg4_ok|]. split; [exact HI|].
  destruct (@scores_are_monotone cfg4 cfg4_ok (st_cat_two 0 1) 0 1 0 HI) as [_ Hcat].
  - vm_compute. discriminate.
  - vm_compute. split; [discriminate|reflexivity].
  - apply Hcat.
    + vm_compute. split; discriminate.
    + vm_compute. reflexivity.
    + vm_compute. reflexivity.
Defined.

(** X23 at the bucket [0; 1]: the victim, block 0, has as many invalid
    slices as block 1. *)
Lemma greedy_victim_has_most_invalid_slices_witness :
  @config_ok cfg4 /\ @wf_index cfg4 st_pair 0 /\
  @in_bucket cfg4 st_pair 0 1 1 /\
  invalidSliceCnt (block st_pair 0 1) <= invalidSliceCnt (block st_pair 0 0).
Proof.
  assert (Hin : @in_bucket cfg4 st_pair 0 1 1).
  { exists [0; 1]. split; [exact st_pair_bucket|right; left; reflexivity]. }
  split; [exact cfg4_ok|]. split; [exact st_pair_wf|]. split; [exact Hin|].
  apply (@greedy_victim_has_most_invalid_slices cfg4 cfg4_ok st_pair 0 0
           (@SelectiveGetFromGcVictimList cfg4 0 0 st_pair) st_pair_wf
           ltac:(vm_compute; reflexivity) 1 1 ltac:(cbn; lia) Hin).
Defined.

(** X24 after the initialisation: no candidate, and the collection ends
    in the assertion. *)
Lemma greedy_collection_asserts_iff_no_candidate_witness :
  @config_ok cfg4 /\ @wf_index cfg4 st_boot 0 /\
  @Greedy_GarbageCollection cfg4 req4 ext4 0
    (mkMachine st_boot (fun _ => 0) (fun _ => 0)
       (fun _ => mkReq 0 0 0 0 0 0 0 0 0 0 0) [])
  = AssertFailed.
Proof.
  assert (Hwf : @wf_index cfg4 st_boot 0).
  { apply (wf_indexb_sound (H := cfg4) 9). vm_compute. reflexivity. }
  split; [exact cfg4_ok|]. split; [exact Hwf|].
  destruct (@greedy_collection_asserts_iff_no_candidate cfg4 req4 ext4 cfg4_ok 0
              (mkMachine st_boot (fun _ => 0) (fun _ => 0)
                 (fun _ => mkReq 0 0 0 0 0 0 0 0 0 0 0) []) Hwf) as [[_ Hassert] _].
  apply Hassert. intros k Hk. cbn in Hk.
  assert (E : k = 1 \/ k = 2 \/ k = 3 \/ k = 4) by lia.
  destruct E as [->|[->|[->| ->]]]; apply bucket_reprb_sound; vm_compute; reflexivity.
Defined.
